(** * Canvas MCP: the resilient access layer and the aggregation logic

    A shallow embedding of the TypeScript sources
    - [core/errors.ts]   (error classification),
    - [canvas/auth.ts]   (static and refreshable credentials),
    - [canvas/client.ts] (retry, backoff and Link-header pagination),
    - [mcp/mappers.ts]   (raw record normalisation),
    - [mcp/tools.ts]     (course recency keys, the course list, the
                          announcements, the upcoming-work merge),
    - [mcp/server.ts]    (the bearer check),
    - [core/env.ts], [index.ts] (from the environment to the client),
    - [core/timezone.ts] (the rendering of an offset),
    followed by the properties of these functions.

    Conventions.  A value the code may throw is a [JsError]; a function that
    may throw returns a [Result].  JavaScript numbers are modelled by
    [number] (exact rationals plus NaN and the two infinities; rounding of
    doubles is not modelled).  [undefined] and [null] of an optional field
    are both [None].  The host functions [Number], [Date.parse],
    [Date.now], [Math.random] and the network are inputs of the model. *)

From Stdlib Require Import ZArith QArith Qminmax Lia Lqa Bool Ascii String List.
From Stdlib Require Import Sorting.Sorted Sorting.Permutation.
From stdpp Require Import base option gmap.
Import ListNotations.

Open Scope string_scope.
Open Scope Z_scope.

(* ===================================================================== *)
(** ** JavaScript values used by the sources                              *)
(* ===================================================================== *)

Module Js.

(** A JavaScript number. *)
Inductive number : Type :=
| NaN
| NegInf
| Fin (q : Q)
| PosInf.

Definition ofZ (z : Z) : number := Fin (inject_Z z).

(** [Number.isNaN] / [Number.isFinite]. *)
Definition isNaN (x : number) : bool :=
  match x with NaN => true | _ => false end.

Definition isFinite (x : number) : bool :=
  match x with Fin _ => true | _ => false end.

(** Truthiness of a number: [0] and [NaN] are falsy. *)
Definition truthy (x : number) : bool :=
  match x with
  | NaN => false
  | Fin q => negb (Qeq_bool q 0)
  | _ => true
  end.

(** [x - y]. *)
Definition sub (x y : number) : number :=
  match x, y with
  | NaN, _ | _, NaN => NaN
  | PosInf, PosInf | NegInf, NegInf => NaN
  | PosInf, _ | _, NegInf => PosInf
  | NegInf, _ | _, PosInf => NegInf
  | Fin a, Fin b => Fin (a - b)
  end.

(** [x + y]. *)
Definition add (x y : number) : number :=
  match x, y with
  | NaN, _ | _, NaN => NaN
  | PosInf, NegInf | NegInf, PosInf => NaN
  | PosInf, _ | _, PosInf => PosInf
  | NegInf, _ | _, NegInf => NegInf
  | Fin a, Fin b => Fin (a + b)
  end.

(** [x * k] for a finite, strictly positive constant [k]. *)
Definition scale (x : number) (k : Q) : number :=
  match x with
  | Fin a => Fin (a * k)
  | other => other
  end.

(** [x > y], [x >= y] (false as soon as one side is NaN). *)
Definition gt (x y : number) : bool :=
  match x, y with
  | NaN, _ | _, NaN => false
  | PosInf, PosInf => false
  | PosInf, _ => true
  | _, PosInf => false
  | NegInf, _ => false
  | Fin _, NegInf => true
  | Fin a, Fin b => negb (Qle_bool a b)
  end.

Definition ge (x y : number) : bool :=
  match x, y with
  | NaN, _ | _, NaN => false
  | PosInf, _ => true
  | _, PosInf => false
  | _, NegInf => true
  | NegInf, _ => false
  | Fin a, Fin b => Qle_bool b a
  end.

(** [Math.max(x, y)] and [Math.min(x, y)]. *)
Definition max (x y : number) : number :=
  match x, y with
  | NaN, _ | _, NaN => NaN
  | _, _ => if ge x y then x else y
  end.

Definition min (x y : number) : number :=
  match x, y with
  | NaN, _ | _, NaN => NaN
  | _, _ => if ge x y then y else x
  end.

(** Truthiness of a string: only the empty string is falsy. *)
Definition truthy_str (s : string) : bool :=
  match s with EmptyString => false | _ => true end.

(** Truthiness of an optional string ([undefined], [null] and [""] are
    falsy); [a || b] on strings. *)
Definition truthy_ostr (o : option string) : bool :=
  match o with Some s => truthy_str s | None => false end.

Definition or_str (a b : string) : string :=
  if truthy_str a then a else b.

(** ASCII white space removed by [String.prototype.trim]. *)
Definition is_space (c : ascii) : bool :=
  let n := nat_of_ascii c in
  (Nat.eqb n 32 || Nat.eqb n 9 || Nat.eqb n 10
   || Nat.eqb n 11 || Nat.eqb n 12 || Nat.eqb n 13)%bool.

Fixpoint trimStart (s : string) : string :=
  match s with
  | String c rest => if is_space c then trimStart rest else s
  | EmptyString => EmptyString
  end.

Fixpoint trimEnd (s : string) : string :=
  match s with
  | EmptyString => EmptyString
  | String c rest =>
      match trimEnd rest with
      | EmptyString => if is_space c then EmptyString else String c EmptyString
      | rest' => String c rest'
      end
  end.

Definition trim (s : string) : string := trimEnd (trimStart s).

(** [toLowerCase] on ASCII letters. *)
Definition lower_ascii (c : ascii) : ascii :=
  let n := nat_of_ascii c in
  if (Nat.leb 65 n && Nat.leb n 90)%bool then ascii_of_nat (n + 32) else c.

Fixpoint toLowerCase (s : string) : string :=
  match s with
  | EmptyString => EmptyString
  | String c rest => String (lower_ascii c) (toLowerCase rest)
  end.

(** [s.includes(k)]: [k] occurs in [s] as a contiguous substring. *)
Fixpoint includes (s k : string) : bool :=
  if String.prefix k s then true
  else match s with
       | EmptyString => false
       | String _ rest => includes rest k
       end.

(** Decimal rendering of an integer, as [String(n)] and template
    literals do for integral numbers. *)
Definition digit_char (d : Z) : ascii := ascii_of_nat (48 + Z.to_nat d).

Fixpoint digits_of (fuel : nat) (n : Z) (acc : string) : string :=
  match fuel with
  | O => acc
  | S fuel' =>
      let acc' := String (digit_char (n mod 10)) acc in
      if n <? 10 then acc' else digits_of fuel' (n / 10) acc'
  end.

Definition string_of_Z (n : Z) : string :=
  if n <? 0 then String "-"%char (digits_of (Z.to_nat (- n)) (- n) "")
  else digits_of (S (Z.to_nat n)) n "".

(** A parsed JSON document ([unknown] payloads of the sources). *)
#[local] Unset Elimination Schemes.
Inductive JSON : Type :=
| JNull
| JBool (b : bool)
| JNum (n : number)
| JStr (s : string)
| JArr (items : list JSON)
| JObj (props : list (string * JSON)).
#[local] Set Elimination Schemes.

(** The outcome of a call that may throw. *)
Inductive Result (E A : Type) : Type :=
| Ok (a : A)
| Throw (e : E).
Arguments Ok {E A} a.
Arguments Throw {E A} e.

(** The host functions the sources call: [Number(s)], [Date.parse(s)]
    and [new URL(s)] ([None] when the constructor throws). *)
Class Host : Type := {
  Number_ : string -> number;
  Date_parse : string -> number;
  URL : Type;
  new_URL : string -> option string -> option URL;
  searchParams_append : URL -> string -> string -> URL;
  searchParams_set : URL -> string -> string -> URL
}.

End Js.

(* ===================================================================== *)
(** ** core/errors.ts                                                     *)
(* ===================================================================== *)

Module Errors.

Inductive ErrorCode : Type :=
| AUTHORIZATION_FAILED
| NOT_FOUND
| RATE_LIMITED
| CANVAS_UNAVAILABLE
| BAD_REQUEST
| UNKNOWN.

Definition ErrorCode_eqb (a b : ErrorCode) : bool :=
  match a, b with
  | AUTHORIZATION_FAILED, AUTHORIZATION_FAILED
  | NOT_FOUND, NOT_FOUND
  | RATE_LIMITED, RATE_LIMITED
  | CANVAS_UNAVAILABLE, CANVAS_UNAVAILABLE
  | BAD_REQUEST, BAD_REQUEST
  | UNKNOWN, UNKNOWN => true
  | _, _ => false
  end.

(** [details] is [unknown] in the source; every caller passes a parsed
    payload or nothing. *)
Record ErrorData : Type := mkErrorData {
  requestId : option string;
  canvasStatus : option Z;
  details : option Js.JSON
}.

Record AppError : Type := mkAppError {
  code : ErrorCode;
  message : string;
  httpStatus : Z;
  data : option ErrorData
}.

(** What a [throw] can carry: an [AppError], or any other [Error]
    (a [TypeError] of the host, a failed token refresh, ...). *)
Inductive JsError : Type :=
| EApp (e : AppError)
| EError (msg : string).

Definition STATUS_TO_CODE : gmap Z ErrorCode :=
  list_to_map
    [ (400, BAD_REQUEST);
      (401, AUTHORIZATION_FAILED);
      (403, AUTHORIZATION_FAILED);
      (404, NOT_FOUND);
      (429, RATE_LIMITED) ].

Definition STATUS_TO_MESSAGE : gmap Z string :=
  list_to_map
    [ (400, "Invalid request sent to Canvas.");
      (401, "Authorization failed: check Canvas token/scopes.");
      (403, "Authorization failed: check Canvas token/scopes.");
      (404, "Not found: course or assignment id.");
      (429, "Rate limited by Canvas; retry later.") ].

Definition canvasError (status : Z) (requestId : option string)
    (fallbackMessage : option string) (details : option Js.JSON) : AppError :=
  let code := default CANVAS_UNAVAILABLE (STATUS_TO_CODE !! status) in
  let httpStatus := status in
  let httpStatus := if status >=? 500 then 503 else httpStatus in
  let httpStatus :=
    if ErrorCode_eqb code CANVAS_UNAVAILABLE then 503 else httpStatus in
  let message :=
    default "Canvas temporarily unavailable." (STATUS_TO_MESSAGE !! status) in
  mkAppError code (default message fallbackMessage) httpStatus
    (Some (mkErrorData requestId (Some status) details)).

Definition unknownError (message : string) (details : option Js.JSON) : AppError :=
  mkAppError UNKNOWN message 500 (Some (mkErrorData None None details)).

End Errors.

(* ===================================================================== *)
(** ** canvas/auth.ts                                                     *)
(* ===================================================================== *)

Module Auth.
Import Js Errors.

(** The capability contract of the two strategies.  A strategy is a state
    machine over its own state [A]; [None] means that the environment the
    state carries has no further answer to give (the run is cut short),
    never that the code returned. *)
Class CanvasAuthStrategy (A : Type) : Type := {
  getAuthorizationHeader : A -> option (Result JsError string * A);
  handleUnauthorized : A -> option (Result JsError bool * A)
}.

(** *** PersonalAccessTokenAuth *)

Record PersonalAccessTokenAuth : Type := mkPAT { token : string }.

Definition pat_getAuthorizationHeader (self : PersonalAccessTokenAuth)
  : Result JsError string :=
  Ok ("Bearer " ++ token self)%string.

Definition pat_handleUnauthorized (self : PersonalAccessTokenAuth)
  : Result JsError bool :=
  Ok false.

#[export] Instance PersonalAccessTokenAuth_strategy
  : CanvasAuthStrategy PersonalAccessTokenAuth := {
  getAuthorizationHeader self := Some (pat_getAuthorizationHeader self, self);
  handleUnauthorized self := Some (pat_handleUnauthorized self, self)
}.

(** *** OAuthTokenAuth

    Calls are run to completion one at a time, so [this.refreshing] is
    [null] whenever a call starts and the branch of [refreshTokenPair]
    that awaits a refresh already in flight is never taken; the field is
    left out of the state. *)

Record OAuthTokenAuth : Type := mkOAuth {
  accessToken : option string;
  baseUrl : string;
  clientId : string;
  clientSecret : string;
  refreshToken : string;
  tokenExpiresAt : option number
}.

(** The JSON body of a token response. *)
Record TokenPayload : Type := mkTokenPayload {
  access_token : option string;
  refresh_token : option string;
  expires_in : option number
}.

(** One exchange with the token endpoint: [fetch] rejects, or answers
    with a status and a body ([None]: [response.json()] rejects). *)
Inductive TokenOutcome : Type :=
| TokenFetchFails (msg : string)
| TokenHttp (status : Z) (body : option TokenPayload).

(** The exchange together with the reading of [Date.now()] taken when the
    expiry is recomputed. *)
Record TokenEvent : Type := mkTokenEvent {
  tok_outcome : TokenOutcome;
  tok_now : Z
}.

(** What the strategy does to the outside world. *)
Inductive AuthEffect : Type :=
| TokenRequest (refresh_token : string) (client_id : string)
               (client_secret : option string)
| AuthSleep (ms : Z).

Definition response_ok (status : Z) : bool :=
  (200 <=? status) && (status <=? 299).

Definition shouldRefreshSoon (self : OAuthTokenAuth) (now : Z) : bool :=
  match tokenExpiresAt self with
  | None => false
  | Some expiresAt =>
      if negb (truthy expiresAt) then false
      else
        let refreshThreshold := sub expiresAt (ofZ 60000) in
        ge (ofZ now) refreshThreshold
  end.

Definition performRefresh (self : OAuthTokenAuth) (force : bool)
    (ev : TokenEvent)
  : Result JsError unit * OAuthTokenAuth * list AuthEffect :=
  let request :=
    TokenRequest (refreshToken self) (clientId self)
      (if truthy_str (clientSecret self) then Some (clientSecret self) else None) in
  match tok_outcome ev with
  | TokenFetchFails msg => (Throw (EError msg), self, [request])
  | TokenHttp status body =>
      if negb (response_ok status) then
        (Throw (EError ("Canvas OAuth token refresh failed with status "
                        ++ string_of_Z status)%string),
         self,
         request :: (if negb force then [AuthSleep 300] else []))
      else
        match body with
        | None => (Throw (EError "Unexpected end of JSON input"), self, [request])
        | Some payload =>
            let self1 :=
              mkOAuth (access_token payload) (baseUrl self) (clientId self)
                (clientSecret self) (refreshToken self) (tokenExpiresAt self) in
            let self2 :=
              match refresh_token payload with
              | Some r =>
                  if truthy_str r then
                    mkOAuth (accessToken self1) (baseUrl self1) (clientId self1)
                      (clientSecret self1) r (tokenExpiresAt self1)
                  else self1
              | None => self1
              end in
            let expiry :=
              match expires_in payload with
              | Some e =>
                  if truthy e && isFinite e then
                    Some (add (ofZ (tok_now ev))
                            (scale (max (sub e (ofZ 60)) (ofZ 0)) 1000))
                  else None
              | None => None
              end in
            (Ok tt,
             mkOAuth (accessToken self2) (baseUrl self2) (clientId self2)
               (clientSecret self2) (refreshToken self2) expiry,
             [request])
        end
  end.

(** The environment of an [OAuthTokenAuth]: the answers of the token
    endpoint still to come. *)
Definition refreshTokenPair (self : OAuthTokenAuth) (force : bool)
    (endpoint : list TokenEvent)
  : option (Result JsError unit * OAuthTokenAuth * list TokenEvent
            * list AuthEffect) :=
  match endpoint with
  | [] => None
  | ev :: endpoint' =>
      let '(r, self', eff) := performRefresh self force ev in
      Some (r, self', endpoint', eff)
  end.

Definition oauth_getAuthorizationHeader (self : OAuthTokenAuth) (now : Z)
    (endpoint : list TokenEvent)
  : option (Result JsError string * OAuthTokenAuth * list TokenEvent
            * list AuthEffect) :=
  let finish (self : OAuthTokenAuth) (endpoint : list TokenEvent)
      (eff : list AuthEffect) :=
    match accessToken self with
    | Some t =>
        if truthy_str t then (Ok ("Bearer " ++ t)%string, self, endpoint, eff)
        else (Throw (EError "Missing Canvas access token after refresh."),
              self, endpoint, eff)
    | None => (Throw (EError "Missing Canvas access token after refresh."),
               self, endpoint, eff)
    end in
  let second (self : OAuthTokenAuth) (endpoint : list TokenEvent)
      (eff : list AuthEffect) :=
    if negb (truthy_ostr (accessToken self)) then
      match refreshTokenPair self false endpoint with
      | None => None
      | Some (Throw e, self', endpoint', eff') =>
          Some (Throw e, self', endpoint', (eff ++ eff')%list)
      | Some (Ok _, self', endpoint', eff') =>
          Some (finish self' endpoint' (eff ++ eff')%list)
      end
    else Some (finish self endpoint eff) in
  if shouldRefreshSoon self now then
    match refreshTokenPair self false endpoint with
    | None => None
    | Some (Throw e, self', endpoint', eff) => Some (Throw e, self', endpoint', eff)
    | Some (Ok _, self', endpoint', eff) => second self' endpoint' eff
    end
  else second self endpoint [].

Definition oauth_handleUnauthorized (self : OAuthTokenAuth)
    (endpoint : list TokenEvent)
  : option (Result JsError bool * OAuthTokenAuth * list TokenEvent
            * list AuthEffect) :=
  match refreshTokenPair self true endpoint with
  | None => None
  | Some (Throw e, self', endpoint', eff) => Some (Throw e, self', endpoint', eff)
  | Some (Ok _, self', endpoint', eff) =>
      Some (Ok (truthy_ostr (accessToken self')), self', endpoint', eff)
  end.

(** An [OAuthTokenAuth] with its environment: the readings of
    [Date.now()] that successive calls of [getAuthorizationHeader] see,
    the answers of the token endpoint, and the effects so far. *)
Record OAuthSession : Type := mkSession {
  strategy : OAuthTokenAuth;
  clock : list Z;
  endpoint : list TokenEvent;
  effects : list AuthEffect
}.

#[export] Instance OAuthTokenAuth_strategy : CanvasAuthStrategy OAuthSession := {
  getAuthorizationHeader s :=
    match clock s with
    | [] => None
    | now :: clock' =>
        match oauth_getAuthorizationHeader (strategy s) now (endpoint s) with
        | None => None
        | Some (r, self', endpoint', eff) =>
            Some (r, mkSession self' clock' endpoint' (effects s ++ eff)%list)
        end
    end;
  handleUnauthorized s :=
    match oauth_handleUnauthorized (strategy s) (endpoint s) with
    | None => None
    | Some (r, self', endpoint', eff) =>
        Some (r, mkSession self' (clock s) endpoint' (effects s ++ eff)%list)
    end
}.

(** [createAuthStrategy]: a personal access token wins over OAuth. *)
Inductive AnyStrategy : Type :=
| UsePAT (s : PersonalAccessTokenAuth)
| UseOAuth (s : OAuthTokenAuth).

Definition createAuthStrategy (baseUrl : string)
    (pat clientId clientSecret accessToken refreshToken : option string)
  : Result JsError AnyStrategy :=
  if truthy_ostr pat then Ok (UsePAT (mkPAT (default "" pat)))
  else if truthy_ostr clientId && truthy_ostr clientSecret
          && truthy_ostr refreshToken
  then Ok (UseOAuth (mkOAuth accessToken baseUrl (default "" clientId)
                       (default "" clientSecret) (default "" refreshToken) None))
  else Throw (EError "No Canvas authentication method configured.").

End Auth.

(* ===================================================================== *)
(** ** canvas/client.ts                                                   *)
(* ===================================================================== *)

Module Client.
Import Js Errors Auth.

(** [CanvasResult<T>]. *)
Record CanvasResult (T : Type) : Type := mkCanvasResult {
  data : T;
  status : Z;
  requestId : option string;
  requestIds : option (list string)
}.
Arguments mkCanvasResult {T}.
Arguments data {T}.
Arguments status {T}.
Arguments requestId {T}.
Arguments requestIds {T}.

(** The text of a response body, as [parsePayload] tells it apart: empty,
    accepted by [JSON.parse], or rejected by it. *)
Inductive Body : Type :=
| BodyEmpty
| BodyJson (j : JSON)
| BodyText (text : string).

(** One physical response, with the headers the client reads. *)
Record Response : Type := mkResponse {
  resp_status : Z;
  x_request_id : option string;
  retry_after : option string;
  link : option string;
  content_type : option string;
  body : Body
}.

Definition resp_ok (r : Response) : bool :=
  (200 <=? resp_status r) && (resp_status r <=? 299).

(** One physical request as the environment answers it: [fetch] rejects
    or resolves; [ev_now] and [ev_random] are what [Date.now()] and
    [Math.random()] return while the answer is handled. *)
Inductive FetchOutcome : Type :=
| FetchFails (msg : string)
| FetchResponds (r : Response).

Record FetchEvent : Type := mkFetchEvent {
  ev_outcome : FetchOutcome;
  ev_now : Z;
  ev_random : Q
}.

(** A query parameter value, by the case [buildUrl] puts it in. *)
Inductive ParamValue : Type :=
| PNullish
| PArray (entries : list string)
| PDate (iso : string)
| POther (text : string).

Definition shouldRetry (status : Z) : bool :=
  (status =? 429) || ((status >=? 500) && (status <? 600)).

(** [parseLinkHeader]: the parts between commas that, once trimmed, start
    with an address in angle brackets, a semicolon, optional white space
    and a quoted, non-empty relation [rel]. *)
Definition dquote : ascii := ascii_of_nat 34.

Fixpoint split_on (sep : ascii) (s : string) : list string :=
  match s with
  | EmptyString => [EmptyString]
  | String c rest =>
      if Ascii.eqb c sep then EmptyString :: split_on sep rest
      else match split_on sep rest with
           | [] => [String c EmptyString]
           | part :: parts => String c part :: parts
           end
  end.

(** The longest prefix free of [stop], and what follows it. *)
Fixpoint span_until (stop : ascii) (s : string) : string * string :=
  match s with
  | EmptyString => (EmptyString, EmptyString)
  | String c rest =>
      if Ascii.eqb c stop then (EmptyString, s)
      else let '(pre, post) := span_until stop rest in (String c pre, post)
  end.

Definition match_link (part : string) : option (string * string) :=
  match part with
  | String "<"%char r =>
      let '(url, r1) := span_until ">"%char r in
      if negb (truthy_str url) then None
      else
        match r1 with
        | String ">"%char (String ";"%char r2) =>
            match trimStart r2 with
            | String "r"%char (String "e"%char (String "l"%char
                (String "="%char (String q r3)))) =>
                if Ascii.eqb q dquote then
                  let '(rel, r4) := span_until dquote r3 in
                  if negb (truthy_str rel) then None
                  else match r4 with
                       | String _ _ => Some (rel, url)
                       | EmptyString => None
                       end
                else None
            | _ => None
            end
        | _ => None
        end
  | _ => None
  end.

(** The record [entries], as the list of its assignments in order; a
    later assignment to the same relation replaces an earlier one. *)
Definition parseLinkHeader (header : option string) : list (string * string) :=
  match header with
  | None => []
  | Some h =>
      if negb (truthy_str h) then []
      else omap (fun part => match_link (trim part)) (split_on ","%char h)
  end.

Fixpoint links_get (rel : string) (entries : list (string * string))
  : option string :=
  match entries with
  | [] => None
  | (r, url) :: rest =>
      match links_get rel rest with
      | Some later => Some later
      | None => if String.eqb r rel then Some url else None
      end
  end.

Section WithHost.
Context `{host : Host}.

Definition parseRetryAfter (header : option string) (now : Z)
  : option number :=
  match header with
  | None => None
  | Some h =>
      if negb (truthy_str h) then None
      else
        let seconds := Number_ h in
        if negb (isNaN seconds) then Some (scale seconds 1000)
        else
          let date := Date_parse h in
          if negb (isNaN date) then
            let delta := sub date (ofZ now) in
            Some (if gt delta (ofZ 0) then delta else ofZ 0)
          else None
  end.

(** [retryDelay(attempt, retryAfter)], with the two readings of the
    environment it takes. *)
Definition retryDelay (attempt : nat) (retryAfter : option string)
    (now : Z) (random : Q) : number :=
  match parseRetryAfter retryAfter now with
  | Some parsedRetryAfter => parsedRetryAfter
  | None =>
      let base := (500 * inject_Z (2 ^ Z.of_nat attempt))%Q in
      let jitter := (base * ((1 # 2) + random))%Q in
      min (ofZ 5000) (Fin jitter)
  end.

Definition buildUrl (baseUrl path : string)
    (params : option (list (string * ParamValue))) : option URL :=
  match new_URL path (Some baseUrl) with
  | None => None
  | Some url =>
      Some
        (fold_left
           (fun url '(key, value) =>
              match value with
              | PNullish => url
              | PArray entries =>
                  fold_left (fun url entry => searchParams_append url key entry)
                    entries url
              | PDate iso => searchParams_set url key iso
              | POther text => searchParams_set url key text
              end)
           (default [] params) url)
  end.
End WithHost.

(** [extractCanvasMessage].  An object is the list of its own properties
    in enumeration order, with distinct keys. *)
Definition truthy_json (j : JSON) : bool :=
  match j with
  | JNull => false
  | JBool b => b
  | JNum n => truthy n
  | JStr s => truthy_str s
  | JArr _ | JObj _ => true
  end.

Fixpoint prop_string (key : string) (props : list (string * JSON))
  : option string :=
  match props with
  | [] => None
  | (k, v) :: rest =>
      if String.eqb k key
      then match v with JStr s => Some s | _ => None end
      else prop_string key rest
  end.

Fixpoint extractCanvasMessage (payload : JSON) : option string :=
  let first_truthy :=
    fix first_truthy (values : list JSON) : option string :=
      match values with
      | [] => None
      | value :: rest =>
          match extractCanvasMessage value with
          | Some message =>
              if truthy_str message then Some message else first_truthy rest
          | None => first_truthy rest
          end
      end in
  let from_errors :=
    fix from_errors (props : list (string * JSON)) : option string :=
      match props with
      | [] => None
      | (k, errors) :: rest =>
          if String.eqb k "errors" then
            match errors with
            | JStr s => if truthy_str s then Some s else None
            | JArr items =>
                let direct :=
                  match items with
                  | JStr s :: _ => Some s
                  | JObj normalized :: _ =>
                      match prop_string "message" normalized with
                      | Some m => Some m
                      | None => prop_string "detail" normalized
                      end
                  | _ => None
                  end in
                match direct with
                | Some m => Some m
                | None => first_truthy items
                end
            | JObj values =>
                (fix over_values (ps : list (string * JSON)) : option string :=
                   match ps with
                   | [] => None
                   | (_, value) :: ps' =>
                       match extractCanvasMessage value with
                       | Some message =>
                           if truthy_str message then Some message
                           else over_values ps'
                       | None => over_values ps'
                       end
                   end) values
            | _ => None
            end
          else from_errors rest
      end in
  match payload with
  | JNull | JBool _ | JNum _ => None
  | JStr s => if truthy_str s then Some s else None
  | JArr [] => None
  | JArr (first :: _) => extractCanvasMessage first
  | JObj props =>
      match prop_string "message" props with
      | Some m => Some m
      | None => from_errors props
      end
  end.

Definition header_json (h : option string) : JSON :=
  match h with Some v => JStr v | None => JNull end.

(** [parsePayload]: whether the response is [ok], and its payload (the
    raw text when [JSON.parse] rejects the body of a failed response). *)
Definition parsePayload (response : Response) : Result JsError (bool * JSON) :=
  match body response with
  | BodyEmpty => Ok (resp_ok response, JNull)
  | BodyJson j => Ok (resp_ok response, j)
  | BodyText text =>
      if resp_ok response then
        Throw (EApp (unknownError "Canvas returned an unexpected payload format."
                       (Some (JObj [("contentType", header_json (content_type response));
                                    ("body", JStr text)]))))
      else Ok (resp_ok response, JStr text)
  end.

(** [requestIds.at(-1)]. *)
Definition at_last {T : Type} (l : list T) : option T := List.last (map Some l) None.

Record CanvasClientOptions : Type := mkOptions {
  opt_baseUrl : string;
  opt_pat : option string;
  opt_clientId : option string;
  opt_clientSecret : option string;
  opt_accessToken : option string;
  opt_refreshToken : option string;
  opt_maxRetries : option nat;
  opt_defaultPerPage : option Z
}.

(** The fields of a [CanvasClient] other than its auth strategy, whose
    state is threaded through the calls below. *)
Record CanvasClient : Type := mkCanvasClient {
  baseUrl : string;
  maxRetries : nat;
  defaultPerPage : Z
}.

Definition constructor (options : CanvasClientOptions)
  : Result JsError (CanvasClient * AnyStrategy) :=
  let baseUrl := opt_baseUrl options in
  let maxRetries := default 3%nat (opt_maxRetries options) in
  let defaultPerPage := default 100 (opt_defaultPerPage options) in
  match createAuthStrategy baseUrl (opt_pat options) (opt_clientId options)
          (opt_clientSecret options) (opt_accessToken options)
          (opt_refreshToken options) with
  | Ok auth => Ok (mkCanvasClient baseUrl maxRetries defaultPerPage, auth)
  | Throw e => Throw e
  end.

(** What the client does to the outside world, in order. *)
Inductive ClientEffect `{host : Host} : Type :=
| Request (url : URL) (attempt : nat) (authorization : string)
| Sleep (ms : number).

Section Fetcher.
Context `{host : Host} {A : Type} `{auth : !CanvasAuthStrategy A}.

(** A run: the outcome, the auth strategy afterwards, the answers of
    the network not yet consumed, and the effects. [None]: the
    environment ran out of answers before the call was over. *)
Definition Run (X : Type) : Type :=
  option (Result JsError X * A * list FetchEvent * list ClientEffect).

(** [fetchWithRetry(url, init, attempt)].  Each physical [fetch] takes
    the next answer of the network.  The recursive calls are returned
    without [await], so what they throw is not caught by the [catch]
    of the caller. *)
Fixpoint fetchWithRetry (self : CanvasClient) (url : URL) (attempt : nat)
    (auth0 : A) (net : list FetchEvent) {struct net} : Run Response :=
  match getAuthorizationHeader auth0 with
  | None => None
  | Some (Throw e, auth1) => Some (Throw e, auth1, net, [])
  | Some (Ok authorization, auth1) =>
      match net with
      | [] => None
      | ev :: net' =>
          let request := Request url attempt authorization in
          let again (auth2 : A) (sleeps : list ClientEffect) : Run Response :=
            match fetchWithRetry self url (S attempt) auth2 net' with
            | None => None
            | Some (r, auth3, net'', eff) =>
                Some (r, auth3, net'', request :: sleeps ++ eff)%list
            end in
          let on_catch (error : JsError) (auth2 : A) : Run Response :=
            if (maxRetries self <=? attempt)%nat
            then Some (Throw error, auth2, net', [request])
            else again auth2
                   [Sleep (retryDelay attempt None (ev_now ev) (ev_random ev))] in
          match ev_outcome ev with
          | FetchFails msg => on_catch (EError msg) auth1
          | FetchResponds response =>
              let after_401 (auth2 : A) : Run Response :=
                if shouldRetry (resp_status response)
                   && (attempt <? maxRetries self)%nat
                then again auth2
                       [Sleep (retryDelay attempt (retry_after response)
                                 (ev_now ev) (ev_random ev))]
                else Some (Ok response, auth2, net', [request]) in
              if resp_status response =? 401 then
                match handleUnauthorized auth1 with
                | None => None
                | Some (Throw e, auth2) => on_catch e auth2
                | Some (Ok refreshed, auth2) =>
                    if refreshed && (attempt <? maxRetries self)%nat
                    then again auth2 []
                    else after_401 auth2
                end
              else after_401 auth1
          end
      end
  end.

(** [get]: one logical request. *)
Definition handleResponse (response : Response)
  : Result JsError (CanvasResult JSON) :=
  match parsePayload response with
  | Throw e => Throw e
  | Ok (ok, payload) =>
      let requestId := x_request_id response in
      if negb ok then
        Throw (EApp (canvasError (resp_status response) requestId
                       (extractCanvasMessage payload) (Some payload)))
      else Ok (mkCanvasResult payload (resp_status response) requestId None)
  end.

Definition get (self : CanvasClient) (path : string)
    (params : option (list (string * ParamValue)))
    (auth0 : A) (net : list FetchEvent) : Run (CanvasResult JSON) :=
  match buildUrl (baseUrl self) path params with
  | None => Some (Throw (EError "Invalid URL"), auth0, net, [])
  | Some url =>
      match fetchWithRetry self url 0 auth0 net with
      | None => None
      | Some (Throw e, auth1, net', eff) => Some (Throw e, auth1, net', eff)
      | Some (Ok response, auth1, net', eff) =>
          Some (handleResponse response, auth1, net', eff)
      end
  end.

(** The outcome of [getAll], and the pages it folded: the responses
    that [fetchWithRetry] handed to the loop, in order. *)
Record Drained : Type := mkDrained {
  outcome : Result JsError (CanvasResult (list JSON));
  auth_after : A;
  net_after : list FetchEvent;
  effects : list ClientEffect;
  pages : list Response
}.

(** The [while (nextUrl)] loop of [getAll]; [fuel] bounds the number
    of iterations. *)
Fixpoint getAll_loop (fuel : nat) (self : CanvasClient)
    (nextUrl : option URL) (results : list JSON) (requestIds : list string)
    (status : Z) (auth0 : A) (net : list FetchEvent)
    (eff : list ClientEffect) (seen : list Response) : option Drained :=
  match nextUrl with
  | None =>
      Some (mkDrained
              (Ok (mkCanvasResult results status (at_last requestIds)
                     (match requestIds with [] => None | _ => Some requestIds end)))
              auth0 net eff seen)
  | Some url =>
      match fuel with
      | O => None
      | S fuel' =>
          match fetchWithRetry self url 0 auth0 net with
          | None => None
          | Some (Throw e, auth1, net', eff') =>
              Some (mkDrained (Throw e) auth1 net' (eff ++ eff')%list seen)
          | Some (Ok response, auth1, net', eff') =>
              let eff := (eff ++ eff')%list in
              let seen := (seen ++ [response])%list in
              let status := resp_status response in
              let requestId := x_request_id response in
              let requestIds :=
                match requestId with
                | Some id => if truthy_str id then (requestIds ++ [id])%list
                             else requestIds
                | None => requestIds
                end in
              match parsePayload response with
              | Throw e => Some (mkDrained (Throw e) auth1 net' eff seen)
              | Ok (ok, payload) =>
                  if negb ok then
                    Some (mkDrained
                            (Throw (EApp (canvasError (resp_status response)
                                            requestId
                                            (extractCanvasMessage payload)
                                            (Some payload))))
                            auth1 net' eff seen)
                  else
                    match payload with
                    | JArr records =>
                        let results := (results ++ records)%list in
                        let links := parseLinkHeader (link response) in
                        match links_get "next" links with
                        | Some next =>
                            match new_URL next None with
                            | Some u =>
                                getAll_loop fuel' self (Some u) results
                                  requestIds status auth1 net' eff seen
                            | None =>
                                Some (mkDrained (Throw (EError "Invalid URL"))
                                        auth1 net' eff seen)
                            end
                        | None =>
                            getAll_loop fuel' self None results
                              requestIds status auth1 net' eff seen
                        end
                    | _ =>
                        Some (mkDrained
                                (Throw (EApp (unknownError
                                                "Expected a list response from Canvas."
                                                (Some payload))))
                                auth1 net' eff seen)
                    end
              end
          end
      end
  end.

(** A successful iteration consumes an answer of the network, so the
    loop runs at most once more than there are answers. *)
Definition getAll (self : CanvasClient) (path : string)
    (params : list (string * ParamValue))
    (auth0 : A) (net : list FetchEvent) : option Drained :=
  let per_page := POther (string_of_Z (defaultPerPage self)) in
  let spread :=
    match List.find (fun kv => String.eqb (fst kv) "per_page") params with
    | Some (_, v) =>
        ("per_page", v)
          :: List.filter (fun kv => negb (String.eqb (fst kv) "per_page")) params
    | None => ("per_page", per_page) :: params
    end in
  match buildUrl (baseUrl self) path (Some spread) with
  | None => Some (mkDrained (Throw (EError "Invalid URL")) auth0 net [] [])
  | Some url =>
      getAll_loop (S (length net)) self (Some url) [] [] 200 auth0 net [] []
  end.
End Fetcher.

End Client.

(* ===================================================================== *)
(** ** canvas/types.ts, mcp/schemas.ts, mcp/mappers.ts                    *)
(* ===================================================================== *)

Module Mappers.
Import Js.

(** Raw records of the upstream API.  A field the sources guard with
    [??], [||] or [typeof] is optional here even where its declared type
    says it is always there. *)
Record CanvasTerm : Type := mkCanvasTerm {
  term_id : Z;
  term_name : option string
}.

Record CanvasCourse : Type := mkCanvasCourse {
  raw_id : Z;
  raw_name : option string;
  raw_course_code : option string;
  raw_term : option CanvasTerm
}.

Record CanvasSubmission : Type := mkCanvasSubmission {
  workflow_state : option string;
  late : bool;
  missing : bool;
  graded : bool;
  excused : bool
}.

Record CanvasAssignment : Type := mkCanvasAssignment {
  a_id : Z;
  a_course_id : option Z;
  a_name : string;
  a_due_at : option string;
  a_points_possible : option number;
  a_html_url : option string;
  a_submission : option CanvasSubmission
}.

Record CanvasTodoItem : Type := mkCanvasTodoItem {
  todo_type : string;
  todo_assignment : option CanvasAssignment;
  todo_html_url : option string;
  todo_course_id : option Z
}.

(** Records of the tool layer ([schemas.ts]). *)
Inductive SubmissionState : Type :=
| unsubmitted | submitted | st_graded | pending_review
| st_late | st_missing | st_excused.

Record Course : Type := mkCourse {
  id : Z;
  name : string;
  term : string;
  course_code : string
}.

Inductive Source : Type := todo | assignment.

(** [Assignment]; with [source] set it is an [UpcomingItem].  The schema
    asks for a course id and a link; they are optional here because
    [mapAssignment] copies them as they come. *)
Record Assignment : Type := mkAssignment {
  item_id : Z;
  item_course_id : option Z;
  item_name : string;
  due_at : option string;
  points : option number;
  html_url : option string;
  submission_state : SubmissionState;
  source : option Source
}.

Definition normalizeTerm (term : option string) : string :=
  match term with
  | Some t => trim t
  | None => ""
  end.

Definition computeSubmissionState (submission : option CanvasSubmission)
  : SubmissionState :=
  match submission with
  | None => unsubmitted
  | Some submission =>
      if excused submission then st_excused
      else
        match workflow_state submission with
        | Some state =>
            if String.eqb state "graded" then st_graded
            else if String.eqb state "pending_review" then pending_review
            else if String.eqb state "submitted"
              then (if late submission then st_late else submitted)
            else if String.eqb state "unsubmitted"
              then (if missing submission then st_missing else unsubmitted)
            else if missing submission then st_missing else unsubmitted
        | None => if missing submission then st_missing else unsubmitted
        end
  end.

Definition mapCourse (raw : CanvasCourse) : Course :=
  let trimmedName :=
    match raw_name raw with Some n => trim n | None => "" end in
  let trimmedCourseCode :=
    match raw_course_code raw with Some c => trim c | None => "" end in
  let safeCourseCode :=
    or_str trimmedCourseCode ("COURSE-" ++ string_of_Z (raw_id raw))%string in
  let safeName :=
    or_str trimmedName
      (or_str safeCourseCode ("Course " ++ string_of_Z (raw_id raw))%string) in
  mkCourse (raw_id raw) safeName
    (normalizeTerm (match raw_term raw with
                    | Some t => term_name t
                    | None => None
                    end))
    safeCourseCode.

Definition mapAssignment (raw : CanvasAssignment) (source : option Source)
  : Assignment :=
  mkAssignment (a_id raw) (a_course_id raw) (a_name raw) (a_due_at raw)
    (a_points_possible raw) (a_html_url raw)
    (computeSubmissionState (a_submission raw)) source.

Definition mapUpcomingFromAssignment (assignment : CanvasAssignment)
    (source : Source) : Assignment :=
  mapAssignment assignment (Some source).

End Mappers.

(* ===================================================================== *)
(** ** mcp/tools.ts                                                       *)
(* ===================================================================== *)

(** A [Map<number, V>]: its entries in insertion order.  [set] on a key
    already there replaces the value and keeps the position. *)
Module JsMap.
Section Ops.
Context {V : Type}.

Definition t : Type := list (Z * V).

Definition empty : t := [].

Fixpoint has (m : t) (k : Z) : bool :=
  match m with
  | [] => false
  | (k', _) :: rest => if k' =? k then true else has rest k
  end.

Fixpoint get (m : t) (k : Z) : option V :=
  match m with
  | [] => None
  | (k', v) :: rest => if k' =? k then Some v else get rest k
  end.

Fixpoint set (m : t) (k : Z) (v : V) : t :=
  match m with
  | [] => [(k, v)]
  | (k', v') :: rest =>
      if k' =? k then (k', v) :: rest else (k', v') :: set rest k v
  end.

Definition keys (m : t) : list Z := map fst m.
Definition values (m : t) : list V := map snd m.
End Ops.
Arguments t : clear implicits.
End JsMap.

(** [Array.prototype.sort(compareFn)].  The sort is stable, and a
    comparison that yields NaN counts as [+0]; for a comparison function
    that orders its arguments consistently the result is then determined,
    whatever algorithm the engine runs.  It is computed here by insertion,
    an element going before the first one it is not greater than. *)
Module JsArray.
Import Js.
Section Sort.
Context {T : Type} (compareFn : T -> T -> number).

Definition comes_after (a b : T) : bool := gt (compareFn a b) (ofZ 0).

Fixpoint insert (x : T) (sorted : list T) : list T :=
  match sorted with
  | [] => [x]
  | y :: rest =>
      if comes_after x y then y :: insert x rest else x :: sorted
  end.

Fixpoint sort (l : list T) : list T :=
  match l with
  | [] => []
  | x :: rest => insert x (sort rest)
  end.
End Sort.
End JsArray.

Module Tools.
Import Js Errors Client Mappers.

Definition DEFAULT_COURSE_LIMIT : Z := 20.

Definition TERM_ORDER : list (string * Z) :=
  [ ("winter", 1);
    ("spring", 2);
    ("summer", 3);
    ("fall", 4);
    ("autumn", 4);
    ("fall-winter", 5) ].

Definition is_digit (c : ascii) : bool :=
  let n := nat_of_ascii c in (Nat.leb 48 n && Nat.leb n 57)%bool.

Definition digit_value (c : ascii) : Z := Z.of_nat (nat_of_ascii c) - 48.

(** [value.match(YEAR_REGEX)] with [YEAR_REGEX = /(20\d{2})/], then
    [Number(match[0])]: the first place where [20] and two digits stand. *)
Fixpoint match_year (value : string) : option Z :=
  match value with
  | String "2" (String "0" (String d1 (String d2 _)) as rest) =>
      if is_digit d1 && is_digit d2
      then Some (2000 + 10 * digit_value d1 + digit_value d2)
      else match_year rest
  | String _ rest => match_year rest
  | EmptyString => None
  end.

Definition extractYear (value : option string) : option Z :=
  match value with
  | None => None
  | Some v => if negb (truthy_str v) then None else match_year v
  end.

Definition extractCourseYear (course : Course) : option Z :=
  match extractYear (Some (term course)) with
  | Some termYear => Some termYear
  | None => extractYear (Some (course_code course))
  end.

Fixpoint first_keyword (lower : string) (table : list (string * Z))
  : option Z :=
  match table with
  | [] => None
  | (keyword, rank) :: rest =>
      if includes lower keyword then Some rank else first_keyword lower rest
  end.

Definition extractSeasonRank (value : option string) : option Z :=
  match value with
  | None => None
  | Some v =>
      if negb (truthy_str v) then None
      else first_keyword (toLowerCase v) TERM_ORDER
  end.

(** [courseRecencyInfo]: the year is [-Infinity] when none is found. *)
Definition courseRecencyInfo (course : Course) : number * Z :=
  let year :=
    match extractCourseYear course with
    | Some y => ofZ y
    | None => NegInf
    end in
  let season :=
    match extractSeasonRank (Some (term course)) with
    | Some r => r
    | None =>
        match extractSeasonRank (Some (course_code course)) with
        | Some r => r
        | None => 0
        end
    end in
  (year, season).

Section WithHost.
Context `{host : Host}.

Definition isWithinRange (isoDate : option string) (start end_ : Z) : bool :=
  match isoDate with
  | None => false
  | Some iso =>
      if negb (truthy_str iso) then false
      else
        let timestamp := Date_parse iso in
        if isNaN timestamp then false
        else ge timestamp (ofZ start) && ge (ofZ end_) timestamp
  end.

(** The comparison function of the final [sort]. *)
Definition dueTime (a : Assignment) : number :=
  match due_at a with
  | Some d => if truthy_str d then Date_parse d else PosInf
  | None => PosInf
  end.

Definition compareDue (a b : Assignment) : number :=
  let aTime := dueTime a in
  let bTime := dueTime b in
  sub aTime bTime.

(** The state the handler of [list_upcoming] builds up. *)
Record Upcoming : Type := mkUpcoming {
  upcomingMap : JsMap.t Assignment;
  metaRequestIds : list string;
  metaStatuses : list Z
}.

(** A [log('warn', ...)] entry: the course that was skipped. *)
Record Warning : Type := mkWarning { skipped_course_id : Z }.

(** The request ids and the status of one [getAll] result go to the
    metadata. *)
Definition push_meta {T : Type} (r : CanvasResult T) (st : Upcoming)
  : Upcoming :=
  let ids :=
    match requestIds r with
    | Some ids => (metaRequestIds st ++ ids)%list
    | None =>
        match requestId r with
        | Some id => if truthy_str id then (metaRequestIds st ++ [id])%list
                     else metaRequestIds st
        | None => metaRequestIds st
        end
    end in
  mkUpcoming (upcomingMap st) ids (metaStatuses st ++ [status r])%list.

(** The to-do item as an assignment, with the fall-backs of the item. *)
Definition todo_as_assignment (item : CanvasTodoItem) (a : CanvasAssignment)
  : CanvasAssignment :=
  mkCanvasAssignment (a_id a)
    (Some (match a_course_id a with
           | Some c => c
           | None => default 0 (todo_course_id item)
           end))
    (a_name a) (a_due_at a) (a_points_possible a)
    (Some (match a_html_url a with
           | Some u => u
           | None => default "" (todo_html_url item)
           end))
    (a_submission a).

(** The body of [for (const todo of todoResult.data)]. *)
Definition todo_step (now rangeEnd : Z) (m : JsMap.t Assignment)
    (item : CanvasTodoItem) : JsMap.t Assignment :=
  match todo_assignment item with
  | None => m
  | Some a =>
      let assignment := todo_as_assignment item a in
      if negb (isWithinRange (a_due_at assignment) now rangeEnd) then m
      else
        let mapped := mapUpcomingFromAssignment assignment todo in
        JsMap.set m (item_id mapped) mapped
  end.

(** The body of [for (const assignment of assignmentsResult.data)]. *)
Definition assignment_step (now rangeEnd : Z) (course : CanvasCourse)
    (m : JsMap.t Assignment) (a : CanvasAssignment) : JsMap.t Assignment :=
  let dueAt := a_due_at a in
  if truthy_ostr dueAt && negb (isWithinRange dueAt now rangeEnd) then m
  else
    let mapped :=
      mapUpcomingFromAssignment
        (mkCanvasAssignment (a_id a)
           (Some (default (raw_id course) (a_course_id a)))
           (a_name a) (a_due_at a) (a_points_possible a) (a_html_url a)
           (a_submission a))
        assignment in
    if negb (JsMap.has m (item_id mapped))
    then JsMap.set m (item_id mapped) mapped
    else m.

(** The calls of [deps.canvas.getAll] for the assignments of a course:
    the answer to the call made for the [index]-th course of the list. *)
Definition AssignmentsCall : Type :=
  nat -> CanvasCourse -> Result JsError (CanvasResult (list CanvasAssignment)).

(** [for (const course of coursesResult.data)], from the [index]-th
    course on. *)
Fixpoint courses_loop (getAssignments : AssignmentsCall) (now rangeEnd : Z)
    (index : nat) (courses : list CanvasCourse) (st : Upcoming)
    (warnings : list Warning) : Result JsError Upcoming * list Warning :=
  match courses with
  | [] => (Ok st, warnings)
  | course :: rest =>
      match getAssignments index course with
      | Throw error =>
          match error with
          | EApp e =>
              if ErrorCode_eqb (code e) AUTHORIZATION_FAILED then
                courses_loop getAssignments now rangeEnd (S index) rest st
                  (warnings ++ [mkWarning (raw_id course)])%list
              else (Throw error, warnings)
          | EError _ => (Throw error, warnings)
          end
      | Ok assignmentsResult =>
          let st := push_meta assignmentsResult st in
          let m :=
            fold_left (assignment_step now rangeEnd course)
              (data assignmentsResult) (upcomingMap st) in
          courses_loop getAssignments now rangeEnd (S index) rest
            (mkUpcoming m (metaRequestIds st) (metaStatuses st)) warnings
      end
  end.

(** [listUpcomingOutputSchema.parse]: every item needs a course id and a
    link; the other fields have their type already. *)
Definition upcomingItemSchema_ok (item : Assignment) : bool :=
  match item_course_id item, html_url item, source item with
  | Some _, Some _, Some _ => true
  | _, _, _ => false
  end.

Record ToolMeta : Type := mkToolMeta {
  meta_status : option Z;
  meta_requestId : option string;
  meta_requestIds : list string
}.

Definition sort_upcoming (m : JsMap.t Assignment) : list Assignment :=
  JsArray.sort compareDue (JsMap.values m).

(** The handler that [registerListUpcoming] registers for the tool
    [list_upcoming]: [now] is the reading of the clock,
    the three other arguments are the answers of [deps.canvas.getAll]
    (the records cast to their declared types). *)
Definition list_upcoming (days : option Z) (now : Z)
    (todoCall : Result JsError (CanvasResult (list CanvasTodoItem)))
    (coursesCall : Result JsError (CanvasResult (list CanvasCourse)))
    (getAssignments : AssignmentsCall)
  : Result JsError (list Assignment * ToolMeta) * list Warning :=
  let rangeDays := default 7 days in
  let rangeEnd := now + rangeDays * 24 * 60 * 60 * 1000 in
  match todoCall with
  | Throw e => (Throw e, [])
  | Ok todoResult =>
      let st := push_meta todoResult (mkUpcoming JsMap.empty [] []) in
      let st :=
        mkUpcoming (fold_left (todo_step now rangeEnd) (data todoResult)
                      (upcomingMap st))
          (metaRequestIds st) (metaStatuses st) in
      match coursesCall with
      | Throw e => (Throw e, [])
      | Ok coursesResult =>
          let st := push_meta coursesResult st in
          match courses_loop getAssignments now rangeEnd 0
                  (data coursesResult) st [] with
          | (Throw e, warnings) => (Throw e, warnings)
          | (Ok st, warnings) =>
              let upcoming := sort_upcoming (upcomingMap st) in
              if forallb upcomingItemSchema_ok upcoming then
                (Ok (upcoming,
                     mkToolMeta (at_last (metaStatuses st))
                       (at_last (metaRequestIds st)) (metaRequestIds st)),
                 warnings)
              else (Throw (EError "ZodError"), warnings)
          end
      end
  end.
End WithHost.

End Tools.

(* ===================================================================== *)
(** ** A concrete host, for running the definitions                       *)
(* ===================================================================== *)

(** [Number] on optionally signed decimal integers and [Date.parse] on a
    few ISO instants: what the real host returns on these strings, NaN
    elsewhere.  Addresses are plain strings with their query appended. *)
Module SampleHost.
Import Js.

Fixpoint decimal (s : string) (acc : Z) : option Z :=
  match s with
  | EmptyString => Some acc
  | String c rest =>
      if Tools.is_digit c then decimal rest (10 * acc + Tools.digit_value c)
      else None
  end.

Definition sample_Number (s : string) : number :=
  match s with
  | EmptyString => ofZ 0
  | String "-" (String c rest) =>
      match decimal (String c rest) 0 with
      | Some n => ofZ (- n)
      | None => NaN
      end
  | _ => match decimal s 0 with Some n => ofZ n | None => NaN end
  end.

Definition sample_dates : list (string * Z) :=
  [ ("1970-01-01T00:00:00.000Z", 0);
    ("1970-01-01T00:00:01.000Z", 1000);
    ("1970-01-01T00:00:02.000Z", 2000);
    ("1970-01-01T00:00:05.000Z", 5000);
    ("1970-01-02T00:00:00.000Z", 86400000);
    ("1970-01-08T00:00:00.000Z", 604800000);
    ("1970-01-08T00:00:00.001Z", 604800001);
    ("Thu, 01 Jan 1970 00:00:05 GMT", 5000) ].

Fixpoint lookup_date (s : string) (table : list (string * Z)) : number :=
  match table with
  | [] => NaN
  | (iso, ms) :: rest => if String.eqb iso s then ofZ ms else lookup_date s rest
  end.

Definition sample_Date_parse (s : string) : number := lookup_date s sample_dates.

Definition sample : Host := {|
  Number_ := sample_Number;
  Date_parse := sample_Date_parse;
  URL := string;
  new_URL := fun s base =>
    if truthy_str s then Some (default "" base ++ s)%string else None;
  searchParams_append := fun url k v => (url ++ "&" ++ k ++ "=" ++ v)%string;
  searchParams_set := fun url k v => (url ++ "&" ++ k ++ "=" ++ v)%string
|}.
(** A client built with the defaults, as [index.ts] builds it, over a
    personal access token. *)
Definition sample_options : Client.CanvasClientOptions :=
  Client.mkOptions "https://canvas.example.com" (Some "test-pat")
    None None None None None None.

Definition sample_client : Client.CanvasClient :=
  Client.mkCanvasClient "https://canvas.example.com" 3 100.

Definition sample_pat : Auth.PersonalAccessTokenAuth := Auth.mkPAT "test-pat".

(** Answers of the upstream: a first page that links to a second one, a
    last page, a page without a request id, and a 503. *)
Definition next_link (url : string) : string :=
  ("<" ++ url ++ ">; rel=" ++ String Client.dquote ("next" ++ String Client.dquote "")).

Definition page_one : Client.Response :=
  Client.mkResponse 200 (Some "req-1") None
    (Some (next_link "https://canvas.example.com/api/v1/courses?page=2"))
    (Some "application/json")
    (Client.BodyJson (JArr [JNum (ofZ 1); JNum (ofZ 2)])).

Definition page_two : Client.Response :=
  Client.mkResponse 200 (Some "req-2") None None (Some "application/json")
    (Client.BodyJson (JArr [JNum (ofZ 3)])).

Definition page_without_id : Client.Response :=
  Client.mkResponse 200 None None None (Some "application/json")
    (Client.BodyJson (JArr [JNum (ofZ 1)])).

Definition busy : Client.Response :=
  Client.mkResponse 503 (Some "req-busy") None None None Client.BodyEmpty.

Definition answer (r : Client.Response) : Client.FetchEvent :=
  Client.mkFetchEvent (Client.FetchResponds r) 0 (1 # 2).

(** Two feeds of upcoming work, read at instant 0 with the default
    horizon of 7 days.  The to-do feed has assignment 5 (due after one
    day) and assignment 7 (no due date); the first course has 5, 7 and 8
    (due after 5 s), the second course cannot be read, the third has 9
    (due 1 ms after the end of the range). *)
Definition raw_assignment (id : Z) (due : option string) : Mappers.CanvasAssignment :=
  Mappers.mkCanvasAssignment id None "Work" due None
    (Some "https://canvas.example.com/a") None.

Definition sample_todos : list Mappers.CanvasTodoItem :=
  [ Mappers.mkCanvasTodoItem "submitting"
      (Some (raw_assignment 5 (Some "1970-01-02T00:00:00.000Z"))) None (Some 1);
    Mappers.mkCanvasTodoItem "submitting"
      (Some (raw_assignment 7 None)) None (Some 1) ].

Definition sample_courses : list Mappers.CanvasCourse :=
  [ Mappers.mkCanvasCourse 1 (Some "Algebra") (Some "MAT-1") None;
    Mappers.mkCanvasCourse 2 (Some "Biology") (Some "BIO-2") None;
    Mappers.mkCanvasCourse 3 (Some "Chemistry") (Some "CHE-3") None ].

Definition answered {T : Type} (records : list T) (id : string)
  : Result Errors.JsError (Client.CanvasResult (list T)) :=
  Ok (Client.mkCanvasResult records 200 (Some id) (Some [id])).

Definition sample_assignments : Tools.AssignmentsCall :=
  fun index _ =>
    match index with
    | 0%nat =>
        answered [ raw_assignment 5 (Some "1970-01-02T00:00:00.000Z");
                   raw_assignment 7 None;
                   raw_assignment 8 (Some "1970-01-01T00:00:05.000Z") ] "req-c1"
    | 1%nat =>
        Throw (Errors.EApp (Errors.canvasError 403 (Some "req-c2") None None))
    | _ =>
        answered [ raw_assignment 9 (Some "1970-01-08T00:00:00.001Z") ] "req-c3"
    end.

(** The same calls, with the second course failing on the server side. *)
Definition sample_assignments_500 : Tools.AssignmentsCall :=
  fun index course =>
    match index with
    | 1%nat =>
        Throw (Errors.EApp (Errors.canvasError 500 (Some "req-c2") None None))
    | _ => sample_assignments index course
    end.

Definition upcoming_item (id : Z) (due : option string) (source : Mappers.Source)
  : Mappers.Assignment :=
  Mappers.mkAssignment id (Some 1) "Work" due None
    (Some "https://canvas.example.com/a") Mappers.unsubmitted (Some source).

(** What the handler returns on these feeds: 8 from the first course, 5
    from the to-do feed, 7 from the first course; the second course is
    skipped, and 9 is out of range. *)
Definition sample_upcoming : list Mappers.Assignment :=
  [ upcoming_item 8 (Some "1970-01-01T00:00:05.000Z") Mappers.assignment;
    upcoming_item 5 (Some "1970-01-02T00:00:00.000Z") Mappers.todo;
    upcoming_item 7 None Mappers.assignment ].

Definition sample_meta : Tools.ToolMeta :=
  Tools.mkToolMeta (Some 200) (Some "req-c3")
    ["req-t"; "req-c"; "req-c1"; "req-c3"].

End SampleHost.

(* ===================================================================== *)
(** ** Notions the properties are stated with                             *)
(* ===================================================================== *)

Module Notions.
Import Js.

(** A string made of white space only (the empty string is one). *)
Fixpoint all_space (s : string) : bool :=
  match s with
  | EmptyString => true
  | String c rest => is_space c && all_space rest
  end.


(** The lifetime reported by a token response is missing, not finite, or
    zero. *)
Definition lifetime_unknown (expires_in : option number) : bool :=
  match expires_in with
  | None => true
  | Some (Fin q) => Qeq_bool q 0
  | Some _ => true
  end.

(** Successive calls of [getAuthorizationHeader] at the given readings of
    the clock: the headers handed out, then the strategy and what is left
    of the answers of the token endpoint. [None] when a call does not
    return a header. *)
Fixpoint authorize_each (self : Auth.OAuthTokenAuth) (clock : list Z)
    (endpoint : list Auth.TokenEvent)
  : option (list string * Auth.OAuthTokenAuth * list Auth.TokenEvent) :=
  match clock with
  | [] => Some ([], self, endpoint)
  | now :: clock' =>
      match Auth.oauth_getAuthorizationHeader self now endpoint with
      | Some (Ok header, self', endpoint', _) =>
          match authorize_each self' clock' endpoint' with
          | Some (headers, self'', endpoint'') =>
              Some (header :: headers, self'', endpoint'')
          | None => None
          end
      | _ => None
      end
  end.

(** The physical requests among the effects of the client: the address
    and the attempt number of each, in order. *)
Fixpoint requests_of `{host : Host} (eff : list Client.ClientEffect)
  : list (URL * nat) :=
  match eff with
  | [] => []
  | Client.Request url attempt _ :: rest => (url, attempt) :: requests_of rest
  | Client.Sleep _ :: rest => requests_of rest
  end.

(** The requests of one logical request that took [n] physical ones:
    attempts [from], [from + 1], ... at the same address. *)
Definition numbered `{host : Host} (url : URL) (from n : nat) : list (URL * nat) :=
  map (fun i => (url, i)) (seq from n).

(** The records of a page, and the request id it carries (an empty header
    counts as none). *)
Definition page_records (page : Client.Response) : list JSON :=
  match Client.body page with
  | Client.BodyJson (JArr records) => records
  | _ => []
  end.

Definition page_request_id (page : Client.Response) : option string :=
  match Client.x_request_id page with
  | Some id => if truthy_str id then Some id else None
  | None => None
  end.

(** The requests of a drain, one block per logical request: the address
    and the number of physical requests it took, each block numbered
    from 0. *)
Definition blocks_requests `{host : Host} (blocks : list (URL * nat))
  : list (URL * nat) :=
  flat_map (fun b => numbered (fst b) 0 (snd b)) blocks.

Definition blocks_total `{host : Host} (blocks : list (URL * nat)) : nat :=
  list_sum (map snd blocks).

(** A page the loop of [getAll] accepts: a 2xx answer with a JSON array. *)
Definition page_accepted (page : Client.Response) : bool :=
  Client.resp_ok page
  && match Client.body page with
     | Client.BodyJson (JArr _) => true
     | _ => false
     end.

(** The response an answer of the network carries, if any. *)
Definition response_of (ev : Client.FetchEvent) : option Client.Response :=
  match Client.ev_outcome ev with
  | Client.FetchResponds r => Some r
  | Client.FetchFails _ => None
  end.

(** The blocks are logical requests of their own: each is a call of
    [fetchWithRetry] with the attempt number 0, on what the blocks before
    it left of the network. *)
Fixpoint block_runs `{host : Host} {A : Type} `{auth : !Auth.CanvasAuthStrategy A}
    (self : Client.CanvasClient) (blocks : list (URL * nat))
    (net : list Client.FetchEvent) : Prop :=
  match blocks with
  | [] => True
  | block :: rest =>
      (exists (auth0 auth1 : A) r eff,
         Client.fetchWithRetry self (fst block) 0 auth0 net
         = Some (r, auth1, drop (snd block) net, eff)
         /\ requests_of eff = numbered (fst block) 0 (snd block))
      /\ block_runs self rest (drop (snd block) net)
  end.

(** What a run [d] of the loop of [getAll] has done, started on the
    network [net] with the accumulators [results], [ids], [status], [eff]
    and [seen]: its requests come in [blocks] numbered from 0, one block
    per logical request, each a call of [fetchWithRetry] from attempt 0,
    and none longer than one plus the retries; the
    pages it folded are answers of the network, in the order of the
    answers; and when it returns a result, every logical request gave a
    page, and the result holds the records of the pages in order and the
    request ids the pages carry. *)
Definition drained `{host : Host} {A : Type} `{auth : !Auth.CanvasAuthStrategy A}
    (self : Client.CanvasClient) (net : list Client.FetchEvent)
    (results : list JSON) (ids : list string) (status : Z)
    (eff : list Client.ClientEffect) (seen : list Client.Response)
    (d : Client.Drained (A := A)) : Prop :=
  exists (blocks : list (URL * nat)) (new_pages : list Client.Response),
    block_runs self blocks net
    /\ requests_of (Client.effects d)
       = (requests_of eff ++ blocks_requests blocks)%list
    /\ Forall (fun b => (snd b <= S (Client.maxRetries self))%nat) blocks
    /\ Client.net_after d = drop (blocks_total blocks) net
    /\ (blocks_total blocks <= length net)%nat
    /\ Client.pages d = (seen ++ new_pages)%list
    /\ sublist new_pages (omap response_of (take (blocks_total blocks) net))
    /\ (length new_pages <= length blocks)%nat
    /\ (forall res, Client.outcome d = Ok res ->
          length blocks = length new_pages
          /\ Forall (fun b => (1 <= snd b)%nat) blocks
          /\ forallb page_accepted new_pages = true
          /\ Client.data res = (results ++ flat_map page_records new_pages)%list
          /\ default [] (Client.requestIds res)
             = (ids ++ omap page_request_id new_pages)%list
          /\ Client.requestId res
             = Client.at_last (ids ++ omap page_request_id new_pages)%list
          /\ Client.status res
             = List.last (map Client.resp_status new_pages) status).

(** An answer of the network that calls for a retry: a transport failure,
    a 429 or a 5xx. *)
Definition retryable (ev : Client.FetchEvent) : bool :=
  match Client.ev_outcome ev with
  | Client.FetchFails _ => true
  | Client.FetchResponds r => Client.shouldRetry (Client.resp_status r)
  end.

(** A strategy that always answers, as both strategies of the sources do
    while their environment has answers left. *)
Definition auth_answers (A : Type) `{auth : !Auth.CanvasAuthStrategy A} : Prop :=
  (forall a : A, is_Some (Auth.getAuthorizationHeader a))
  /\ (forall a : A, is_Some (Auth.handleUnauthorized a)).

(** An error of the kind [AUTHORIZATION_FAILED], as the loop over the
    courses tests it. *)
Definition is_authorization_failure (e : Errors.JsError) : bool :=
  match e with
  | Errors.EApp a => Errors.ErrorCode_eqb (Errors.code a) Errors.AUTHORIZATION_FAILED
  | Errors.EError _ => false
  end.

(** The calls for the assignments when the course at position [k] is not
    in the list: the later courses move up by one. *)
Definition without_call (k : nat) (getAssignments : Tools.AssignmentsCall)
  : Tools.AssignmentsCall :=
  fun j course =>
    if (j <? k)%nat then getAssignments j course else getAssignments (S j) course.

(** The call for a course does not stop the loop: it answers, or fails
    with an authorization failure. *)
Definition tolerated (getAssignments : Tools.AssignmentsCall) (j : nat)
    (course : Mappers.CanvasCourse) : bool :=
  match getAssignments j course with
  | Ok _ => true
  | Throw e => is_authorization_failure e
  end.

(** The same answer of [getAll] with other records. *)
Definition with_data {T : Type} (r : Client.CanvasResult (list T))
    (records : list T) : Client.CanvasResult (list T) :=
  Client.mkCanvasResult records (Client.status r) (Client.requestId r)
    (Client.requestIds r).

(** The entry the to-do loop makes of an item, if it keeps it; and the
    entries it makes of a feed, in the order of the feed. *)
Definition todo_entry `{host : Host} (now rangeEnd : Z)
    (item : Mappers.CanvasTodoItem) : option Mappers.Assignment :=
  match Mappers.todo_assignment item with
  | None => None
  | Some a =>
      let assignment := Tools.todo_as_assignment item a in
      if Tools.isWithinRange (Mappers.a_due_at assignment) now rangeEnd
      then Some (Mappers.mapUpcomingFromAssignment assignment Mappers.todo)
      else None
  end.

Definition todo_entries `{host : Host} (now rangeEnd : Z)
    (items : list Mappers.CanvasTodoItem) : list Mappers.Assignment :=
  omap (todo_entry now rangeEnd) items.

(** The entry the loop over the assignments of a course makes of an
    assignment, if it passes the filter on the due date. *)
Definition assignment_entry `{host : Host} (now rangeEnd : Z)
    (course : Mappers.CanvasCourse) (a : Mappers.CanvasAssignment)
  : option Mappers.Assignment :=
  if truthy_ostr (Mappers.a_due_at a)
     && negb (Tools.isWithinRange (Mappers.a_due_at a) now rangeEnd)
  then None
  else Some (Mappers.mapUpcomingFromAssignment
               (Mappers.mkCanvasAssignment (Mappers.a_id a)
                  (Some (default (Mappers.raw_id course) (Mappers.a_course_id a)))
                  (Mappers.a_name a) (Mappers.a_due_at a)
                  (Mappers.a_points_possible a) (Mappers.a_html_url a)
                  (Mappers.a_submission a))
               Mappers.assignment).

(** The entries of the assignment feeds, in the order the loop over the
    courses meets them; a course whose call fails contributes none. *)
Fixpoint assignment_entries `{host : Host} (getAssignments : Tools.AssignmentsCall)
    (now rangeEnd : Z) (index : nat) (courses : list Mappers.CanvasCourse)
  : list Mappers.Assignment :=
  match courses with
  | [] => []
  | course :: rest =>
      (match getAssignments index course with
       | Ok r => omap (assignment_entry now rangeEnd course) (Client.data r)
       | Throw _ => []
       end ++ assignment_entries getAssignments now rangeEnd (S index) rest)%list
  end.

(** [upcomingMap.set(e.id, e)], and the same guarded by [!has(e.id)]. *)
Definition put (m : JsMap.t Mappers.Assignment) (e : Mappers.Assignment)
  : JsMap.t Mappers.Assignment :=
  JsMap.set m (Mappers.item_id e) e.

Definition put_if_absent (m : JsMap.t Mappers.Assignment) (e : Mappers.Assignment)
  : JsMap.t Mappers.Assignment :=
  if JsMap.has m (Mappers.item_id e) then m else put m e.

(** The last entry of a list with a given id. *)
Definition last_with_id (k : Z) (l : list Mappers.Assignment)
  : option Mappers.Assignment :=
  List.find (fun e => Mappers.item_id e =? k) (rev l).

(** The entries of a list with a given id. *)
Definition with_id (k : Z) (l : list Mappers.Assignment) : list Mappers.Assignment :=
  List.filter (fun e => Mappers.item_id e =? k) l.

(** Due times and their order.  A due time that occurs in the map is a
    finite instant or, for an entry without a date, [+Infinity]; on these
    [due_le] is the order of the instants with [+Infinity] on top. *)
Definition dated (t : number) : bool :=
  match t with
  | Fin _ | PosInf => true
  | _ => false
  end.

Definition due_le (s t : number) : bool :=
  match s, t with
  | Fin a, Fin b => Qle_bool a b
  | Fin _, PosInf | PosInf, PosInf => true
  | _, _ => false
  end.

Definition due_eq (s t : number) : bool := due_le s t && due_le t s.

(** A list in ascending order of the keys of its elements. *)
Definition sorted_by_key {T : Type} (key : T -> number) (l : list T) : Prop :=
  StronglySorted (fun a b => due_le (key a) (key b) = true) l.

(** The entries of a list that bring an id not seen before, in order. *)
Definition seen_id (k : Z) (seen : list Z) : bool :=
  existsb (fun k' => k' =? k) seen.

Fixpoint fresh (seen : list Z) (l : list Mappers.Assignment)
  : list Mappers.Assignment :=
  match l with
  | [] => []
  | e :: rest =>
      if seen_id (Mappers.item_id e) seen then fresh seen rest
      else e :: fresh (seen ++ [Mappers.item_id e]) rest
  end.

(** The map once both loops are over: the entries of the to-do feed, then
    those of the assignment feeds. *)
Definition merged (todos assignments : list Mappers.Assignment)
  : JsMap.t Mappers.Assignment :=
  fold_left put_if_absent assignments (fold_left put todos JsMap.empty).

(** Every entry of the map sits under its own id. *)
Definition keyed (m : JsMap.t Mappers.Assignment) : Prop :=
  Forall (fun kv => fst kv = Mappers.item_id (snd kv)) m.

(** The end of the range: [now] plus the horizon, in milliseconds. *)
Definition range_end (days : option Z) (now : Z) : Z :=
  now + default 7 days * 24 * 60 * 60 * 1000.

End Notions.

(* ===================================================================== *)
(** ** mcp/tools.ts: the course list                                      *)
(* ===================================================================== *)

Module Courses.
Import Js Errors Client Mappers Tools.

(** [x === y] on numbers. *)
Definition strict_eq (x y : number) : bool :=
  match x, y with
  | Fin a, Fin b => Qeq_bool a b
  | PosInf, PosInf | NegInf, NegInf => true
  | _, _ => false
  end.

(** [array.slice(0, end)] for an integral [end]; a negative [end] counts
    from the end of the array. *)
Definition slice0 {T : Type} (l : list T) (end_ : Z) : list T :=
  if end_ <? 0 then take (Z.to_nat (Z.of_nat (length l) + end_)) l
  else take (Z.to_nat end_) l.

(** The metadata a handler hands back from a single [getAll]. *)
Record CallMeta : Type := mkCallMeta {
  call_status : Z;
  call_requestId : option string;
  call_requestIds : option (list string)
}.

Section WithLocale.
(** [String.prototype.localeCompare] of the host. *)
Context (localeCompare : string -> string -> number).

(** The comparison function of [sortCoursesByRecency]. *)
Definition compareRecency (a b : Course) : number :=
  let aInfo := courseRecencyInfo a in
  let bInfo := courseRecencyInfo b in
  if negb (strict_eq (fst aInfo) (fst bInfo)) then sub (fst bInfo) (fst aInfo)
  else if negb (snd aInfo =? snd bInfo) then ofZ (snd bInfo - snd aInfo)
  else localeCompare (name a) (name b).

Definition sortCoursesByRecency (courses : list Course) : list Course :=
  JsArray.sort compareRecency courses.

(** [filterRecentCourses]; [currentYear] is [new Date().getFullYear()]. *)
Definition filterRecentCourses (currentYear : Z) (courses : list Course)
  : list Course :=
  let minYear := currentYear - 1 in
  List.filter
    (fun course =>
       match extractCourseYear course with
       | None => true
       | Some year => year >=? minYear
       end)
    courses.

(** The handler that [registerListCourses] registers for [list_courses];
    [coursesCall] is the answer of [deps.canvas.getAll] (the argument
    [enrollment_state] only shapes the query of that call).  Every mapped
    course has the four fields of [courseSchema], so the final [parse]
    accepts. *)
Definition list_courses (include_past : option bool) (limit : option Z)
    (currentYear : Z)
    (coursesCall : Result JsError (CanvasResult (list CanvasCourse)))
  : Result JsError (list Course * CallMeta) :=
  match coursesCall with
  | Throw e => Throw e
  | Ok result =>
      let includePast := default false include_past in
      let limit := default DEFAULT_COURSE_LIMIT limit in
      let courses := map mapCourse (data result) in
      let courses := sortCoursesByRecency courses in
      let courses :=
        if negb includePast then filterRecentCourses currentYear courses
        else courses in
      let courses :=
        if negb (limit =? 0) then slice0 courses limit else courses in
      Ok (courses,
          mkCallMeta (status result) (requestId result) (requestIds result))
  end.
End WithLocale.

End Courses.

(* ===================================================================== *)
(** ** mcp/mappers.ts, mcp/tools.ts: announcements                        *)
(* ===================================================================== *)

Module Announcements.
Import Js Errors Client Mappers Tools.

Record CanvasAnnouncement : Type := mkCanvasAnnouncement {
  an_id : Z;
  an_title : string;
  an_message : string;
  an_posted_at : string;
  an_html_url : string;
  an_context_code : option string;
  an_course_id : option number
}.

Record Announcement : Type := mkAnnouncement {
  ann_id : Z;
  ann_course_id : number;
  ann_title : string;
  ann_posted_at : string;
  ann_html_url : string
}.

(** The calls of [deps.canvas.getAll] for the announcements: the answer
    to the call made with these context codes and this [start_date]. *)
Definition AnnouncementsCall : Type :=
  list string -> option string ->
  Result JsError (CanvasResult (list CanvasAnnouncement)).

(** The context code the handler builds for a course. *)
Definition context_code (course_id : Z) : string :=
  ("course_" ++ string_of_Z course_id)%string.

Section WithHost.
Context `{host : Host}.

(** [ensureCourseId]: [fallback.split('_')[1]] is [undefined] when the
    string has no underscore, and [Number(undefined)] is NaN. *)
Definition ensureCourseId (id : option number) (fallback : option string)
  : number :=
  let from_fallback :=
    match fallback with
    | None => ofZ 0
    | Some f =>
        if negb (truthy_str f) then ofZ 0
        else
          match split_on "_"%char f with
          | _ :: courseId :: _ =>
              let parsed := Number_ courseId in
              if isFinite parsed then parsed else ofZ 0
          | _ => ofZ 0
          end
    end in
  match id with
  | Some n => if isFinite n then n else from_fallback
  | None => from_fallback
  end.

Definition mapAnnouncement (raw : CanvasAnnouncement) : Announcement :=
  mkAnnouncement (an_id raw)
    (ensureCourseId (an_course_id raw) (an_context_code raw))
    (an_title raw) (an_posted_at raw) (an_html_url raw).

(** The handler that [registerListAnnouncements] registers for
    [list_announcements].  [coursesCall] is the answer of the call for the
    active courses, made only when no course is named; the records of
    both answers are cast to their declared types, so the final [parse]
    accepts. *)
Definition list_announcements (course_id : option Z) (since : option string)
    (coursesCall : Result JsError (CanvasResult (list CanvasCourse)))
    (getAnnouncements : AnnouncementsCall)
  : Result JsError (list Announcement * ToolMeta) :=
  let named :=
    match course_id with
    | Some c => if negb (c =? 0) then Some c else None
    | None => None
    end in
  let gathered : Result JsError (list string * list string * list Z) :=
    match named with
    | Some c => Ok ([context_code c], [], [])
    | None =>
        match coursesCall with
        | Throw e => Throw e
        | Ok coursesResult =>
            let requestIds :=
              match requestIds coursesResult with
              | Some ids => ids
              | None =>
                  match requestId coursesResult with
                  | Some id => if truthy_str id then [id] else []
                  | None => []
                  end
              end in
            Ok (map (fun course => context_code (raw_id course))
                  (data coursesResult),
                requestIds, [status coursesResult])
        end
    end in
  match gathered with
  | Throw e => Throw e
  | Ok (contextCodes, requestIds, statuses) =>
      match contextCodes with
      | [] =>
          Throw (EApp (unknownError
                         "No accessible Canvas courses found for announcements."
                         None))
      | _ :: _ =>
          let start_date :=
            match since with
            | Some s => if truthy_str s then Some s else None
            | None => None
            end in
          match getAnnouncements contextCodes start_date with
          | Throw e => Throw e
          | Ok result =>
              let requestIds :=
                match requestId result with
                | Some id => if truthy_str id then (requestIds ++ [id])%list
                             else requestIds
                | None => requestIds
                end in
              let requestIds :=
                match Client.requestIds result with
                | Some announcementReqIds =>
                    (requestIds ++ announcementReqIds)%list
                | None => requestIds
                end in
              let statuses := (statuses ++ [status result])%list in
              Ok (map mapAnnouncement (data result),
                  mkToolMeta (at_last statuses) (at_last requestIds) requestIds)
          end
      end
  end.
End WithHost.

End Announcements.

(* ===================================================================== *)
(** ** mcp/server.ts: the bearer check                                    *)
(* ===================================================================== *)

Module Server.
Import Js.




End Server.

(* ===================================================================== *)
(** ** core/env.ts, index.ts: from the environment to the client          *)
(* ===================================================================== *)

Module Env.
Import Js Errors Auth Client.








End Env.

(* ===================================================================== *)
(** ** core/timezone.ts: the rendering of an offset                       *)
(* ===================================================================== *)

Module Timezone.
Import Js.

(** [value.toString().padStart(2, '0')] for an integer [value]. *)
Definition pad (value : Z) : string :=
  let text := string_of_Z value in
  match text with
  | EmptyString => "00"
  | String _ EmptyString => String "0" text
  | String _ (String _ _) => text
  end.

(** [formatOffset]; [offsetMinutes] is the result of [Math.round]. *)
Definition formatOffset (offsetMinutes : Z) : string :=
  let sign := if offsetMinutes >=? 0 then "+" else "-" in
  let absolute := Z.abs offsetMinutes in
  let hours := pad (absolute / 60) in
  let minutes := pad (absolute mod 60) in
  (sign ++ hours ++ ":" ++ minutes)%string.

End Timezone.

(* ===================================================================== *)
(** ** Further sample data                                                *)
(* ===================================================================== *)

Module MoreSamples.
Import Js.

(** A comparison of strings by code units, in the place of
    [localeCompare]. *)
Definition sample_localeCompare (a b : string) : number :=
  match String.compare a b with
  | Lt => ofZ (-1)
  | Eq => ofZ 0
  | Gt => ofZ 1
  end.

Definition not_found : Client.Response :=
  Client.mkResponse 404 (Some "req-404") None None (Some "application/json")
    (Client.BodyJson (JObj [("message", JStr "no such course")])).

Definition forbidden : Client.Response :=
  Client.mkResponse 401 (Some "req-401") None None None Client.BodyEmpty.

Definition failure (msg : string) : Client.FetchEvent :=
  Client.mkFetchEvent (Client.FetchFails msg) 0 (1 # 2).

Definition sample_oauth : Auth.OAuthTokenAuth :=
  Auth.mkOAuth (Some "tok-0") "https://canvas.example.com" "client" "secret"
    "r0" None.

Definition token_answer (access : string) (refresh : option string)
    (lifetime : option number) (now : Z) : Auth.TokenEvent :=
  Auth.mkTokenEvent
    (Auth.TokenHttp 200 (Some (Auth.mkTokenPayload (Some access) refresh lifetime)))
    now.

(** Four courses: of winter 2025, of fall 2024, without a term, and of
    spring 2019. *)
Definition dated_courses : list Mappers.CanvasCourse :=
  [ Mappers.mkCanvasCourse 1 (Some "Algebra") (Some "MAT-1")
      (Some (Mappers.mkCanvasTerm 11 (Some "Fall 2024")));
    Mappers.mkCanvasCourse 2 (Some "Biology") (Some "BIO-2")
      (Some (Mappers.mkCanvasTerm 12 (Some "Winter 2025")));
    Mappers.mkCanvasCourse 3 (Some "Chemistry") (Some "CHE-3") None;
    Mappers.mkCanvasCourse 4 (Some "Drama") (Some "DRA-4")
      (Some (Mappers.mkCanvasTerm 13 (Some "Spring 2019"))) ].

Definition biology : Mappers.Course :=
  Mappers.mkCourse 2 "Biology" "Winter 2025" "BIO-2".
Definition algebra : Mappers.Course :=
  Mappers.mkCourse 1 "Algebra" "Fall 2024" "MAT-1".
Definition chemistry : Mappers.Course :=
  Mappers.mkCourse 3 "Chemistry" "" "CHE-3".

(** Announcements of course 42: one with the course id, one with the
    context code only. *)
Definition sample_announcements : list Announcements.CanvasAnnouncement :=
  [ Announcements.mkCanvasAnnouncement 100 "Welcome" "Hello" "2025-01-06T09:00:00Z"
      "https://canvas.example.com/courses/42/discussion_topics/100"
      (Some "course_42") (Some (ofZ 42));
    Announcements.mkCanvasAnnouncement 101 "Exam" "Room 3" "2025-01-07T09:00:00Z"
      "https://canvas.example.com/courses/42/discussion_topics/101"
      (Some "course_42") None ].

Definition announcements_call : Announcements.AnnouncementsCall :=
  fun _ _ =>
    Ok (Client.mkCanvasResult sample_announcements 200 (Some "req-a2")
          (Some ["req-a1"; "req-a2"])).

(** What [list_upcoming] returns on the sample feeds with a horizon of 8
    days: assignment 9 of the third course is now in range. *)
Definition sample_upcoming_8_days : list Mappers.Assignment :=
  [ SampleHost.upcoming_item 8 (Some "1970-01-01T00:00:05.000Z") Mappers.assignment;
    SampleHost.upcoming_item 5 (Some "1970-01-02T00:00:00.000Z") Mappers.todo;
    Mappers.mkAssignment 9 (Some 3) "Work" (Some "1970-01-08T00:00:00.001Z") None
      (Some "https://canvas.example.com/a") Mappers.unsubmitted
      (Some Mappers.assignment);
    SampleHost.upcoming_item 7 None Mappers.assignment ].



End MoreSamples.

(* ===================================================================== *)
(** ** Further notions                                                    *)
(* ===================================================================== *)

Module MoreNotions.
Import Js.

(** The waits among the effects of the client, in order. *)
Fixpoint sleeps_of `{host : Host} (eff : list Client.ClientEffect)
  : list number :=
  match eff with
  | [] => []
  | Client.Request _ _ _ :: rest => sleeps_of rest
  | Client.Sleep ms :: rest => ms :: sleeps_of rest
  end.

(** An answer of the network without a [retry-after] header, handled
    while [Math.random()] returns a value of [[0, 1)]. *)
Definition plain (ev : Client.FetchEvent) : bool :=
  Qle_bool 0 (Client.ev_random ev)
  && negb (Qle_bool 1 (Client.ev_random ev))
  && match Client.ev_outcome ev with
     | Client.FetchResponds r =>
         match Client.retry_after r with Some _ => false | None => true end
     | Client.FetchFails _ => true
     end.

(** A wait of more than 0 and at most 5000 milliseconds. *)
Definition short_wait (ms : number) : bool :=
  match ms with
  | Fin q => negb (Qle_bool q 0) && Qle_bool q 5000
  | _ => false
  end.

(** The payload [parsePayload] makes of the body of a failed response. *)
Definition failure_payload (r : Client.Response) : JSON :=
  match Client.body r with
  | Client.BodyEmpty => JNull
  | Client.BodyJson j => j
  | Client.BodyText text => JStr text
  end.

(** The error [get] and [getAll] throw for a failed response. *)
Definition failure_of (r : Client.Response) : Errors.AppError :=
  Errors.canvasError (Client.resp_status r) (Client.x_request_id r)
    (Client.extractCanvasMessage (failure_payload r))
    (Some (failure_payload r)).

(** The error [getAll] throws for a 2xx page that is not a list: the
    body is not JSON, or it is JSON (or empty) but no array. *)
Definition page_error (r : Client.Response) : Errors.AppError :=
  match Client.body r with
  | Client.BodyText text =>
      Errors.unknownError "Canvas returned an unexpected payload format."
        (Some (JObj [("contentType", Client.header_json (Client.content_type r));
                     ("body", JStr text)]))
  | _ =>
      Errors.unknownError "Expected a list response from Canvas."
        (Some (failure_payload r))
  end.

(** What the last answer of an exhausted logical request turns into. *)
Definition last_outcome (ev : Client.FetchEvent)
  : Result Errors.JsError Client.Response :=
  match Client.ev_outcome ev with
  | Client.FetchFails msg => Throw (Errors.EError msg)
  | Client.FetchResponds r => Ok r
  end.

(** An exchange with the token endpoint that does not yield tokens. *)
Definition refresh_fails (ev : Auth.TokenEvent) : bool :=
  match Auth.tok_outcome ev with
  | Auth.TokenFetchFails _ => true
  | Auth.TokenHttp status body =>
      negb (Auth.response_ok status)
      || match body with Some _ => false | None => true end
  end.

(** An error that is no [AppError]. *)
Definition plain_error (e : Errors.JsError) : bool :=
  match e with
  | Errors.EError _ => true
  | Errors.EApp _ => false
  end.

(** An answer of the network with the status 401. *)
Definition unauthorized (ev : Client.FetchEvent) : bool :=
  match Client.ev_outcome ev with
  | Client.FetchResponds r => Client.resp_status r =? 401
  | Client.FetchFails _ => false
  end.

(** The [Authorization] headers of the physical requests, in order. *)
Fixpoint authorizations_of `{host : Host} (eff : list Client.ClientEffect)
  : list string :=
  match eff with
  | [] => []
  | Client.Request _ _ authorization :: rest =>
      authorization :: authorizations_of rest
  | Client.Sleep _ :: rest => authorizations_of rest
  end.

(** The token requests among the effects of the strategy. *)
Fixpoint token_requests (eff : list Auth.AuthEffect) : nat :=
  match eff with
  | [] => 0
  | Auth.TokenRequest _ _ _ :: rest => S (token_requests rest)
  | Auth.AuthSleep _ :: rest => token_requests rest
  end.

(** The request ids a result of [getAll] adds to the metadata of a
    handler, and those of the calls for the assignments that answer. *)
Definition result_ids {T : Type} (r : Client.CanvasResult T) : list string :=
  match Client.requestIds r with
  | Some ids => ids
  | None =>
      match Client.requestId r with
      | Some id => if truthy_str id then [id] else []
      | None => []
      end
  end.

Fixpoint answered_ids (getAssignments : Tools.AssignmentsCall) (index : nat)
    (courses : list Mappers.CanvasCourse) : list string :=
  match courses with
  | [] => []
  | course :: rest =>
      (match getAssignments index course with
       | Ok r => result_ids r
       | Throw _ => []
       end ++ answered_ids getAssignments (S index) rest)%list
  end.

(** The warnings for the courses whose call fails, in order. *)
Fixpoint skipped (getAssignments : Tools.AssignmentsCall) (index : nat)
    (courses : list Mappers.CanvasCourse) : list Tools.Warning :=
  match courses with
  | [] => []
  | course :: rest =>
      (match getAssignments index course with
       | Ok _ => []
       | Throw _ => [Tools.mkWarning (Mappers.raw_id course)]
       end ++ skipped getAssignments (S index) rest)%list
  end.

(** [getAuthorizationHeader] has to refresh before it can answer. *)
Definition refresh_due (self : Auth.OAuthTokenAuth) (now : Z) : bool :=
  Auth.shouldRefreshSoon self now || negb (truthy_ostr (Auth.accessToken self)).

(** A [Link] header in the form of RFC 8288, as the upstream writes it:
    [<url>; rel="name"] for each link, separated by a comma and a blank. *)
Fixpoint has_char (c : ascii) (s : string) : bool :=
  match s with
  | EmptyString => false
  | String d rest => Ascii.eqb d c || has_char c rest
  end.




(** The string [s] is one of the strings of the document [j]. *)
Fixpoint occurs (s : string) (j : JSON) : Prop :=
  match j with
  | JStr t => t = s
  | JArr items =>
      (fix any (l : list JSON) : Prop :=
         match l with
         | [] => False
         | x :: rest => occurs s x \/ any rest
         end) items
  | JObj props =>
      (fix any (l : list (string * JSON)) : Prop :=
         match l with
         | [] => False
         | (_, x) :: rest => occurs s x \/ any rest
         end) props
  | _ => False
  end.

(** A course id that is missing or not a finite number. *)
Definition no_number (id : option number) : bool :=
  match id with
  | Some n => negb (isFinite n)
  | None => true
  end.

(** The [start_date] the handler of [list_announcements] passes on. *)
Definition start_date_of (since : option string) : option string :=
  match since with
  | Some s => if truthy_str s then Some s else None
  | None => None
  end.

(** A course is at least as recent as another: a later year, or the same
    year (or no year on both sides) and a season that is not earlier.  A
    course without a year is less recent than any course with one. *)
Definition season_of (c : Mappers.Course) : Z := snd (Tools.courseRecencyInfo c).

Definition no_less_recent (a b : Mappers.Course) : bool :=
  match Tools.extractCourseYear a, Tools.extractCourseYear b with
  | Some ya, Some yb => (yb <? ya) || ((ya =? yb) && (season_of b <=? season_of a))
  | Some _, None => true
  | None, Some _ => false
  | None, None => season_of b <=? season_of a
  end.

(** A course the filter of [list_courses] keeps in the year [currentYear]. *)
Definition recent (currentYear : Z) (c : Mappers.Course) : bool :=
  match Tools.extractCourseYear c with
  | None => true
  | Some year => currentYear - 1 <=? year
  end.

(** The due instant of an entry lies in the range, ends included. *)
Definition due_within `{host : Host} (now rangeEnd : Z) (e : Mappers.Assignment)
  : Prop :=
  exists q, Tools.dueTime e = Fin q /\ (inject_Z now <= q <= inject_Z rangeEnd)%Q.

End MoreNotions.

(* ===================================================================== *)
(** * Properties                                                          *)
(* ===================================================================== *)

Section ErrorClassifierTable.
Import Errors.

Lemma STATUS_TO_CODE_lookup (status : Z) :
  STATUS_TO_CODE !! status =
    if status =? 400 then Some BAD_REQUEST
    else if status =? 401 then Some AUTHORIZATION_FAILED
    else if status =? 403 then Some AUTHORIZATION_FAILED
    else if status =? 404 then Some NOT_FOUND
    else if status =? 429 then Some RATE_LIMITED
    else None.
Proof.
  unfold STATUS_TO_CODE. cbn [list_to_map foldr uncurry fst snd].
  rewrite !lookup_insert, lookup_empty.
  repeat case_decide; subst; try reflexivity;
    repeat match goal with
           | |- context [status =? ?k] =>
               destruct (Z.eqb_spec status k); [lia|]
           end; reflexivity.
Qed.

End ErrorClassifierTable.

Section ErrorClassifierProps.
Import Errors.

(** The classifier never yields the kind [UNKNOWN]: a status outside its
    table gets the default kind. *)
Lemma canvasError_code (status : Z) requestId fallbackMessage details :
  code (canvasError status requestId fallbackMessage details) =
    default CANVAS_UNAVAILABLE (STATUS_TO_CODE !! status).
Proof. reflexivity. Qed.

(** C1, as stated, fails at status 418: it is none of 400, 401, 403, 404,
    429, it is below 500, and the classifier answers CANVAS_UNAVAILABLE,
    not UNKNOWN. *)
Lemma canvasError_teapot_not_unknown :
  (418 <> 400 /\ 418 <> 401 /\ 418 <> 403 /\ 418 <> 404 /\ 418 <> 429
   /\ ~ 418 >= 500)
  /\ code (canvasError 418 None None None) = CANVAS_UNAVAILABLE
  /\ code (canvasError 418 None None None) <> UNKNOWN.
Proof.
  split; [lia|]. split; [vm_compute; reflexivity|].
  vm_compute. discriminate.
Qed.

(** C1, amended: for every upstream status that is none of 400, 401, 403,
    404 and 429 -- below 500 (302, 418) as well as from 500 on -- the
    classifier returns the kind CANVAS_UNAVAILABLE, surfaced as status
    503, and keeps the upstream status in the error data; the kind is
    never UNKNOWN. *)
Theorem canvasError_outside_table (status : Z) requestId fallbackMessage details :
  status <> 400 -> status <> 401 -> status <> 403 ->
  status <> 404 -> status <> 429 ->
  let e := canvasError status requestId fallbackMessage details in
  code e = CANVAS_UNAVAILABLE
  /\ code e <> UNKNOWN
  /\ httpStatus e = 503
  /\ (canvasStatus <$> data e) = Some (Some status).
Proof.
  intros H0 H1 H3 H4 H9 e.
  assert (Hc : code e = CANVAS_UNAVAILABLE).
  { subst e. rewrite canvasError_code, STATUS_TO_CODE_lookup.
    repeat match goal with
           | |- context [status =? ?k] =>
               destruct (Z.eqb_spec status k); [lia|]
           end.
    reflexivity. }
  split; [exact Hc|]. split; [rewrite Hc; discriminate|].
  split; [|reflexivity].
  subst e. unfold canvasError in *. cbn [code httpStatus] in *.
  rewrite Hc. reflexivity.
Qed.

Lemma canvasError_outside_table_witness :
  (302 <> 400 /\ 302 <> 401 /\ 302 <> 403 /\ 302 <> 404 /\ 302 <> 429)
  /\ let e := canvasError 302 (Some "req-1") None None in
     code e = CANVAS_UNAVAILABLE
     /\ code e <> UNKNOWN
     /\ httpStatus e = 503
     /\ (canvasStatus <$> data e) = Some (Some 302).
Proof.
  split; [lia|].
  apply (canvasError_outside_table 302 (Some "req-1") None None); lia.
Defined.

(** Whatever the status, the classifier does not produce [UNKNOWN]; that
    kind comes from [unknownError] alone. *)
Lemma canvasError_never_unknown (status : Z) requestId fallbackMessage details :
  code (canvasError status requestId fallbackMessage details) <> UNKNOWN.
Proof.
  rewrite canvasError_code, STATUS_TO_CODE_lookup.
  repeat match goal with
         | |- context [status =? ?k] => destruct (status =? k)
         end; discriminate.
Qed.

Lemma unknownError_code message details :
  code (unknownError message details) = UNKNOWN.
Proof. reflexivity. Qed.

End ErrorClassifierProps.

(* ===================================================================== *)
(** ** Strings                                                            *)
(* ===================================================================== *)

Section StringFacts.
Import Js.

Lemma append_cons (c : ascii) (a b : string) :
  (String c a ++ b = String c (a ++ b))%string.
Proof. reflexivity. Qed.

Lemma append_nil (b : string) : ("" ++ b = b)%string.
Proof. reflexivity. Qed.

Lemma prefix_app (k s : string) :
  String.prefix k s = true <-> exists post, s = (k ++ post)%string.
Proof.
  revert s. induction k as [|c k IH]; intros s.
  - split; [intros _; exists s; reflexivity | destruct s; reflexivity].
  - destruct s as [|d s]; simpl.
    + split; [discriminate | intros [post H]; rewrite append_cons in H; discriminate].
    + destruct (Ascii.ascii_dec c d) as [->|Hne].
      * rewrite IH.
        split; intros [post H]; exists post; rewrite append_cons in *; congruence.
      * split; [discriminate | intros [post H]; rewrite append_cons in H; congruence].
Qed.

Lemma includes_nil (k : string) :
  includes "" k = if String.prefix k "" then true else false.
Proof. reflexivity. Qed.

Lemma includes_cons (c : ascii) (s k : string) :
  includes (String c s) k =
    if String.prefix k (String c s) then true else includes s k.
Proof. reflexivity. Qed.

Lemma includes_spec (s k : string) :
  includes s k = true <-> exists pre post, s = (pre ++ k ++ post)%string.
Proof.
  induction s as [|c s IH].
  - rewrite includes_nil. destruct (String.prefix k "") eqn:Hp.
    + apply prefix_app in Hp as [post Hp].
      split; [intros _; exists "", post; exact Hp | reflexivity].
    + split; [discriminate|]. intros (pre & post & H).
      destruct pre; [rewrite append_nil in H | rewrite append_cons in H; discriminate].
      assert (String.prefix k "" = true) by (apply prefix_app; eauto).
      congruence.
  - rewrite includes_cons. destruct (String.prefix k (String c s)) eqn:Hp.
    + apply prefix_app in Hp as [post Hp].
      split; [intros _; exists "", post; exact Hp | reflexivity].
    + rewrite IH. split.
      * intros (pre & post & ->). exists (String c pre), post. reflexivity.
      * intros (pre & post & H). destruct pre as [|d pre].
        -- rewrite append_nil in H.
           assert (String.prefix k (String c s) = true)
             by (apply prefix_app; eauto).
           congruence.
        -- rewrite append_cons in H. injection H as _ ->. eauto.
Qed.

Lemma string_app_assoc (a b c : string) :
  ((a ++ b) ++ c = a ++ (b ++ c))%string.
Proof. induction a; rewrite ?append_nil, ?append_cons; congruence. Qed.

(** A string that includes [a ++ b] includes [a] and includes [b]. *)
Lemma includes_app_l (s a b : string) :
  includes s (a ++ b) = true -> includes s a = true.
Proof.
  rewrite !includes_spec. intros (pre & post & ->).
  exists pre, (b ++ post)%string. now rewrite string_app_assoc.
Qed.

Lemma includes_app_r (s a b : string) :
  includes s (a ++ b) = true -> includes s b = true.
Proof.
  rewrite !includes_spec. intros (pre & post & ->).
  exists (pre ++ a)%string, post. now rewrite !string_app_assoc.
Qed.

End StringFacts.

(* ===================================================================== *)
(** ** Course recency keys                                                *)
(* ===================================================================== *)

Section SeasonRank.
Import Js Mappers Tools.

(** The table is scanned in order, and the first keyword found decides. *)
Lemma extractSeasonRank_scan (v : string) :
  v <> "" ->
  extractSeasonRank (Some v) = first_keyword (toLowerCase v) TERM_ORDER.
Proof. destruct v; [congruence | reflexivity]. Qed.

Lemma first_keyword_not_five (lower : string) :
  first_keyword lower TERM_ORDER <> Some 5.
Proof.
  unfold TERM_ORDER. cbn [first_keyword].
  destruct (includes lower "winter") eqn:Hw; [discriminate|].
  destruct (includes lower "spring"); [discriminate|].
  destruct (includes lower "summer"); [discriminate|].
  destruct (includes lower "fall"); [discriminate|].
  destruct (includes lower "autumn"); [discriminate|].
  destruct (includes lower "fall-winter") eqn:Hfw; [|discriminate].
  apply (includes_app_r lower "fall-" "winter") in Hfw. congruence.
Qed.

Lemma extractSeasonRank_not_five (value : option string) :
  extractSeasonRank value <> Some 5.
Proof.
  destruct value as [v|]; [|discriminate]. unfold extractSeasonRank.
  destruct (negb (truthy_str v)); [discriminate|].
  apply first_keyword_not_five.
Qed.

(** The term label is asked first, the course code only when the label
    names no season, and the rank is 0 when neither does. *)
Lemma courseRecencyInfo_season (course : Course) :
  snd (courseRecencyInfo course) =
    match extractSeasonRank (Some (term course)) with
    | Some r => r
    | None => default 0 (extractSeasonRank (Some (course_code course)))
    end.
Proof.
  unfold courseRecencyInfo. cbn [snd].
  destruct (extractSeasonRank (Some (term course))); [reflexivity|].
  destruct (extractSeasonRank (Some (course_code course))); reflexivity.
Qed.

(** C7: the keyword table is scanned from its first row, and a label with
    "fall-winter" in it also has "winter" (row 1) and "fall" (row 4) in it:
    the course with term label "Fall-Winter 2024" gets season rank 1, the
    row with rank 5 is never reached, and no course has season rank 5. *)
Theorem season_rank_fall_winter :
  snd (courseRecencyInfo (mkCourse 7 "Algebra" "Fall-Winter 2024" "MAT-1")) = 1
  /\ extractSeasonRank (Some "fall-winter") = Some 1
  /\ (forall value, extractSeasonRank value <> Some 5)
  /\ (forall course, snd (courseRecencyInfo course) <> 5).
Proof.
  split; [vm_compute; reflexivity|].
  split; [vm_compute; reflexivity|].
  split; [apply extractSeasonRank_not_five|].
  intros course. rewrite courseRecencyInfo_season.
  pose proof (extractSeasonRank_not_five (Some (term course))) as Ht.
  pose proof (extractSeasonRank_not_five (Some (course_code course))) as Hc.
  destruct (extractSeasonRank (Some (term course))) as [r|]; [congruence|].
  destruct (extractSeasonRank (Some (course_code course))) as [r|]; cbn;
    [congruence | discriminate].
Qed.

(** The rows that can be reached give the ranks of the table. *)
Lemma season_rank_reachable_rows :
  extractSeasonRank (Some "Winter 2025") = Some 1
  /\ extractSeasonRank (Some "Spring 2025") = Some 2
  /\ extractSeasonRank (Some "Summer 2025") = Some 3
  /\ extractSeasonRank (Some "Fall 2024") = Some 4
  /\ extractSeasonRank (Some "AUTUMN 2024") = Some 4
  /\ extractSeasonRank (Some "2024") = None.
Proof. vm_compute. repeat split. Qed.

End SeasonRank.

(* ===================================================================== *)
(** ** Course records                                                     *)
(* ===================================================================== *)

Section MapCourse.
Import Js Mappers Notions.

Lemma trimStart_empty (s : string) :
  trimStart s = "" <-> all_space s = true.
Proof.
  induction s as [|c s IH]; cbn; [tauto|].
  destruct (is_space c); cbn; [exact IH|]. split; discriminate.
Qed.








(** The fall-backs at work. *)
Lemma mapCourse_samples :
  mapCourse (mkCanvasCourse 42 None (Some "   ") None)
    = mkCourse 42 "COURSE-42" "" "COURSE-42"
  /\ mapCourse (mkCanvasCourse 42 (Some " ") (Some " CS 101 ")
                  (Some (mkCanvasTerm 1 (Some " Fall 2025 "))))
    = mkCourse 42 "CS 101" "Fall 2025" "CS 101"
  /\ mapCourse (mkCanvasCourse (-3) (Some "Logic") None None)
    = mkCourse (-3) "Logic" "" "COURSE--3".
Proof. vm_compute. repeat split. Qed.

End MapCourse.

(* ===================================================================== *)
(** ** Backoff delay                                                      *)
(* ===================================================================== *)

Section RetryDelay.
Import Js Client.
Context `{host : Host}.

(** A hint that [Number] reads as a finite number of seconds is returned
    times 1000, as it is: no clamping on this path. *)
Lemma retryDelay_seconds (attempt : nat) (h : string) (q : Q) (now : Z) (random : Q) :
  h <> "" -> Number_ h = Fin q ->
  retryDelay attempt (Some h) now random = Fin (q * 1000).
Proof.
  intros Hh Hn. unfold retryDelay, parseRetryAfter.
  destruct h; [congruence|]. cbn [truthy_str negb]. now rewrite Hn.
Qed.

(** A hint that only [Date.parse] reads is returned as the distance to the
    clock, clamped at 0. *)
Lemma retryDelay_date (attempt : nat) (h : string) (d : Q) (now : Z) (random : Q) :
  h <> "" -> Number_ h = NaN -> Date_parse h = Fin d ->
  retryDelay attempt (Some h) now random =
    if Qle_bool (d - inject_Z now) 0 then ofZ 0 else Fin (d - inject_Z now).
Proof.
  intros Hh Hn Hd. unfold retryDelay, parseRetryAfter.
  destruct h; [congruence|]. cbn [truthy_str negb]. rewrite Hn, Hd.
  cbn. destruct (Qle_bool _ _); reflexivity.
Qed.

(** With a hint that parses, neither the attempt number nor the random
    draw matters: the exponential formula is not used. *)
Lemma retryDelay_hint_only (h : string) (now : Z) (v : number)
    (attempt attempt' : nat) (random random' : Q) :
  parseRetryAfter (Some h) now = Some v ->
  retryDelay attempt (Some h) now random = v
  /\ retryDelay attempt' (Some h) now random' = v.
Proof. intros H. unfold retryDelay. now rewrite H. Qed.

(** Without a hint the delay is the exponential one, capped at 5000. *)
Lemma retryDelay_no_hint (attempt : nat) (now : Z) (random : Q) :
  retryDelay attempt None now random =
    min (ofZ 5000)
      (Fin (500 * inject_Z (2 ^ Z.of_nat attempt) * ((1 # 2) + random))).
Proof. reflexivity. Qed.

End RetryDelay.

Section RetryDelaySample.
Import Js Client SampleHost.

(** C3: at the hint [retry-after: -5] the computed delay is -5000 ms, not
    [max(-5 * 1000, 0) = 0]: the seconds path multiplies and returns,
    whereas the date path clamps at 0 (a date 5 s in the past gives 0).
    A hint of 2 s gives 2000 ms whatever the attempt and the draw. *)
Theorem retryDelay_negative_seconds (attempt : nat) (now : Z) (random : Q) :
  retryDelay (host := sample) attempt (Some "-5") now random = ofZ (-5000)
  /\ retryDelay (host := sample) attempt (Some "-5") now random <> ofZ 0
  /\ retryDelay (host := sample) attempt
       (Some "Thu, 01 Jan 1970 00:00:05 GMT") 10000 random = ofZ 0
  /\ retryDelay (host := sample) attempt (Some "2") now random = ofZ 2000.
Proof.
  repeat split; try (vm_compute; reflexivity).
  vm_compute. discriminate.
Qed.

End RetryDelaySample.

(* ===================================================================== *)
(** ** The refreshable credential                                         *)
(* ===================================================================== *)

Section OAuthExpiry.
Import Js Errors Auth Notions.

(** A successful refresh whose answer gives no usable lifetime leaves the
    expiry unknown. *)
Lemma performRefresh_unknown_expiry self force ev status payload :
  tok_outcome ev = TokenHttp status (Some payload) ->
  response_ok status = true ->
  lifetime_unknown (expires_in payload) = true ->
  let '(r, self', _) := performRefresh self force ev in
  r = Ok tt
  /\ tokenExpiresAt self' = None
  /\ accessToken self' = access_token payload.
Proof.
  intros Hev Hok Hl. unfold performRefresh. rewrite Hev, Hok. cbn [negb].
  assert (He : match expires_in payload with
               | Some e =>
                   if truthy e && isFinite e
                   then Some (add (ofZ (tok_now ev))
                                (scale (max (sub e (ofZ 60)) (ofZ 0)) 1000))
                   else None
               | None => None
               end = None).
  { destruct (expires_in payload) as [[| |q|]|]; cbn in *; try reflexivity.
    now rewrite Hl. }
  rewrite He.
  destruct (refresh_token payload) as [r|]; [destruct (truthy_str r)|];
    cbn; repeat split.
Qed.

(** With the expiry unknown and a token cached, [getAuthorizationHeader]
    hands the cached token out: no request to the token endpoint, no
    change of state, whatever the clock says. *)
Lemma authorize_unknown_expiry self t now endpoint :
  tokenExpiresAt self = None -> accessToken self = Some t -> t <> "" ->
  oauth_getAuthorizationHeader self now endpoint =
    Some (Ok ("Bearer " ++ t)%string, self, endpoint, []).
Proof.
  intros He Ha Ht. unfold oauth_getAuthorizationHeader, shouldRefreshSoon.
  rewrite He, Ha. destruct t; [congruence|]. reflexivity.
Qed.

Lemma authorize_each_unknown_expiry self t clock endpoint :
  tokenExpiresAt self = None -> accessToken self = Some t -> t <> "" ->
  authorize_each self clock endpoint =
    Some (map (fun _ => ("Bearer " ++ t)%string) clock, self, endpoint).
Proof.
  intros He Ha Ht. induction clock as [|now clock IH]; [reflexivity|].
  cbn [authorize_each map].
  rewrite (authorize_unknown_expiry self t now endpoint He Ha Ht), IH.
  reflexivity.
Qed.

(** [handleUnauthorized] always goes to the token endpoint. *)
Lemma handleUnauthorized_refreshes self ev endpoint :
  exists r self' eff,
    oauth_handleUnauthorized self (ev :: endpoint) = Some (r, self', endpoint, eff)
    /\ In (TokenRequest (refreshToken self) (clientId self)
             (if truthy_str (clientSecret self) then Some (clientSecret self)
              else None)) eff.
Proof.
  unfold oauth_handleUnauthorized, refreshTokenPair, performRefresh.
  destruct (tok_outcome ev) as [msg|status body].
  - eexists _, _, _. split; [reflexivity|]. now left.
  - destruct (negb (response_ok status)).
    + eexists _, _, _. split; [reflexivity|]. now left.
    + destruct body as [payload|].
      * eexists _, _, _. split; [reflexivity|]. now left.
      * eexists _, _, _. split; [reflexivity|]. now left.
Qed.

(** C9: after a refresh whose answer gives no lifetime, or one that is
    not finite, or zero, the cached expiry is unknown; from then on
    [getAuthorizationHeader] hands out the token of that answer at every
    call, whatever the clock reads, without a request to the token
    endpoint and without a change of state; [handleUnauthorized] is what
    goes to the token endpoint, and it always does. *)
Theorem unknown_expiry_never_refreshes self force ev status payload t :
  tok_outcome ev = TokenHttp status (Some payload) ->
  response_ok status = true ->
  lifetime_unknown (expires_in payload) = true ->
  access_token payload = Some t -> t <> "" ->
  let self' := snd (fst (performRefresh self force ev)) in
  tokenExpiresAt self' = None
  /\ accessToken self' = Some t
  /\ (forall clock endpoint,
        authorize_each self' clock endpoint
        = Some (map (fun _ => ("Bearer " ++ t)%string) clock, self', endpoint))
  /\ (forall ev' endpoint,
        exists r self'' eff,
          oauth_handleUnauthorized self' (ev' :: endpoint)
          = Some (r, self'', endpoint, eff)
          /\ In (TokenRequest (refreshToken self') (clientId self')
                   (if truthy_str (clientSecret self')
                    then Some (clientSecret self') else None)) eff).
Proof.
  intros Hev Hok Hl Ha Ht self'.
  pose proof (performRefresh_unknown_expiry self force ev status payload Hev Hok Hl)
    as Hp.
  destruct (performRefresh self force ev) as [[r s'] eff] eqn:Hrun.
  destruct Hp as (_ & He & Hacc). subst self'. cbn [fst snd].
  rewrite Ha in Hacc.
  split; [exact He|]. split; [exact Hacc|]. split.
  - intros clock endpoint. now apply authorize_each_unknown_expiry.
  - intros ev' endpoint. apply handleUnauthorized_refreshes.
Qed.

Lemma unknown_expiry_never_refreshes_witness :
  let self := mkOAuth None "https://canvas.example.com" "client" "secret" "r0" None in
  let payload := mkTokenPayload (Some "tok-1") (Some "r1") None in
  let ev := mkTokenEvent (TokenHttp 200 (Some payload)) 1000 in
  (tok_outcome ev = TokenHttp 200 (Some payload)
   /\ response_ok 200 = true
   /\ lifetime_unknown (expires_in payload) = true
   /\ access_token payload = Some "tok-1" /\ "tok-1" <> "")
  /\ let self' := snd (fst (performRefresh self false ev)) in
     tokenExpiresAt self' = None
     /\ accessToken self' = Some "tok-1"
     /\ (forall clock endpoint,
           authorize_each self' clock endpoint
           = Some (map (fun _ => ("Bearer " ++ "tok-1")%string) clock, self', endpoint))
     /\ (forall ev' endpoint,
           exists r self'' eff,
             oauth_handleUnauthorized self' (ev' :: endpoint)
             = Some (r, self'', endpoint, eff)
             /\ In (TokenRequest (refreshToken self') (clientId self')
                      (if truthy_str (clientSecret self')
                       then Some (clientSecret self') else None)) eff).
Proof.
  intros self payload ev.
  split; [repeat split; discriminate|].
  apply (unknown_expiry_never_refreshes self false ev 200 payload "tok-1");
    [reflexivity | reflexivity | reflexivity | reflexivity | discriminate].
Defined.

(** A lifetime that is finite and not zero sets an expiry, and the token
    is then refreshed once the clock is within a minute of it. *)
Lemma known_expiry_refreshes_sample :
  let self := mkOAuth None "https://canvas.example.com" "client" "secret" "r0" None in
  let ev := mkTokenEvent
              (TokenHttp 200 (Some (mkTokenPayload (Some "tok-1") None
                                      (Some (ofZ 3600))))) 1000 in
  let self' := snd (fst (performRefresh self false ev)) in
  tokenExpiresAt self' = Some (ofZ 3541000)
  /\ shouldRefreshSoon self' 3480999 = false
  /\ shouldRefreshSoon self' 3481000 = true.
Proof. vm_compute. repeat split. Qed.

End OAuthExpiry.

(* ===================================================================== *)
(** ** Retry ceiling                                                      *)
(* ===================================================================== *)

Section FetchWithRetry.
Import Js Errors Auth Client Notions.
Context `{host : Host} {A : Type} `{auth : !CanvasAuthStrategy A}.
#[local] Open Scope list_scope.

Lemma requests_of_app (e1 e2 : list ClientEffect) :
  requests_of (e1 ++ e2) = requests_of e1 ++ requests_of e2.
Proof.
  induction e1 as [|[u k h|ms] e1 IH]; cbn; [reflexivity| |exact IH].
  now rewrite IH.
Qed.

Lemma numbered_cons (url : URL) (from n : nat) :
  (url, from) :: numbered url (S from) n = numbered url from (S n).
Proof. reflexivity. Qed.

(** What one logical request does to the network: it takes the next [n]
    answers, one per physical request, numbered from [attempt] on, and [n]
    is at most one more than the retries still allowed.  When it returns a
    response, that response is the last answer taken. *)
Lemma fetchWithRetry_requests (self : CanvasClient) (url : URL)
    (net : list FetchEvent) :
  forall (attempt : nat) (auth0 : A) r auth1 net' eff,
    fetchWithRetry self url attempt auth0 net = Some (r, auth1, net', eff) ->
    exists n : nat,
      requests_of eff = numbered url attempt n
      /\ net' = drop n net
      /\ (n <= length net)%nat
      /\ (n <= S (maxRetries self - attempt))%nat
      /\ (forall response, r = Ok response ->
            exists ev, net !! pred n = Some ev
                       /\ ev_outcome ev = FetchResponds response
                       /\ (1 <= n)%nat).
Proof.
  induction net as [|ev net IH]; intros attempt auth0 r auth1 net' eff Hrun.
  - cbn [fetchWithRetry] in Hrun. destruct (getAuthorizationHeader auth0) as [[[hdr|e] a1]|];
      [discriminate| |discriminate].
    injection Hrun as <- <- <- <-. exists 0%nat. cbn.
    repeat split; try lia. intros response Hr. discriminate.
  - cbn [fetchWithRetry] in Hrun.
    destruct (getAuthorizationHeader auth0) as [[[hdr|e] a1]|];
      [| |discriminate].
    2:{ injection Hrun as <- <- <- <-. exists 0%nat. cbn.
        repeat split; try lia. intros response Hr. discriminate. }
    (* what a retry contributes *)
    assert (Hagain : forall a2 sleeps,
      (forall u k h, ~ In (Request u k h) sleeps) ->
      (attempt < maxRetries self)%nat ->
      match fetchWithRetry self url (S attempt) a2 net with
      | Some (r0, auth3, net'', eff0) =>
          Some (r0, auth3, net'', Request url attempt hdr :: sleeps ++ eff0)
      | None => None
      end = Some (r, auth1, net', eff) ->
      exists n : nat,
        requests_of eff = numbered url attempt n
        /\ net' = drop n (ev :: net)
        /\ (n <= length (ev :: net))%nat
        /\ (n <= S (maxRetries self - attempt))%nat
        /\ (forall response, r = Ok response ->
              exists ev0, (ev :: net) !! pred n = Some ev0
                          /\ ev_outcome ev0 = FetchResponds response
                          /\ (1 <= n)%nat)).
    { intros a2 sleeps Hsl Hlt Hrec.
      destruct (fetchWithRetry self url (S attempt) a2 net)
        as [[[[r0 a3] n3] e3]|] eqn:Hcall; [|discriminate].
      injection Hrec as <- <- <- <-.
      destruct (IH _ _ _ _ _ _ Hcall) as (n & Hreq & Hnet & Hlen & Hmax & Hlast).
      exists (S n). cbn [requests_of]. rewrite requests_of_app, Hreq.
      assert (Hs : requests_of sleeps = []).
      { clear -Hsl. induction sleeps as [|[u k h|ms] sl IHs]; cbn; [reflexivity| |].
        - exfalso. apply (Hsl u k h). now left.
        - apply IHs. intros u k h Hin. apply (Hsl u k h). now right. }
      rewrite Hs. cbn [app]. rewrite numbered_cons.
      repeat split; [exact Hnet | cbn; lia | lia |].
      intros response Hr. destruct (Hlast response Hr) as (ev0 & Hev0 & Hout & Hn).
      exists ev0. repeat split; [|exact Hout|lia].
      destruct n as [|n]; [lia|]. exact Hev0. }
    assert (Hone : forall (r0 : Result JsError Response) (a2 : A),
      Some (r0, a2, net, [Request url attempt hdr]) = Some (r, auth1, net', eff) ->
      (forall response, r0 = Ok response -> ev_outcome ev = FetchResponds response) ->
      exists n : nat,
        requests_of eff = numbered url attempt n
        /\ net' = drop n (ev :: net)
        /\ (n <= length (ev :: net))%nat
        /\ (n <= S (maxRetries self - attempt))%nat
        /\ (forall response, r = Ok response ->
              exists ev0, (ev :: net) !! pred n = Some ev0
                          /\ ev_outcome ev0 = FetchResponds response
                          /\ (1 <= n)%nat)).
    { intros r0 a2 Heq Hresp. injection Heq as <- <- <- <-. exists 1%nat.
      repeat split; [cbn; lia | lia |].
      intros response Hr. exists ev. repeat split; [|lia]. now apply Hresp. }
    assert (Hnosleep : forall ms u k h, ~ In (Request u k h) [Sleep ms]).
    { intros ms u k h [H|[]]. discriminate. }
    destruct (ev_outcome ev) as [msg|response] eqn:Hout.
    + destruct (maxRetries self <=? attempt)%nat eqn:Hle.
      * apply (Hone _ _ Hrun). intros response Hr. discriminate.
      * apply Nat.leb_gt in Hle. eapply Hagain; [apply Hnosleep | exact Hle | exact Hrun].
    + destruct (resp_status response =? 401) eqn:H401.
      * destruct (handleUnauthorized a1) as [[[refreshed|e] a2]|]; [| |discriminate].
        -- destruct (attempt <? maxRetries self)%nat eqn:Hlt.
           ++ apply Nat.ltb_lt in Hlt.
              destruct refreshed; cbn [andb] in Hrun.
              ** eapply Hagain; [|exact Hlt|exact Hrun]. intros u k h [].
              ** destruct (shouldRetry (resp_status response)); cbn [andb] in Hrun.
                 --- eapply Hagain; [apply Hnosleep|exact Hlt|exact Hrun].
                 --- apply (Hone _ _ Hrun). intros r1 Hr. congruence.
           ++ rewrite andb_false_r in Hrun. rewrite andb_false_r in Hrun.
              apply (Hone _ _ Hrun). intros r1 Hr. congruence.
        -- destruct (maxRetries self <=? attempt)%nat eqn:Hle.
           ++ apply (Hone _ _ Hrun). intros r1 Hr. discriminate.
           ++ apply Nat.leb_gt in Hle.
              eapply Hagain; [apply Hnosleep | exact Hle | exact Hrun].
      * destruct (attempt <? maxRetries self)%nat eqn:Hlt.
        -- apply Nat.ltb_lt in Hlt.
           destruct (shouldRetry (resp_status response)); cbn [andb] in Hrun.
           ++ eapply Hagain; [apply Hnosleep|exact Hlt|exact Hrun].
           ++ apply (Hone _ _ Hrun). intros r1 Hr. congruence.
        -- rewrite andb_false_r in Hrun.
           apply (Hone _ _ Hrun). intros r1 Hr. congruence.
Qed.


End FetchWithRetry.

(* ===================================================================== *)
(** ** Pagination                                                         *)
(* ===================================================================== *)

Section GetAll.
Import Js Errors Auth Client Notions.
Context `{host : Host} {A : Type} `{auth : !CanvasAuthStrategy A}.
#[local] Open Scope list_scope.

Lemma blocks_requests_cons (url : URL) (n : nat) (blocks : list (URL * nat)) :
  blocks_requests ((url, n) :: blocks) = numbered url 0 n ++ blocks_requests blocks.
Proof. reflexivity. Qed.

Lemma blocks_total_cons (url : URL) (n : nat) (blocks : list (URL * nat)) :
  blocks_total ((url, n) :: blocks) = (n + blocks_total blocks)%nat.
Proof. reflexivity. Qed.

Lemma last_cons_default {T : Type} (l : list T) (x d : T) :
  List.last (x :: l) d = List.last l x.
Proof.
  revert x d. induction l as [|y l IH]; intros x d; [reflexivity|].
  change (List.last (x :: y :: l) d) with (List.last (y :: l) d).
  now rewrite (IH y d), (IH y x).
Qed.

Lemma parsePayload_array (response : Response) (ok : bool) (records : list JSON) :
  parsePayload response = Ok (ok, JArr records) ->
  body response = BodyJson (JArr records) /\ ok = resp_ok response.
Proof.
  unfold parsePayload. destruct (body response) as [|j|text]; intros H.
  - discriminate.
  - injection H as <- ->. split; reflexivity.
  - destruct (resp_ok response); discriminate.
Qed.

Lemma at_last_snoc {T : Type} (l : list T) (x : T) : at_last (l ++ [x]) = Some x.
Proof.
  unfold at_last. rewrite map_app. cbn. apply last_last.
Qed.

(** The request ids after one more page. *)
Lemma requestIds_step (ids : list string) (page : Response) :
  match x_request_id page with
  | Some id => if truthy_str id then ids ++ [id] else ids
  | None => ids
  end = ids ++ omap page_request_id [page].
Proof.
  unfold page_request_id. cbn.
  destruct (x_request_id page) as [id|]; [destruct (truthy_str id)|];
    cbn; now rewrite ?app_nil_r.
Qed.

Lemma last_answer_response (net : list FetchEvent) (n : nat) (ev : FetchEvent)
    (response : Response) :
  net !! pred n = Some ev -> ev_outcome ev = FetchResponds response ->
  (1 <= n)%nat ->
  sublist [response] (omap response_of (take n net)).
Proof.
  intros Hev Hout Hn. destruct n as [|n]; [lia|]. cbn [pred] in Hev.
  rewrite (take_S_r _ _ _ Hev), omap_app. apply sublist_inserts_l.
  cbn. unfold response_of at 1. rewrite Hout. reflexivity.
Qed.

Lemma getAll_loop_spec (self : CanvasClient) (fuel : nat) :
  forall nextUrl results ids status auth0 net eff seen d,
    getAll_loop fuel self nextUrl results ids status auth0 net eff seen = Some d ->
    drained self net results ids status eff seen d.
Proof.
  induction fuel as [|fuel IH];
    intros nextUrl results ids status auth0 net eff seen d Hrun.
  all: destruct nextUrl as [url|]; cbn [getAll_loop] in Hrun; try discriminate.
  all: try (injection Hrun as <-; exists [], []; cbn; rewrite !app_nil_r;
            split; [exact I|];
            split; [reflexivity|]; split; [constructor|];
            split; [reflexivity|]; split; [lia|]; split; [reflexivity|];
            split; [constructor|]; split; [lia|];
            intros res Hres; injection Hres as <-; cbn;
            split; [reflexivity|]; split; [constructor|];
            split; [reflexivity|]; split; [reflexivity|];
            split; [destruct ids; reflexivity|]; split; reflexivity).
  destruct (fetchWithRetry self url 0 auth0 net)
    as [[[[r a1] net1] eff1]|] eqn:Hfetch; [|discriminate].
  destruct (fetchWithRetry_requests _ _ _ _ _ _ _ _ _ Hfetch)
    as (n & Hreq & Hnet & Hlen & Hmax & Hlast).
  rewrite Nat.sub_0_r in Hmax.
  (* a run that ends with this logical request *)
  assert (Hstop : forall (e : JsError) (new_pages : list Response),
    sublist new_pages (omap response_of (take n net)) ->
    (length new_pages <= 1)%nat ->
    drained self net results ids status eff seen
      (mkDrained (Throw e) a1 net1 (eff ++ eff1) (seen ++ new_pages))).
  { intros e new_pages Hsub Hone. exists [(url, n)], new_pages.
    cbn [effects net_after pages outcome].
    rewrite requests_of_app, Hreq, blocks_requests_cons, blocks_total_cons.
    unfold blocks_requests, blocks_total. cbn. rewrite app_nil_r, Nat.add_0_r.
    split; [split; [|exact I]; exists auth0, a1, r, eff1; rewrite <- Hnet; now split|].
    split; [reflexivity|].
    split; [constructor; [exact Hmax | constructor]|].
    split; [exact Hnet|]. split; [exact Hlen|]. split; [reflexivity|].
    split; [exact Hsub|]. split; [exact Hone|].
    intros res Hres. discriminate. }
  destruct r as [response|e].
  2:{ injection Hrun as <-.
      pose proof (Hstop e [] (sublist_nil_l _) (Nat.le_0_l _)) as Hd.
      now rewrite app_nil_r in Hd. }
  destruct (Hlast response eq_refl) as (ev & Hev & Hout & Hn1).
  pose proof (last_answer_response _ _ _ _ Hev Hout Hn1) as Hpage.
  destruct (parsePayload response) as [[ok payload]|e] eqn:Hparse.
  2:{ injection Hrun as <-. now apply Hstop. }
  destruct ok; cbn [negb] in Hrun.
  2:{ injection Hrun as <-. now apply Hstop. }
  destruct payload as [| | | |records|];
    try (injection Hrun as <-; now apply Hstop).
  apply parsePayload_array in Hparse as [Hbody Hok].
  (* the loop goes on, to the next address or to its end *)
  assert (Hnext : forall next d0,
    getAll_loop fuel self next (results ++ records)
      (match x_request_id response with
       | Some id => if truthy_str id then ids ++ [id] else ids
       | None => ids
       end) (resp_status response) a1 net1 (eff ++ eff1) (seen ++ [response])
      = Some d0 ->
    drained self net results ids status eff seen d0).
  { intros next d0 Hrec.
    destruct (IH _ _ _ _ _ _ _ _ _ Hrec)
      as (blocks & new_pages & Hruns & Hb1 & Hb2 & Hb3 & Hb4 & Hb5 & Hsub & Hb7 & Hb6).
    exists ((url, n) :: blocks), (response :: new_pages).
    rewrite Hb1, requests_of_app, Hreq, blocks_requests_cons, blocks_total_cons.
    rewrite <- !app_assoc.
    split.
    { cbn [block_runs fst snd]. rewrite <- Hnet. split; [|exact Hruns].
      exists auth0, a1, (Ok response), eff1. now split. }
    split; [reflexivity|].
    split; [constructor; [exact Hmax | exact Hb2]|].
    split; [rewrite Hb3, Hnet, drop_drop; reflexivity|].
    split; [rewrite Hnet, length_drop in Hb4; lia|].
    split; [rewrite Hb5, <- app_assoc; reflexivity|].
    split.
    { rewrite <- take_take_drop, omap_app, <- Hnet.
      change (response :: new_pages) with ([response] ++ new_pages).
      now apply sublist_app. }
    split; [cbn; lia|].
    intros res Hres.
    destruct (Hb6 res Hres) as (Hc1 & Hc2 & Hc3 & Hc4 & Hc5 & Hc6 & Hc7).
    rewrite requestIds_step in Hc5, Hc6. rewrite <- app_assoc in Hc5, Hc6.
    split; [cbn; lia|].
    split; [constructor; [exact Hn1 | exact Hc2]|].
    split; [cbn [forallb]; rewrite Hc3; unfold page_accepted;
            rewrite Hbody, <- Hok; reflexivity|].
    split; [rewrite Hc4, <- app_assoc; cbn [flat_map]; unfold page_records at 2;
            rewrite Hbody; reflexivity|].
    replace (omap page_request_id (response :: new_pages))
      with (omap page_request_id [response] ++ omap page_request_id new_pages)
      by (rewrite <- omap_app; reflexivity).
    split; [exact Hc5|]. split; [exact Hc6|].
    rewrite Hc7. cbn [map]. symmetry. apply last_cons_default. }
  destruct (links_get "next" (parseLinkHeader (link response))) as [next|].
  - destruct (new_URL next None) as [u|].
    + now apply Hnext in Hrun.
    + injection Hrun as <-. now apply Hstop.
  - now apply Hnext in Hrun.
Qed.

(** The bound on the iterations is never what stops the loop: with more
    iterations allowed than the network has answers, allowing still more
    changes nothing. *)
Lemma getAll_loop_fuel (self : CanvasClient) (fuel fuel' : nat) :
  forall nextUrl results ids status auth0 net eff seen,
    (length net < fuel)%nat -> (length net < fuel')%nat ->
    getAll_loop fuel self nextUrl results ids status auth0 net eff seen
    = getAll_loop fuel' self nextUrl results ids status auth0 net eff seen.
Proof.
  revert fuel'. induction fuel as [|fuel IH];
    intros fuel' nextUrl results ids status auth0 net eff seen Hf Hf'; [lia|].
  destruct fuel' as [|fuel']; [lia|].
  destruct nextUrl as [url|]; [|reflexivity]. cbn [getAll_loop].
  destruct (fetchWithRetry self url 0 auth0 net)
    as [[[[r a1] net1] eff1]|] eqn:Hfetch; [|reflexivity].
  destruct (fetchWithRetry_requests _ _ _ _ _ _ _ _ _ Hfetch)
    as (n & _ & Hnet & Hlen & _ & Hlast).
  destruct r as [response|e]; [|reflexivity].
  destruct (Hlast response eq_refl) as (_ & _ & _ & Hn1).
  assert (Hshort : (length net1 < length net)%nat)
    by (rewrite Hnet, length_drop; lia).
  destruct (parsePayload response) as [[ok payload]|e]; [|reflexivity].
  destruct (negb ok); [reflexivity|].
  destruct payload; try reflexivity.
  destruct (links_get "next" (parseLinkHeader (link response))) as [next|].
  - destruct (new_URL next None); [|reflexivity]. apply IH; lia.
  - apply IH; lia.
Qed.

Lemma getAll_spec (self : CanvasClient) path params auth0 net d :
  getAll self path params auth0 net = Some d ->
  drained self net [] [] 200 [] [] d.
Proof.
  unfold getAll. destruct (buildUrl _ _ _) as [url|]; intros Hrun.
  - now apply getAll_loop_spec in Hrun.
  - injection Hrun as <-. exists [], []. cbn.
    split; [exact I|].
    split; [reflexivity|]. split; [constructor|]. split; [reflexivity|].
    split; [lia|]. split; [reflexivity|]. split; [constructor|]. split; [lia|].
    intros res Hres. discriminate.
Qed.


(** C5, amended: when [getAll] returns a result after folding N pages,
    every page was a 2xx answer of the network with a JSON array, taken in
    the order of the answers; the records of the result are the records of
    the pages, concatenated in that order; and the request ids of the
    result are the ids of the pages that carry a non-empty [x-request-id],
    in that order -- at most N of them, and N exactly when every page
    carries one. *)
Theorem getAll_concatenates_pages (self : CanvasClient) path params auth0 net d res :
  getAll self path params auth0 net = Some d ->
  outcome d = Ok res ->
  forallb page_accepted (pages d) = true
  /\ (exists n : nat, sublist (pages d) (omap response_of (take n net)))
  /\ data res = flat_map page_records (pages d)
  /\ default [] (requestIds res) = omap page_request_id (pages d)
  /\ (length (default [] (requestIds res)) <= length (pages d))%nat
  /\ (length (default [] (requestIds res)) = length (pages d)
      <-> Forall (fun page => is_Some (page_request_id page)) (pages d)).
Proof.
  intros Hrun Hres.
  apply getAll_spec in Hrun
    as (blocks & new_pages & _ & _ & _ & _ & _ & Hb5 & Hsub & _ & Hb6).
  destruct (Hb6 res Hres) as (_ & _ & Hacc & Hdata & Hids & _).
  cbn in Hb5, Hdata, Hids. rewrite Hb5, Hids. clear -Hacc Hsub Hdata.
  split; [exact Hacc|]. split; [eexists; exact Hsub|]. split; [exact Hdata|].
  split; [reflexivity|]. clear.
  induction new_pages as [|page l [IH1 IH2]]; cbn.
  - split; [lia|]. split; [constructor | reflexivity].
  - destruct (page_request_id page) as [id|] eqn:Hid; cbn.
    + split; [lia|]. split.
      * intros H. constructor; [rewrite Hid; eauto | apply IH2; lia].
      * intros H. inversion H; subst. f_equal. now apply IH2.
    + split; [lia|]. split; [lia|].
      intros H. inversion H as [|? ? [x Hx]]; subst. congruence.
Qed.

End GetAll.

(* ===================================================================== *)
(** ** Runs of the client over a personal access token                    *)
(* ===================================================================== *)

Section ClientRuns.
Import Js Errors Auth Client Notions SampleHost.
#[local] Open Scope list_scope.

Lemma pat_answers : auth_answers PersonalAccessTokenAuth.
Proof. split; intros a; eexists; reflexivity. Qed.

Lemma constructor_defaults :
  constructor sample_options = Ok (sample_client, UsePAT sample_pat).
Proof. reflexivity. Qed.

(** A client built without [maxRetries] has the ceiling 3. *)
Lemma constructor_default_ceiling options self strategy :
  constructor options = Ok (self, strategy) ->
  opt_maxRetries options = None ->
  maxRetries self = 3%nat.
Proof.
  unfold constructor. intros Hc Hopt.
  destruct (createAuthStrategy _ _ _ _ _ _); [|discriminate].
  injection Hc as <- _. now rewrite Hopt.
Qed.

(** The retries are granted in full: after [k] answers that call for a
    retry, with [attempt + k] within the ceiling, the next answer is the
    one returned, and it took [k + 1] requests. *)
Lemma fetchWithRetry_retries_granted `{host : Host} (self : CanvasClient)
    (url : URL) (pat : PersonalAccessTokenAuth) (response : Response)
    (rest : list FetchEvent) (now : Z) (random : Q) (fails : list FetchEvent) :
  forall attempt : nat,
    (attempt + length fails <= maxRetries self)%nat ->
    forallb retryable fails = true ->
    shouldRetry (resp_status response) = false ->
    resp_status response <> 401 ->
    exists eff,
      fetchWithRetry self url attempt pat
        (fails ++ mkFetchEvent (FetchResponds response) now random :: rest)
      = Some (Ok response, pat, rest, eff)
      /\ requests_of eff = numbered url attempt (S (length fails)).
Proof.
  induction fails as [|ev fails IH]; intros attempt Hk Hfails Hno Hne.
  - cbn [app fetchWithRetry getAuthorizationHeader
         PersonalAccessTokenAuth_strategy pat_getAuthorizationHeader ev_outcome].
    apply Z.eqb_neq in Hne. rewrite Hne, Hno. cbn [andb].
    eexists. split; reflexivity.
  - cbn [forallb] in Hfails. apply andb_true_iff in Hfails as [Hev Hfails].
    cbn [length] in Hk.
    destruct (IH (S attempt)) as (eff & Hrun & Hreq); [lia|assumption..|].
    assert (Hlt : (attempt <? maxRetries self)%nat = true)
      by (apply Nat.ltb_lt; lia).
    assert (Hle : (maxRetries self <=? attempt)%nat = false)
      by (apply Nat.leb_gt; lia).
    cbn [app fetchWithRetry getAuthorizationHeader
         PersonalAccessTokenAuth_strategy pat_getAuthorizationHeader].
    unfold retryable in Hev.
    destruct (ev_outcome ev) as [msg|r].
    + rewrite Hle, Hrun. eexists. split; [reflexivity|].
      cbn [requests_of app]. rewrite Hreq. reflexivity.
    + assert (H401 : (resp_status r =? 401) = false).
      { unfold shouldRetry in Hev. apply Z.eqb_neq. intros E. rewrite E in Hev.
        discriminate. }
      rewrite H401, Hev, Hlt. cbn [andb]. rewrite Hrun.
      eexists. split; [reflexivity|].
      cbn [requests_of app]. rewrite Hreq. reflexivity.
Qed.

(** A 503 that persists: the fourth answer is handed back, a fifth is not
    asked for. *)
Lemma persistent_503_four_requests :
  (fun '(r, _, net', eff) => (r, net', requests_of eff))
    <$> fetchWithRetry (host := sample) sample_client "/api/v1/courses" 0
          sample_pat (repeat (answer busy) 5)
  = Some (Ok busy, [answer busy],
          numbered (host := sample) "/api/v1/courses" 0 4).
Proof. reflexivity. Qed.

(** Two pages, each behind three 503s: both are fetched, the second with
    its attempts numbered from 0 again. *)
Lemma later_page_has_full_budget :
  let first := "https://canvas.example.com/api/v1/courses&per_page=100" in
  let second := "https://canvas.example.com/api/v1/courses?page=2" in
  (fun d => (outcome d, requests_of (effects d), pages d))
    <$> getAll (host := sample) sample_client "/api/v1/courses" [] sample_pat
          (repeat (answer busy) 3 ++ [answer page_one]
           ++ repeat (answer busy) 3 ++ [answer page_two])
  = Some (Ok (mkCanvasResult [JNum (ofZ 1); JNum (ofZ 2); JNum (ofZ 3)] 200
                (Some "req-2") (Some ["req-1"; "req-2"])),
          numbered (host := sample) first 0 4
            ++ numbered (host := sample) second 0 4,
          [page_one; page_two]).
Proof. reflexivity. Qed.


(** C5, as stated, fails on a page that carries no [x-request-id]: one
    page is folded and the result has no request id at all. *)
Lemma getAll_page_without_request_id :
  let res := mkCanvasResult [JNum (ofZ 1)] 200 None None in
  let d :=
    mkDrained (host := sample) (Ok res) sample_pat []
      [Request (host := sample)
         "https://canvas.example.com/api/v1/courses&per_page=100" 0
         "Bearer test-pat"]
      [page_without_id] in
  getAll (host := sample) sample_client "/api/v1/courses" [] sample_pat
    [answer page_without_id] = Some d
  /\ outcome d = Ok res
  /\ length (pages d) = 1%nat
  /\ requestIds res = None
  /\ length (default [] (requestIds res)) <> length (pages d).
Proof.
  cbv zeta. split; [reflexivity|].
  split; [reflexivity|]. split; [reflexivity|]. split; [reflexivity|].
  cbn. discriminate.
Qed.

Lemma getAll_concatenates_pages_witness :
  let net := [answer page_one; answer page_two] in
  let res :=
    mkCanvasResult [JNum (ofZ 1); JNum (ofZ 2); JNum (ofZ 3)] 200
      (Some "req-2") (Some ["req-1"; "req-2"]) in
  let d :=
    mkDrained (host := sample) (Ok res) sample_pat []
      [Request (host := sample)
         "https://canvas.example.com/api/v1/courses&per_page=100" 0
         "Bearer test-pat";
       Request (host := sample)
         "https://canvas.example.com/api/v1/courses?page=2" 0
         "Bearer test-pat"]
      [page_one; page_two] in
  (getAll (host := sample) sample_client "/api/v1/courses" [] sample_pat net
     = Some d
   /\ outcome d = Ok res)
  /\ forallb page_accepted (pages d) = true
  /\ (exists n : nat, sublist (pages d) (omap response_of (take n net)))
  /\ data res = flat_map page_records (pages d)
  /\ default [] (requestIds res) = omap page_request_id (pages d)
  /\ (length (default [] (requestIds res)) <= length (pages d))%nat
  /\ (length (default [] (requestIds res)) = length (pages d)
      <-> Forall (fun page => is_Some (page_request_id page)) (pages d)).
Proof.
  intros net res d.
  assert (Hrun : getAll (host := sample) sample_client "/api/v1/courses" []
                   sample_pat net = Some d)
    by reflexivity.
  split; [split; [exact Hrun | reflexivity]|].
  exact (getAll_concatenates_pages (host := sample) sample_client
           "/api/v1/courses" [] sample_pat net d res Hrun eq_refl).
Defined.

End ClientRuns.

(* ===================================================================== *)
(** ** Upcoming work: one course that cannot be read                      *)
(* ===================================================================== *)

Section CoursesLoop.
Import Js Errors Client Mappers Tools Notions.
Context `{host : Host}.
#[local] Open Scope list_scope.

(** The warnings are only added to. *)
Lemma courses_loop_warnings (G : AssignmentsCall) now rangeEnd courses :
  forall index st warnings,
    courses_loop G now rangeEnd index courses st warnings
    = (fst (courses_loop G now rangeEnd index courses st []),
       warnings ++ snd (courses_loop G now rangeEnd index courses st [])).
Proof.
  induction courses as [|course rest IH]; intros index st warnings.
  - cbn. now rewrite app_nil_r.
  - cbn [courses_loop]. destruct (G index course) as [r|[e|msg]].
    + apply IH.
    + destruct (ErrorCode_eqb (code e) AUTHORIZATION_FAILED).
      * rewrite (IH _ _ (warnings ++ _)), (IH _ _ ([] ++ _)).
        cbn [fst snd]. now rewrite <- app_assoc.
      * cbn. now rewrite app_nil_r.
    + cbn. now rewrite app_nil_r.
Qed.

(** The loop over [pre ++ rest] is the loop over [pre], then, unless that
    one threw, the loop over [rest]. *)
Lemma courses_loop_app (G : AssignmentsCall) now rangeEnd pre rest :
  forall index st warnings,
    courses_loop G now rangeEnd index (pre ++ rest) st warnings
    = match courses_loop G now rangeEnd index pre st warnings with
      | (Ok st', warnings') =>
          courses_loop G now rangeEnd (index + length pre) rest st' warnings'
      | (Throw e, warnings') => (Throw e, warnings')
      end.
Proof.
  induction pre as [|course pre IH]; intros index st warnings.
  - cbn. now rewrite Nat.add_0_r.
  - cbn [app courses_loop length].
    replace (index + S (length pre))%nat with (S index + length pre)%nat by lia.
    destruct (G index course) as [r|[e|msg]]; [apply IH | | reflexivity].
    destruct (ErrorCode_eqb (code e) AUTHORIZATION_FAILED); [apply IH | reflexivity].
Qed.

(** Courses whose calls are tolerated do not stop the loop. *)
Lemma courses_loop_tolerated (G : AssignmentsCall) now rangeEnd pre :
  forall index st warnings,
    (forall j course, pre !! j = Some course ->
                      tolerated G (index + j) course = true) ->
    exists st' warnings',
      courses_loop G now rangeEnd index pre st warnings = (Ok st', warnings').
Proof.
  induction pre as [|course pre IH]; intros index st warnings Hpre.
  - eexists _, _. reflexivity.
  - cbn [courses_loop].
    assert (Hrest : forall st0 w0, exists st' warnings',
              courses_loop G now rangeEnd (S index) pre st0 w0 = (Ok st', warnings')).
    { intros st0 w0. apply IH. intros j c Hj.
      replace (S index + j)%nat with (index + S j)%nat by lia.
      now apply Hpre. }
    pose proof (Hpre 0%nat course eq_refl) as Hc.
    rewrite Nat.add_0_r in Hc. unfold tolerated in Hc.
    destruct (G index course) as [r|[e|msg]]; [apply Hrest | | discriminate].
    cbn in Hc. rewrite Hc. apply Hrest.
Qed.

(** From the position of the missing course on, the moved calls are the
    calls one position later. *)
Lemma courses_loop_without_call_after (G : AssignmentsCall) now rangeEnd k rest :
  forall index st warnings,
    (k <= index)%nat ->
    courses_loop (without_call k G) now rangeEnd index rest st warnings
    = courses_loop G now rangeEnd (S index) rest st warnings.
Proof.
  induction rest as [|course rest IH]; intros index st warnings Hk; [reflexivity|].
  cbn [courses_loop]. unfold without_call at 1.
  assert (Hlt : (index <? k)%nat = false) by (apply Nat.ltb_ge; lia).
  rewrite Hlt.
  destruct (G (S index) course) as [r|[e|msg]]; [apply IH; lia | | reflexivity].
  destruct (ErrorCode_eqb (code e) AUTHORIZATION_FAILED); [apply IH; lia | reflexivity].
Qed.

Lemma courses_loop_without_call_before (G : AssignmentsCall) now rangeEnd k pre :
  forall index st warnings,
    (index + length pre <= k)%nat ->
    courses_loop (without_call k G) now rangeEnd index pre st warnings
    = courses_loop G now rangeEnd index pre st warnings.
Proof.
  induction pre as [|course pre IH]; intros index st warnings Hk; [reflexivity|].
  cbn [courses_loop length] in *. unfold without_call at 1.
  assert (Hlt : (index <? k)%nat = true) by (apply Nat.ltb_lt; lia).
  rewrite Hlt.
  destruct (G index course) as [r|[e|msg]]; [apply IH; lia | | reflexivity].
  destruct (ErrorCode_eqb (code e) AUTHORIZATION_FAILED); [apply IH; lia | reflexivity].
Qed.

(** A course whose call fails with an authorization failure is skipped:
    the loop ends as it does without that course, and a warning names
    the course when the loop gets to it. *)
Lemma courses_loop_skips (G : AssignmentsCall) now rangeEnd pre course post st e :
  G (length pre) course = Throw (EApp e) ->
  code e = AUTHORIZATION_FAILED ->
  fst (courses_loop G now rangeEnd 0 (pre ++ course :: post) st [])
  = fst (courses_loop (without_call (length pre) G) now rangeEnd 0
           (pre ++ post) st []).
Proof.
  intros Hcall Hcode. rewrite !courses_loop_app.
  rewrite courses_loop_without_call_before by (cbn; lia).
  destruct (courses_loop G now rangeEnd 0 pre st []) as [[st'|err] w]; [|reflexivity].
  cbn [Nat.add courses_loop]. rewrite Hcall, Hcode. cbn [ErrorCode_eqb].
  rewrite courses_loop_without_call_after by lia.
  rewrite (courses_loop_warnings _ _ _ _ _ _ (w ++ _)).
  rewrite (courses_loop_warnings _ _ _ _ _ _ w). reflexivity.
Qed.

(** Any other failure stops the loop with that failure. *)
Lemma courses_loop_aborts (G : AssignmentsCall) now rangeEnd pre course post st err :
  (forall j c, pre !! j = Some c -> tolerated G j c = true) ->
  G (length pre) course = Throw err ->
  is_authorization_failure err = false ->
  fst (courses_loop G now rangeEnd 0 (pre ++ course :: post) st []) = Throw err.
Proof.
  intros Hpre Hcall Herr. rewrite courses_loop_app.
  destruct (courses_loop_tolerated G now rangeEnd pre 0 st [] Hpre)
    as (st' & w & ->).
  cbn [Nat.add courses_loop]. rewrite Hcall.
  destruct err as [e|msg]; [|reflexivity]. cbn in Herr. now rewrite Herr.
Qed.

End CoursesLoop.

(* ===================================================================== *)
(** ** The map of upcoming entries                                        *)
(* ===================================================================== *)

Section MapFacts.
Import Js Notions.
Context {V : Type}.
#[local] Open Scope list_scope.

Lemma has_get (m : JsMap.t V) (k : Z) :
  JsMap.has m k = match JsMap.get m k with Some _ => true | None => false end.
Proof.
  induction m as [|[k' v] m IH]; cbn; [reflexivity|].
  destruct (k' =? k); [reflexivity | exact IH].
Qed.

Lemma has_keys (m : JsMap.t V) (k : Z) :
  JsMap.has m k = true <-> In k (JsMap.keys m).
Proof.
  induction m as [|[k' v] m IH]; cbn; [split; [discriminate | tauto]|].
  destruct (Z.eqb_spec k' k) as [->|Hne].
  - split; [now left | reflexivity].
  - rewrite IH. split; [now right | intros [H|H]; [congruence | exact H]].
Qed.

Lemma get_set_same (m : JsMap.t V) (k : Z) (v : V) :
  JsMap.get (JsMap.set m k v) k = Some v.
Proof.
  induction m as [|[k' v'] m IH]; cbn.
  - now rewrite Z.eqb_refl.
  - destruct (k' =? k) eqn:E; cbn; rewrite E; [reflexivity | exact IH].
Qed.

Lemma get_set_other (m : JsMap.t V) (k j : Z) (v : V) :
  k <> j -> JsMap.get (JsMap.set m k v) j = JsMap.get m j.
Proof.
  intros Hne. induction m as [|[k' v'] m IH]; cbn.
  - destruct (Z.eqb_spec k j); [congruence | reflexivity].
  - destruct (Z.eqb_spec k' k) as [->|Hk]; cbn.
    + destruct (Z.eqb_spec k j); [congruence | reflexivity].
    + destruct (k' =? j); [reflexivity | exact IH].
Qed.

(** [set] on a key that is there keeps the keys; on a new key it appends
    the key. *)
Lemma keys_set (m : JsMap.t V) (k : Z) (v : V) :
  JsMap.keys (JsMap.set m k v)
  = if JsMap.has m k then JsMap.keys m else JsMap.keys m ++ [k].
Proof.
  induction m as [|[k' v'] m IH]; cbn; [reflexivity|].
  destruct (k' =? k) eqn:E; cbn; [reflexivity|].
  unfold JsMap.keys in *. rewrite IH. destruct (JsMap.has m k); reflexivity.
Qed.

Lemma values_set_new (m : JsMap.t V) (k : Z) (v : V) :
  JsMap.has m k = false -> JsMap.set m k v = m ++ [(k, v)].
Proof.
  induction m as [|[k' v'] m IH]; cbn; [reflexivity|].
  destruct (k' =? k); [discriminate|]. intros H. now rewrite IH.
Qed.

Lemma keys_set_nodup (m : JsMap.t V) (k : Z) (v : V) :
  NoDup (JsMap.keys m) -> NoDup (JsMap.keys (JsMap.set m k v)).
Proof.
  intros Hnd. rewrite keys_set. destruct (JsMap.has m k) eqn:Hh; [exact Hnd|].
  apply NoDup_app. split; [exact Hnd|]. split.
  - intros x Hx Hin. apply list_elem_of_In in Hx, Hin.
    destruct Hin as [<-|[]]. apply has_keys in Hx. congruence.
  - apply NoDup_singleton.
Qed.

(** With distinct keys, the value under a key is the only entry with that
    key. *)
Lemma get_filter (m : JsMap.t V) (k : Z) :
  NoDup (JsMap.keys m) ->
  List.filter (fun kv => fst kv =? k) m
  = match JsMap.get m k with Some v => [(k, v)] | None => [] end.
Proof.
  induction m as [|[k' v] m IH]; intros Hnd; cbn; [reflexivity|].
  cbn in Hnd. apply NoDup_cons in Hnd as [Hk Hnd].
  destruct (Z.eqb_spec k' k) as [->|Hne].
  - f_equal. rewrite (IH Hnd).
    destruct (JsMap.get m k) eqn:Hg; [|reflexivity].
    exfalso. apply Hk. apply list_elem_of_In, has_keys. rewrite has_get, Hg.
    reflexivity.
  - apply (IH Hnd).
Qed.

End MapFacts.

(* ===================================================================== *)
(** ** Upcoming work: the merge of the two feeds                          *)
(* ===================================================================== *)

Section Merge.
Import Js Errors Client Mappers Tools Notions.
Context `{host : Host}.
#[local] Open Scope list_scope.

Lemma find_app_eq {X : Type} (f : X -> bool) (l1 l2 : list X) :
  find f (l1 ++ l2)
  = match find f l1 with Some x => Some x | None => find f l2 end.
Proof.
  induction l1 as [|x l1 IH]; [reflexivity|]. cbn.
  destruct (f x); [reflexivity | exact IH].
Qed.

Lemma omap_cons_eq {X Y : Type} (f : X -> option Y) (x : X) (l : list X) :
  omap f (x :: l)
  = match f x with Some y => y :: omap f l | None => omap f l end.
Proof. reflexivity. Qed.

(** The two loops, as insertions of the entries they keep. *)
Lemma todo_step_entry now rangeEnd m (item : CanvasTodoItem) :
  todo_step now rangeEnd m item
  = match todo_entry now rangeEnd item with Some e => put m e | None => m end.
Proof.
  unfold todo_step, todo_entry.
  destruct (todo_assignment item) as [a|]; [|reflexivity].
  cbv zeta. destruct (isWithinRange _ now rangeEnd); reflexivity.
Qed.

Lemma todo_loop_puts now rangeEnd (items : list CanvasTodoItem) :
  forall m,
    fold_left (todo_step now rangeEnd) items m
    = fold_left put (todo_entries now rangeEnd items) m.
Proof.
  induction items as [|item items IH]; intros m; [reflexivity|].
  cbn [fold_left]. rewrite IH, todo_step_entry.
  unfold todo_entries. rewrite omap_cons_eq.
  destruct (todo_entry now rangeEnd item); reflexivity.
Qed.

Lemma assignment_step_entry now rangeEnd course m (a : CanvasAssignment) :
  assignment_step now rangeEnd course m a
  = match assignment_entry now rangeEnd course a with
    | Some e => put_if_absent m e
    | None => m
    end.
Proof.
  unfold assignment_step, assignment_entry. cbv zeta.
  destruct (truthy_ostr (a_due_at a) && negb (isWithinRange (a_due_at a) now rangeEnd));
    [reflexivity|].
  unfold put_if_absent, put. destruct (JsMap.has m _); reflexivity.
Qed.

Lemma assignment_loop_puts now rangeEnd course (records : list CanvasAssignment) :
  forall m,
    fold_left (assignment_step now rangeEnd course) records m
    = fold_left put_if_absent
        (omap (assignment_entry now rangeEnd course) records) m.
Proof.
  induction records as [|a records IH]; intros m; [reflexivity|].
  cbn [fold_left]. rewrite IH, assignment_step_entry, omap_cons_eq.
  destruct (assignment_entry now rangeEnd course a); reflexivity.
Qed.

Lemma courses_loop_puts (G : AssignmentsCall) now rangeEnd courses :
  forall index st warnings st' warnings',
    courses_loop G now rangeEnd index courses st warnings = (Ok st', warnings') ->
    upcomingMap st'
    = fold_left put_if_absent (assignment_entries G now rangeEnd index courses)
        (upcomingMap st).
Proof.
  induction courses as [|course rest IH]; intros index st w st' w' Hrun.
  - injection Hrun as <- _. reflexivity.
  - cbn [courses_loop assignment_entries] in *.
    destruct (G index course) as [r|[e|msg]]; [| |discriminate].
    + apply IH in Hrun. rewrite Hrun. cbn [upcomingMap].
      rewrite fold_left_app, assignment_loop_puts. reflexivity.
    + destruct (ErrorCode_eqb (code e) AUTHORIZATION_FAILED); [|discriminate].
      apply IH in Hrun. exact Hrun.
Qed.

(** Insertions keep the keys distinct and every entry under its id. *)
Lemma put_keyed m e : keyed m -> keyed (put m e).
Proof.
  unfold keyed, put. induction m as [|[k v] m IH]; intros Hm; cbn.
  - constructor; [reflexivity | constructor].
  - apply Forall_cons in Hm as [Hk Hm]. destruct (Z.eqb_spec k (item_id e)).
    + constructor; [cbn; congruence | exact Hm].
    + constructor; [exact Hk | now apply IH].
Qed.

Lemma put_nodup m e : NoDup (JsMap.keys m) -> NoDup (JsMap.keys (put m e)).
Proof. apply keys_set_nodup. Qed.

Lemma puts_invariant (l : list Assignment) :
  forall m, keyed m -> NoDup (JsMap.keys m) ->
            keyed (fold_left put l m) /\ NoDup (JsMap.keys (fold_left put l m)).
Proof.
  induction l as [|e l IH]; intros m Hk Hn; [now split|].
  cbn. apply IH; [now apply put_keyed | now apply put_nodup].
Qed.

Lemma puts_if_absent_invariant (l : list Assignment) :
  forall m, keyed m -> NoDup (JsMap.keys m) ->
            keyed (fold_left put_if_absent l m)
            /\ NoDup (JsMap.keys (fold_left put_if_absent l m)).
Proof.
  induction l as [|e l IH]; intros m Hk Hn; [now split|].
  cbn. apply IH; unfold put_if_absent; destruct (JsMap.has m (item_id e));
    auto using put_keyed, put_nodup.
Qed.

(** After the to-do loop, the entry under an id is the last one the feed
    has for it. *)
Lemma puts_get (l : list Assignment) (k : Z) :
  forall m,
    JsMap.get (fold_left put l m) k
    = match last_with_id k l with
      | Some e => Some e
      | None => JsMap.get m k
      end.
Proof.
  unfold last_with_id.
  induction l as [|e l IH]; intros m; [reflexivity|].
  cbn [fold_left rev]. rewrite IH, find_app_eq.
  destruct (find _ (rev l)); [reflexivity|]. cbn [find]. unfold put.
  destruct (Z.eqb_spec (item_id e) k) as [<-|Hne].
  - apply get_set_same.
  - now apply get_set_other.
Qed.

(** The loop over the courses never touches an entry that is there. *)
Lemma puts_if_absent_get (l : list Assignment) (k : Z) (v : Assignment) :
  forall m,
    JsMap.get m k = Some v ->
    JsMap.get (fold_left put_if_absent l m) k = Some v.
Proof.
  induction l as [|e l IH]; intros m Hg; [exact Hg|].
  cbn. apply IH. unfold put_if_absent.
  destruct (JsMap.has m (item_id e)) eqn:Hh; [exact Hg|].
  unfold put. rewrite get_set_other; [exact Hg|].
  intros <-. rewrite has_get, Hg in Hh. discriminate.
Qed.

(** The entries of the map with a given id. *)
Lemma with_id_values (m : JsMap.t Assignment) (k : Z) :
  keyed m -> NoDup (JsMap.keys m) ->
  with_id k (JsMap.values m)
  = match JsMap.get m k with Some v => [v] | None => [] end.
Proof.
  intros Hk Hn.
  transitivity (map snd (List.filter (fun kv => fst kv =? k) m)).
  - clear Hn. unfold with_id, JsMap.values.
    induction m as [|[k' v] m IH]; [reflexivity|].
    apply Forall_cons in Hk as [Hkv Hk]. cbn in *. subst k'.
    destruct (item_id v =? k); cbn; now rewrite (IH Hk).
  - rewrite (get_filter m k Hn). destruct (JsMap.get m k); reflexivity.
Qed.

Lemma values_ids_nodup (m : JsMap.t Assignment) :
  keyed m -> NoDup (JsMap.keys m) -> NoDup (map item_id (JsMap.values m)).
Proof.
  intros Hk Hn. replace (map item_id (JsMap.values m)) with (JsMap.keys m);
    [exact Hn|].
  clear Hn. unfold JsMap.keys, JsMap.values. rewrite map_map.
  induction m as [|kv m IH]; [reflexivity|].
  apply Forall_cons in Hk as [Hkv Hk]. cbn. now rewrite Hkv, (IH Hk).
Qed.

(** The keys of the map follow the first occurrences of the ids. *)
Lemma has_seen (m : JsMap.t Assignment) (k : Z) :
  JsMap.has m k = seen_id k (JsMap.keys m).
Proof.
  induction m as [|[k' v] m IH]; cbn; [reflexivity|].
  destruct (k' =? k); [reflexivity | exact IH].
Qed.

Lemma puts_keys (l : list Assignment) :
  forall m,
    JsMap.keys (fold_left put l m)
    = JsMap.keys m ++ map item_id (fresh (JsMap.keys m) l).
Proof.
  induction l as [|e l IH]; intros m; cbn [fold_left fresh].
  - now rewrite app_nil_r.
  - rewrite IH. unfold put. rewrite keys_set, has_seen.
    destruct (seen_id (item_id e) (JsMap.keys m)); [reflexivity|].
    cbn [map]. now rewrite <- app_assoc.
Qed.

Lemma puts_if_absent_append (l : list Assignment) :
  forall m,
    fold_left put_if_absent l m
    = m ++ map (fun e => (item_id e, e)) (fresh (JsMap.keys m) l).
Proof.
  induction l as [|e l IH]; intros m; cbn [fold_left fresh].
  - now rewrite app_nil_r.
  - rewrite IH. unfold put_if_absent. rewrite has_seen.
    destruct (seen_id (item_id e) (JsMap.keys m)) eqn:Hs; [reflexivity|].
    unfold put. rewrite values_set_new by (now rewrite has_seen).
    unfold JsMap.keys. rewrite map_app. cbn [map fst].
    now rewrite <- app_assoc.
Qed.

Lemma fresh_incl (l : list Assignment) :
  forall seen e, In e (fresh seen l) -> In e l.
Proof.
  induction l as [|x l IH]; intros seen e; cbn; [tauto|].
  destruct (seen_id (item_id x) seen).
  - intros H. right. eauto.
  - intros [H|H]; [now left | right; eauto].
Qed.

Lemma values_get (m : JsMap.t Assignment) :
  NoDup (JsMap.keys m) ->
  forall e, In e (JsMap.values m) ->
            keyed m -> JsMap.get m (item_id e) = Some e.
Proof.
  induction m as [|[k v] m IH]; intros Hn e Hin Hk; [destruct Hin|].
  cbn in Hn. apply NoDup_cons in Hn as [Hnk Hn].
  apply Forall_cons in Hk as [Hkv Hk]. cbn in Hkv. subst k.
  cbn in Hin |- *. destruct Hin as [->|Hin]; [now rewrite Z.eqb_refl|].
  destruct (Z.eqb_spec (item_id v) (item_id e)) as [E|_]; [|now apply IH].
  exfalso. apply Hnk. apply list_elem_of_In. rewrite E.
  unfold JsMap.keys, JsMap.values in *. apply in_map_iff in Hin as ((k' & v') & <- & Hin).
  apply in_map_iff. exists (k', v'). split; [|exact Hin].
  rewrite Forall_forall in Hk. apply (Hk (k', v')).
  now apply list_elem_of_In.
Qed.

(** Where the entries come from, and what they are tagged with. *)
Lemma todo_entry_source now rangeEnd item e :
  todo_entry now rangeEnd item = Some e -> source e = Some todo.
Proof.
  unfold todo_entry. destruct (todo_assignment item); [|discriminate].
  cbv zeta. destruct (isWithinRange _ _ _); [|discriminate].
  intros H. injection H as <-. reflexivity.
Qed.

Lemma assignment_entry_source now rangeEnd course a e :
  assignment_entry now rangeEnd course a = Some e -> source e = Some assignment.
Proof.
  unfold assignment_entry. destruct (_ && _); [discriminate|].
  intros H. injection H as <-. reflexivity.
Qed.

Lemma todo_entries_source now rangeEnd items e :
  In e (todo_entries now rangeEnd items) -> source e = Some todo.
Proof.
  unfold todo_entries. intros H. apply list_elem_of_In, list_elem_of_omap in H
    as (item & _ & H). eapply todo_entry_source, H.
Qed.

Lemma assignment_entries_source (G : AssignmentsCall) now rangeEnd courses :
  forall index e,
    In e (assignment_entries G now rangeEnd index courses) ->
    source e = Some assignment.
Proof.
  induction courses as [|course rest IH]; intros index e; cbn; [tauto|].
  rewrite in_app_iff. intros [H|H]; [|eauto].
  destruct (G index course) as [r|err]; [|destruct H].
  apply list_elem_of_In, list_elem_of_omap in H as (a & _ & H).
  eapply assignment_entry_source, H.
Qed.

(** Within the range means a finite instant. *)
Lemma isWithinRange_finite (iso : option string) (now rangeEnd : Z) :
  isWithinRange iso now rangeEnd = true ->
  exists d q, iso = Some d /\ truthy_str d = true /\ Date_parse d = Fin q
              /\ (inject_Z now <= q <= inject_Z rangeEnd)%Q.
Proof.
  unfold isWithinRange. destruct iso as [d|]; [|discriminate].
  destruct (truthy_str d) eqn:Hd; [|discriminate]. cbn [negb].
  destruct (Date_parse d) as [| |q|] eqn:Hp; cbn; try discriminate.
  intros H. apply andb_true_iff in H as [H1 H2].
  apply Qle_bool_iff in H1, H2. exists d, q. repeat split; assumption.
Qed.

Lemma todo_entry_dated now rangeEnd item e :
  todo_entry now rangeEnd item = Some e -> dated (dueTime e) = true.
Proof.
  unfold todo_entry. destruct (todo_assignment item) as [a|]; [|discriminate].
  cbv zeta. destruct (isWithinRange _ _ _) eqn:Hr; [|discriminate].
  intros H. injection H as <-.
  apply isWithinRange_finite in Hr as (d & q & Hd & Ht & Hp & _).
  unfold dueTime. cbn in *. rewrite Hd, Ht, Hp. reflexivity.
Qed.

Lemma assignment_entry_dated now rangeEnd course a e :
  assignment_entry now rangeEnd course a = Some e -> dated (dueTime e) = true.
Proof.
  unfold assignment_entry.
  destruct (truthy_ostr (a_due_at a)) eqn:Ht; cbn [andb].
  - destruct (isWithinRange _ _ _) eqn:Hr; [|discriminate]. cbn [negb].
    intros H. injection H as <-.
    apply isWithinRange_finite in Hr as (d & q & Hd & Htd & Hp & _).
    unfold dueTime. cbn. rewrite Hd, Htd, Hp. reflexivity.
  - intros H. injection H as <-. unfold dueTime. cbn.
    destruct (a_due_at a) as [d|]; [|reflexivity].
    cbn in Ht. now rewrite Ht.
Qed.

Lemma todo_entries_dated now rangeEnd items e :
  In e (todo_entries now rangeEnd items) -> dated (dueTime e) = true.
Proof.
  unfold todo_entries. intros H. apply list_elem_of_In, list_elem_of_omap in H
    as (item & _ & H). eapply todo_entry_dated, H.
Qed.

Lemma assignment_entries_dated (G : AssignmentsCall) now rangeEnd courses :
  forall index e,
    In e (assignment_entries G now rangeEnd index courses) ->
    dated (dueTime e) = true.
Proof.
  induction courses as [|course rest IH]; intros index e; cbn; [tauto|].
  rewrite in_app_iff. intros [H|H]; [|eauto].
  destruct (G index course) as [r|err]; [|destruct H].
  apply list_elem_of_In, list_elem_of_omap in H as (a & _ & H).
  eapply assignment_entry_dated, H.
Qed.

(** What is in the map was put there by one of the two loops. *)
Lemma set_values_incl (m : JsMap.t Assignment) (k : Z) (v e : Assignment) :
  In e (JsMap.values (JsMap.set m k v)) -> e = v \/ In e (JsMap.values m).
Proof.
  induction m as [|[k' v'] m IH]; cbn.
  - intros [H|[]]. now left.
  - destruct (k' =? k); cbn.
    + intros [H|H]; [now left | right; now right].
    + intros [H|H]; [right; now left|].
      destruct (IH H) as [H'|H']; [now left | right; now right].
Qed.

Lemma puts_values_incl (l : list Assignment) :
  forall m e, In e (JsMap.values (fold_left put l m)) ->
              In e (JsMap.values m) \/ In e l.
Proof.
  induction l as [|x l IH]; intros m e H; [now left|].
  cbn in H. destruct (IH _ _ H) as [H'|H']; [|right; now right].
  apply set_values_incl in H' as [->|H']; [right; now left | now left].
Qed.

Lemma merged_values_incl (todos assignments : list Assignment) (e : Assignment) :
  In e (JsMap.values (merged todos assignments)) ->
  In e todos \/ In e assignments.
Proof.
  unfold merged. rewrite puts_if_absent_append. unfold JsMap.values.
  rewrite map_app, map_map, in_app_iff. cbn [snd]. rewrite map_id.
  intros [H|H].
  - apply puts_values_incl in H as [[]|H]. now left.
  - right. eapply fresh_incl, H.
Qed.

Lemma merged_invariant (todos assignments : list Assignment) :
  keyed (merged todos assignments)
  /\ NoDup (JsMap.keys (merged todos assignments)).
Proof.
  unfold merged.
  destruct (puts_invariant todos JsMap.empty) as [Hk Hn];
    [constructor | constructor|].
  now apply puts_if_absent_invariant.
Qed.

(** A run of the handler that returns a list: both calls answered, the
    loop over the courses came to its end, and the list is the sorted
    values of the merged map. *)
Lemma list_upcoming_returns days now todoCall coursesCall
    (G : AssignmentsCall) upcoming meta warnings :
  list_upcoming days now todoCall coursesCall G = (Ok (upcoming, meta), warnings) ->
  exists todoResult coursesResult,
    todoCall = Ok todoResult
    /\ coursesCall = Ok coursesResult
    /\ upcoming
       = sort_upcoming
           (merged (todo_entries now (range_end days now) (data todoResult))
              (assignment_entries G now (range_end days now) 0
                 (data coursesResult))).
Proof.
  unfold list_upcoming. fold (range_end days now).
  destruct todoCall as [todoResult|e]; [|discriminate].
  destruct coursesCall as [coursesResult|e]; [|discriminate].
  destruct (courses_loop _ _ _ _ _ _ _) as [[st|e] w] eqn:Hloop; [|discriminate].
  destruct (forallb upcomingItemSchema_ok _); [|discriminate].
  intros H. injection H as <- _ _.
  exists todoResult, coursesResult. split; [reflexivity|]. split; [reflexivity|].
  apply courses_loop_puts in Hloop. rewrite Hloop. cbn [upcomingMap push_meta].
  unfold merged. now rewrite todo_loop_puts.
Qed.

Lemma filter_perm {X : Type} (f : X -> bool) (l l' : list X) :
  Permutation l l' -> Permutation (List.filter f l) (List.filter f l').
Proof.
  induction 1 as [|x l l' _ IH|x y l|l l' l'' _ IH1 _ IH2]; cbn.
  - reflexivity.
  - destruct (f x); [now constructor | exact IH].
  - destruct (f x), (f y); try reflexivity. apply perm_swap.
  - now rewrite IH1.
Qed.

End Merge.

(* ===================================================================== *)
(** ** The sort                                                           *)
(* ===================================================================== *)

Section SortFacts.
Import Js Notions.
Context {T : Type} (key : T -> number).
#[local] Open Scope list_scope.

(** A comparison function that subtracts keys. *)
#[local] Abbreviation compareFn := (fun a b : T => sub (key a) (key b)).

Lemma sort_insert_perm (x : T) (l : list T) :
  Permutation (JsArray.insert compareFn x l) (x :: l).
Proof.
  induction l as [|y l IH]; cbn; [reflexivity|].
  destruct (JsArray.comes_after compareFn x y); [|reflexivity].
  rewrite IH. apply perm_swap.
Qed.

Lemma sort_perm (l : list T) : Permutation (JsArray.sort compareFn l) l.
Proof.
  induction l as [|x l IH]; cbn; [reflexivity|].
  rewrite sort_insert_perm. now constructor.
Qed.

Lemma Qle_bool_sub (a b : Q) : Qle_bool (a - b) 0 = Qle_bool a b.
Proof.
  destruct (Qle_bool a b) eqn:E.
  - apply Qle_bool_iff in E. apply Qle_bool_iff. lra.
  - destruct (Qle_bool (a - b) 0) eqn:E'; [|reflexivity].
    apply Qle_bool_iff in E'. assert (a <= b)%Q by lra.
    apply Qle_bool_iff in H. congruence.
Qed.

(** On due times that occur, an element comes after another exactly when
    its key is not below or equal. *)
Lemma comes_after_key (x y : T) :
  dated (key x) = true -> dated (key y) = true ->
  JsArray.comes_after compareFn x y = negb (due_le (key x) (key y)).
Proof.
  unfold JsArray.comes_after.
  destruct (key x) as [| |a|], (key y) as [| |b|]; cbn; try discriminate;
    try reflexivity.
  intros _ _. f_equal. apply Qle_bool_sub.
Qed.

Lemma due_le_refl (t : number) : dated t = true -> due_le t t = true.
Proof.
  destruct t as [| |a|]; cbn; try discriminate; [|reflexivity].
  intros _. apply Qle_bool_iff. lra.
Qed.

Lemma due_le_trans (r s t : number) :
  due_le r s = true -> due_le s t = true -> due_le r t = true.
Proof.
  destruct r as [| |a|], s as [| |b|], t as [| |c|]; cbn;
    try discriminate; try reflexivity.
  rewrite !Qle_bool_iff. lra.
Qed.

Lemma due_le_total (s t : number) :
  dated s = true -> dated t = true ->
  due_le s t = false -> due_le t s = true.
Proof.
  destruct s as [| |a|], t as [| |b|]; cbn; try discriminate; try reflexivity.
  intros _ _ E. apply Qle_bool_iff.
  destruct (Qlt_le_dec b a) as [H|H]; [lra|].
  apply Qle_bool_iff in H. congruence.
Qed.

Lemma due_eq_trans (r s t : number) :
  due_eq r s = true -> due_eq s t = true -> due_eq r t = true.
Proof.
  unfold due_eq. rewrite !andb_true_iff. intros [H1 H2] [H3 H4].
  split; eapply due_le_trans; eassumption.
Qed.

Lemma due_eq_sym (s t : number) : due_eq s t = due_eq t s.
Proof. unfold due_eq. apply andb_comm. Qed.

Lemma insert_sorted (x : T) (l : list T) :
  dated (key x) = true -> Forall (fun y => dated (key y) = true) l ->
  sorted_by_key key l -> sorted_by_key key (JsArray.insert compareFn x l).
Proof.
  intros Hx Hl Hs. induction Hs as [|y l Hs IH Hy]; cbn.
  - constructor; constructor.
  - apply Forall_cons in Hl as [Hdy Hl].
    rewrite (comes_after_key x y Hx Hdy).
    destruct (due_le (key x) (key y)) eqn:E; cbn [negb].
    + constructor; [now constructor|].
      constructor; [exact E|].
      apply Forall_forall. intros z Hz. apply list_elem_of_In in Hz.
      rewrite Forall_forall in Hy. eapply due_le_trans; [exact E|].
      apply Hy. now apply list_elem_of_In.
    + constructor; [now apply IH|].
      apply Forall_forall. intros z Hz. apply list_elem_of_In in Hz.
      apply (Permutation_in _ (sort_insert_perm x l)) in Hz.
      destruct Hz as [<-|Hz].
      * now apply due_le_total.
      * rewrite Forall_forall in Hy. apply Hy. now apply list_elem_of_In.
Qed.

Lemma sort_dated (l : list T) :
  Forall (fun y => dated (key y) = true) l ->
  Forall (fun y => dated (key y) = true) (JsArray.sort compareFn l).
Proof.
  intros H. apply Forall_forall. intros y Hy. apply list_elem_of_In in Hy.
  apply (Permutation_in _ (sort_perm l)) in Hy.
  rewrite Forall_forall in H. apply H. now apply list_elem_of_In.
Qed.

(** The result is in ascending order of the keys. *)
Lemma sort_sorted (l : list T) :
  Forall (fun y => dated (key y) = true) l ->
  sorted_by_key key (JsArray.sort compareFn l).
Proof.
  induction l as [|x l IH]; intros Hl; cbn; [constructor|].
  apply Forall_cons in Hl as [Hx Hl].
  apply insert_sorted; [exact Hx | now apply sort_dated | now apply IH].
Qed.

(** Elements with the same key keep their order. *)
Lemma insert_stable (t : number) (x : T) (l : list T) :
  dated (key x) = true -> Forall (fun y => dated (key y) = true) l ->
  List.filter (fun y => due_eq (key y) t) (JsArray.insert compareFn x l)
  = List.filter (fun y => due_eq (key y) t) (x :: l).
Proof.
  intros Hx Hl. induction l as [|y l IH]; [reflexivity|].
  apply Forall_cons in Hl as [Hy Hl]. cbn [JsArray.insert].
  rewrite (comes_after_key x y Hx Hy).
  destruct (due_le (key x) (key y)) eqn:E; cbn [negb]; [reflexivity|].
  cbn [List.filter] in *. rewrite (IH Hl).
  destruct (due_eq (key y) t) eqn:Ey, (due_eq (key x) t) eqn:Ex; try reflexivity.
  exfalso. rewrite due_eq_sym in Ey.
  pose proof (due_eq_trans _ _ _ Ex Ey) as Hxy.
  unfold due_eq in Hxy. apply andb_true_iff in Hxy as [Hxy _]. congruence.
Qed.

Lemma sort_stable (t : number) (l : list T) :
  Forall (fun y => dated (key y) = true) l ->
  List.filter (fun y => due_eq (key y) t) (JsArray.sort compareFn l)
  = List.filter (fun y => due_eq (key y) t) l.
Proof.
  induction l as [|x l IH]; intros Hl; [reflexivity|].
  apply Forall_cons in Hl as [Hx Hl]. cbn [JsArray.sort].
  rewrite insert_stable; [|exact Hx|now apply sort_dated].
  cbn [List.filter]. now rewrite (IH Hl).
Qed.

End SortFacts.

(* ===================================================================== *)
(** ** Upcoming work: the result                                          *)
(* ===================================================================== *)

Section UpcomingResult.
Import Js Errors Client Mappers Tools Notions.
Context `{host : Host}.
#[local] Open Scope list_scope.

(** An entry either loop keeps has a finite due time when it has a due
    date, and [+Infinity] when it has none. *)
Lemma dueTime_undated (e : Assignment) :
  truthy_ostr (due_at e) = false -> dueTime e = PosInf.
Proof.
  unfold dueTime. destruct (due_at e) as [d|]; [|reflexivity].
  cbn. now intros ->.
Qed.

Lemma todo_entry_finite now rangeEnd item e :
  todo_entry now rangeEnd item = Some e -> exists q, dueTime e = Fin q.
Proof.
  unfold todo_entry. destruct (todo_assignment item) as [a|]; [|discriminate].
  cbv zeta. destruct (isWithinRange _ _ _) eqn:Hr; [|discriminate].
  intros H. injection H as <-.
  apply isWithinRange_finite in Hr as (d & q & Hd & Ht & Hp & _).
  exists q. unfold dueTime. cbn in *. now rewrite Hd, Ht, Hp.
Qed.

Lemma assignment_entry_finite now rangeEnd course a e :
  assignment_entry now rangeEnd course a = Some e ->
  truthy_ostr (due_at e) = true -> exists q, dueTime e = Fin q.
Proof.
  unfold assignment_entry.
  destruct (truthy_ostr (a_due_at a)) eqn:Ht; cbn [andb].
  - destruct (isWithinRange _ _ _) eqn:Hr; [|discriminate]. cbn [negb].
    intros H _. injection H as <-.
    apply isWithinRange_finite in Hr as (d & q & Hd & Htd & Hp & _).
    exists q. unfold dueTime. cbn. now rewrite Hd, Htd, Hp.
  - intros H. injection H as <-. cbn. congruence.
Qed.

Lemma entries_finite (G : AssignmentsCall) now rangeEnd items courses e :
  In e (todo_entries now rangeEnd items)
  \/ In e (assignment_entries G now rangeEnd 0 courses) ->
  truthy_ostr (due_at e) = true -> exists q, dueTime e = Fin q.
Proof.
  intros [H|H] Ht.
  - unfold todo_entries in H.
    apply list_elem_of_In, list_elem_of_omap in H as (item & _ & H).
    eapply todo_entry_finite, H.
  - revert H. generalize 0%nat.
    induction courses as [|course rest IH]; intros index; cbn; [tauto|].
    rewrite in_app_iff. intros [H|H]; [|eauto].
    destruct (G index course) as [r|err]; [|destruct H].
    apply list_elem_of_In, list_elem_of_omap in H as (a & _ & H).
    eapply assignment_entry_finite; eassumption.
Qed.

Lemma merged_dated (todos assignments : list Assignment) :
  (forall e, In e todos -> dated (dueTime e) = true) ->
  (forall e, In e assignments -> dated (dueTime e) = true) ->
  Forall (fun e => dated (dueTime e) = true)
    (JsMap.values (merged todos assignments)).
Proof.
  intros Ht Ha. apply Forall_forall. intros e He.
  apply list_elem_of_In, merged_values_incl in He as [He|He]; auto.
Qed.

Lemma sort_upcoming_perm (m : JsMap.t Assignment) :
  Permutation (sort_upcoming m) (JsMap.values m).
Proof. apply (sort_perm dueTime). Qed.

(** C2, amended: when the handler returns a list, no two entries of it
    have the same id; and for every id for which the to-do loop keeps an
    entry (a to-do item with an assignment whose due date is within the
    range), the list has exactly one entry with that id: the last entry
    the to-do feed has for it, tagged [todo] -- whatever the assignment
    feeds hold. *)
Theorem todo_entries_take_priority days now todoCall coursesCall
    (G : AssignmentsCall) upcoming meta warnings :
  list_upcoming days now todoCall coursesCall G = (Ok (upcoming, meta), warnings) ->
  exists todoResult,
    todoCall = Ok todoResult
    /\ NoDup (map item_id upcoming)
    /\ forall k e,
         last_with_id k (todo_entries now (range_end days now) (data todoResult))
           = Some e ->
         with_id k upcoming = [e] /\ item_id e = k /\ source e = Some todo.
Proof.
  intros Hrun.
  apply list_upcoming_returns in Hrun as (todoResult & coursesResult & -> & -> & ->).
  exists todoResult. split; [reflexivity|].
  set (TE := todo_entries now (range_end days now) (data todoResult)).
  set (AE := assignment_entries G now (range_end days now) 0 (data coursesResult)).
  destruct (merged_invariant TE AE) as [Hk Hn].
  split.
  - rewrite (Permutation_map item_id (sort_upcoming_perm (merged TE AE))).
    apply (values_ids_nodup _ Hk Hn).
  - intros k e Hlast.
    assert (Hget : JsMap.get (merged TE AE) k = Some e).
    { unfold merged. apply puts_if_absent_get. now rewrite puts_get, Hlast. }
    pose proof (with_id_values _ k Hk Hn) as Hv. rewrite Hget in Hv.
    unfold last_with_id in Hlast. apply find_some in Hlast as [Hin Hid].
    apply Z.eqb_eq in Hid.
    split; [|split; [exact Hid|]].
    + apply Permutation_length_1_inv. rewrite <- Hv. unfold with_id.
      apply filter_perm. symmetry. apply sort_upcoming_perm.
    + apply (todo_entries_source now (range_end days now) (data todoResult)).
      now apply in_rev.
Qed.

(** C6: when the handler returns a list, the list is in ascending order of
    the due times, an entry without a due date having the due time
    [+Infinity] and every other entry a finite one; it is a rearrangement
    of the values of the map in which entries with equal due times keep
    the order of the map; and the order of the map is: the entries of the
    to-do feed in the order their ids first come up, then the entries of
    the assignment feeds that bring a new id, in the order the loop over
    the courses meets them. *)
Theorem list_upcoming_sorted days now todoCall coursesCall
    (G : AssignmentsCall) upcoming meta warnings :
  list_upcoming days now todoCall coursesCall G = (Ok (upcoming, meta), warnings) ->
  exists todoResult coursesResult (T A : list Assignment),
    todoCall = Ok todoResult /\ coursesCall = Ok coursesResult
    /\ let TE := todo_entries now (range_end days now) (data todoResult) in
       let AE := assignment_entries G now (range_end days now) 0
                   (data coursesResult) in
       map item_id T = map item_id (fresh [] TE)
       /\ (forall e, In e T ->
             last_with_id (item_id e) TE = Some e /\ source e = Some todo)
       /\ A = fresh (map item_id T) AE
       /\ (forall e, In e A -> source e = Some assignment)
       /\ Permutation upcoming (T ++ A)
       /\ sorted_by_key dueTime upcoming
       /\ (forall e, In e upcoming ->
             if truthy_ostr (due_at e) then exists q, dueTime e = Fin q
             else dueTime e = PosInf)
       /\ (forall t,
             List.filter (fun e => due_eq (dueTime e) t) upcoming
             = List.filter (fun e => due_eq (dueTime e) t) (T ++ A)).
Proof.
  intros Hrun.
  apply list_upcoming_returns in Hrun as (todoResult & coursesResult & -> & -> & ->).
  set (TE := todo_entries now (range_end days now) (data todoResult)).
  set (AE := assignment_entries G now (range_end days now) 0 (data coursesResult)).
  set (m0 := fold_left put TE JsMap.empty).
  destruct (puts_invariant TE JsMap.empty) as [Hk0 Hn0]; [constructor..|].
  fold m0 in Hk0, Hn0.
  assert (Hkeys0 : JsMap.keys m0 = map item_id (fresh [] TE)).
  { unfold m0. now rewrite puts_keys. }
  assert (Hvals : JsMap.values (merged TE AE)
                  = JsMap.values m0 ++ fresh (JsMap.keys m0) AE).
  { unfold merged. fold m0. rewrite puts_if_absent_append. unfold JsMap.values.
    rewrite map_app, map_map. cbn [snd]. now rewrite map_id. }
  assert (Hids0 : map item_id (JsMap.values m0) = JsMap.keys m0).
  { clear -Hk0. unfold JsMap.keys, JsMap.values. rewrite map_map.
    induction m0 as [|kv m IH]; [reflexivity|].
    apply Forall_cons in Hk0 as [Hkv Hk]. cbn. now rewrite Hkv, (IH Hk). }
  assert (Hdated : Forall (fun e => dated (dueTime e) = true)
                     (JsMap.values (merged TE AE))).
  { apply merged_dated.
    - apply todo_entries_dated.
    - apply assignment_entries_dated. }
  exists todoResult, coursesResult, (JsMap.values m0), (fresh (JsMap.keys m0) AE).
  split; [reflexivity|]. split; [reflexivity|]. cbv zeta. fold TE AE.
  split; [now rewrite Hids0|].
  split.
  { intros e He. pose proof (values_get m0 Hn0 e He Hk0) as Hget.
    unfold m0 in Hget. rewrite puts_get in Hget.
    destruct (last_with_id (item_id e) TE) as [e'|] eqn:Hl; [|discriminate].
    injection Hget as ->. split; [reflexivity|].
    unfold last_with_id in Hl. apply find_some in Hl as [Hin _].
    apply (todo_entries_source now (range_end days now) (data todoResult)).
    now apply in_rev. }
  split; [now rewrite Hids0|].
  split.
  { intros e He. apply fresh_incl in He.
    eapply assignment_entries_source, He. }
  rewrite <- Hvals.
  split; [apply sort_upcoming_perm|].
  split; [apply (sort_sorted dueTime), Hdated|].
  split.
  { intros e He.
    apply (Permutation_in _ (sort_upcoming_perm _)) in He.
    apply merged_values_incl in He.
    destruct (truthy_ostr (due_at e)) eqn:Ht.
    - eapply entries_finite; eassumption.
    - now apply dueTime_undated. }
  intros t. apply (sort_stable dueTime), Hdated.
Qed.

(** The warnings of the handler are those of the loop over the courses. *)
Lemma list_upcoming_unfold days now todoResult coursesResult (G : AssignmentsCall) :
  exists st,
    fst (list_upcoming days now (Ok todoResult) (Ok coursesResult) G)
    = match fst (courses_loop G now (range_end days now) 0
                   (data coursesResult) st []) with
      | Ok st' =>
          if forallb upcomingItemSchema_ok (sort_upcoming (upcomingMap st'))
          then Ok (sort_upcoming (upcomingMap st'),
                   mkToolMeta (at_last (metaStatuses st'))
                     (at_last (metaRequestIds st')) (metaRequestIds st'))
          else Throw (EError "ZodError")
      | Throw e => Throw e
      end
    /\ snd (list_upcoming days now (Ok todoResult) (Ok coursesResult) G)
       = snd (courses_loop G now (range_end days now) 0 (data coursesResult) st [])
    /\ forall records,
         st = push_meta (with_data coursesResult records)
                (mkUpcoming
                   (fold_left (todo_step now (range_end days now))
                      (data todoResult) JsMap.empty)
                   (metaRequestIds (push_meta todoResult
                                      (mkUpcoming JsMap.empty [] [])))
                   (metaStatuses (push_meta todoResult
                                    (mkUpcoming JsMap.empty [] [])))).
Proof.
  exists (push_meta coursesResult
            (mkUpcoming
               (fold_left (todo_step now (range_end days now))
                  (data todoResult) JsMap.empty)
               (metaRequestIds (push_meta todoResult
                                  (mkUpcoming JsMap.empty [] [])))
               (metaStatuses (push_meta todoResult
                                (mkUpcoming JsMap.empty [] []))))).
  unfold list_upcoming. fold (range_end days now).
  split; [|split; [|intros records; reflexivity]].
  - destruct (courses_loop _ _ _ _ _ _ _) as [[st'|e] w]; [|reflexivity].
    cbn [fst]. destruct (forallb _ _); reflexivity.
  - destruct (courses_loop _ _ _ _ _ _ _) as [[st'|e] w]; [|reflexivity].
    cbn [snd]. destruct (forallb _ _); reflexivity.
Qed.

(** C8: in the loop over the courses, a course whose call fails with an
    authorization failure is skipped -- the handler ends as it does on the
    list without that course, and, once the loop gets to the course, with
    a warning that names it -- whereas a call that fails in any other way
    ends the handler with that failure. *)
Theorem one_course_unreadable days now todoResult coursesResult
    (G : AssignmentsCall) pre course post :
  data coursesResult = pre ++ course :: post ->
  (forall e,
     G (length pre) course = Throw (EApp e) -> code e = AUTHORIZATION_FAILED ->
     fst (list_upcoming days now (Ok todoResult) (Ok coursesResult) G)
     = fst (list_upcoming days now (Ok todoResult)
              (Ok (with_data coursesResult (pre ++ post)))
              (without_call (length pre) G))
     /\ ((forall j c, pre !! j = Some c -> tolerated G j c = true) ->
         In (mkWarning (raw_id course))
           (snd (list_upcoming days now (Ok todoResult) (Ok coursesResult) G))))
  /\ (forall err,
        G (length pre) course = Throw err ->
        is_authorization_failure err = false ->
        (forall j c, pre !! j = Some c -> tolerated G j c = true) ->
        fst (list_upcoming days now (Ok todoResult) (Ok coursesResult) G)
        = Throw err).
Proof.
  intros Hdata.
  destruct (list_upcoming_unfold days now todoResult coursesResult G)
    as (st & Hfst & Hsnd & Hst).
  rewrite Hdata in Hfst, Hsnd.
  split.
  - intros e Hcall Hcode. split.
    + destruct (list_upcoming_unfold days now todoResult
                  (with_data coursesResult (pre ++ post))
                  (without_call (length pre) G)) as (st2 & Hfst2 & _ & Hst2).
      assert (st2 = st).
      { rewrite (Hst2 (pre ++ post)), (Hst (pre ++ post)). reflexivity. }
      subst st2. rewrite Hfst, Hfst2. cbn [data with_data].
      now rewrite (courses_loop_skips G now _ pre course post st e Hcall Hcode).
    + intros Hpre. rewrite Hsnd, courses_loop_app.
      destruct (courses_loop_tolerated G now (range_end days now) pre 0 st [] Hpre)
        as (st' & w & ->).
      cbn [Nat.add courses_loop]. rewrite Hcall, Hcode. cbn [ErrorCode_eqb].
      rewrite courses_loop_warnings. cbn [snd].
      rewrite !in_app_iff. left. right. now left.
  - intros err Hcall Herr Hpre. rewrite Hfst.
    now rewrite (courses_loop_aborts G now _ pre course post st err Hpre Hcall Herr).
Qed.

End UpcomingResult.

(* ===================================================================== *)
(** ** Upcoming work: a run                                               *)
(* ===================================================================== *)

Section UpcomingRun.
Import Js Errors Client Mappers Tools Notions SampleHost.
#[local] Open Scope list_scope.

(** What the handler returns on the sample feeds. *)
Lemma sample_run :
  list_upcoming (host := sample) None 0 (answered sample_todos "req-t")
    (answered sample_courses "req-c") sample_assignments
  = (Ok (sample_upcoming, sample_meta), [mkWarning 2]).
Proof. reflexivity. Qed.

(** C2, as stated, fails on assignment 7: both feeds have it, the to-do
    loop drops it because it has no due date, the loop over the courses
    keeps it, and the one entry of the result with id 7 is tagged
    [assignment]. *)
Lemma undated_todo_gives_no_priority :
  In 7 (omap (fun item => a_id <$> todo_assignment item) sample_todos)
  /\ (exists r, sample_assignments 0%nat (mkCanvasCourse 1 (Some "Algebra")
                                       (Some "MAT-1") None) = Ok r
                /\ In 7 (map a_id (data r)))
  /\ list_upcoming (host := sample) None 0 (answered sample_todos "req-t")
       (answered sample_courses "req-c") sample_assignments
     = (Ok (sample_upcoming, sample_meta), [mkWarning 2])
  /\ with_id 7 sample_upcoming = [upcoming_item 7 None assignment]
  /\ source (upcoming_item 7 None assignment) <> Some todo.
Proof.
  split; [cbn; tauto|].
  split; [eexists; split; [reflexivity | cbn; tauto]|].
  split; [reflexivity|]. split; [reflexivity | discriminate].
Qed.

Lemma todo_entries_take_priority_witness :
  list_upcoming (host := sample) None 0 (answered sample_todos "req-t")
    (answered sample_courses "req-c") sample_assignments
  = (Ok (sample_upcoming, sample_meta), [mkWarning 2])
  /\ exists todoResult,
       answered sample_todos "req-t" = Ok todoResult
       /\ NoDup (map item_id sample_upcoming)
       /\ forall k e,
            last_with_id k (todo_entries (host := sample) 0 (range_end None 0)
                              (data todoResult)) = Some e ->
            with_id k sample_upcoming = [e] /\ item_id e = k
            /\ source e = Some todo.
Proof.
  split; [reflexivity|].
  exact (todo_entries_take_priority (host := sample) None 0
           (answered sample_todos "req-t") (answered sample_courses "req-c")
           sample_assignments sample_upcoming sample_meta [mkWarning 2]
           sample_run).
Defined.

Lemma list_upcoming_sorted_witness :
  list_upcoming (host := sample) None 0 (answered sample_todos "req-t")
    (answered sample_courses "req-c") sample_assignments
  = (Ok (sample_upcoming, sample_meta), [mkWarning 2])
  /\ exists todoResult coursesResult (T A : list Assignment),
       answered sample_todos "req-t" = Ok todoResult
       /\ answered sample_courses "req-c" = Ok coursesResult
       /\ let TE := todo_entries (host := sample) 0 (range_end None 0)
                      (data todoResult) in
          let AE := assignment_entries (host := sample) sample_assignments 0
                      (range_end None 0) 0 (data coursesResult) in
          map item_id T = map item_id (fresh [] TE)
          /\ (forall e, In e T ->
                last_with_id (item_id e) TE = Some e /\ source e = Some todo)
          /\ A = fresh (map item_id T) AE
          /\ (forall e, In e A -> source e = Some assignment)
          /\ Permutation sample_upcoming (T ++ A)
          /\ sorted_by_key (dueTime (host := sample)) sample_upcoming
          /\ (forall e, In e sample_upcoming ->
                if truthy_ostr (due_at e)
                then exists q, dueTime (host := sample) e = Fin q
                else dueTime (host := sample) e = PosInf)
          /\ (forall t,
                List.filter (fun e => due_eq (dueTime (host := sample) e) t)
                  sample_upcoming
                = List.filter (fun e => due_eq (dueTime (host := sample) e) t)
                    (T ++ A)).
Proof.
  split; [reflexivity|].
  exact (list_upcoming_sorted (host := sample) None 0
           (answered sample_todos "req-t") (answered sample_courses "req-c")
           sample_assignments sample_upcoming sample_meta [mkWarning 2]
           sample_run).
Defined.

Lemma one_course_unreadable_witness :
  let coursesResult := mkCanvasResult sample_courses 200 (Some "req-c") None in
  let todoResult := mkCanvasResult sample_todos 200 (Some "req-t") None in
  let pre := [mkCanvasCourse 1 (Some "Algebra") (Some "MAT-1") None] in
  let course := mkCanvasCourse 2 (Some "Biology") (Some "BIO-2") None in
  let post := [mkCanvasCourse 3 (Some "Chemistry") (Some "CHE-3") None] in
  data coursesResult = pre ++ course :: post
  /\ fst (list_upcoming (host := sample) None 0 (Ok todoResult)
            (Ok coursesResult) sample_assignments)
     = fst (list_upcoming (host := sample) None 0 (Ok todoResult)
              (Ok (with_data coursesResult (pre ++ post)))
              (without_call (length pre) sample_assignments))
  /\ In (mkWarning 2)
       (snd (list_upcoming (host := sample) None 0 (Ok todoResult)
               (Ok coursesResult) sample_assignments))
  /\ fst (list_upcoming (host := sample) None 0 (Ok todoResult)
            (Ok coursesResult) sample_assignments_500)
     = Throw (EApp (canvasError 500 (Some "req-c2") None None)).
Proof.
  intros coursesResult todoResult pre course post.
  assert (Hpre : forall G, tolerated G 0 (mkCanvasCourse 1 (Some "Algebra")
                                            (Some "MAT-1") None) = true ->
                 forall j c, pre !! j = Some c -> tolerated G j c = true).
  { intros G H0 [|j] c Hj; [injection Hj as <-; exact H0 | destruct j; discriminate]. }
  split; [reflexivity|].
  destruct (one_course_unreadable (host := sample) None 0 todoResult coursesResult
              sample_assignments pre course post eq_refl) as [Hskip _].
  destruct (Hskip (canvasError 403 (Some "req-c2") None None) eq_refl eq_refl)
    as [Hsame Hwarn].
  split; [exact Hsame|].
  split; [exact (Hwarn (Hpre sample_assignments eq_refl))|].
  destruct (one_course_unreadable (host := sample) None 0 todoResult coursesResult
              sample_assignments_500 pre course post eq_refl) as [_ Habort].
  exact (Habort _ eq_refl eq_refl (Hpre sample_assignments_500 eq_refl)).
Defined.

(** The two cases on the sample feeds: the second course answers 403 and
    is skipped; it answers 500 and the handler ends with that error. *)
Lemma sample_run_server_error :
  fst (list_upcoming (host := sample) None 0 (answered sample_todos "req-t")
         (answered sample_courses "req-c") sample_assignments_500)
  = Throw (EApp (canvasError 500 (Some "req-c2") None None)).
Proof. reflexivity. Qed.

End UpcomingRun.

(* ===================================================================== *)
(** ** Backoff without a hint                                             *)
(* ===================================================================== *)

Section Backoff.
Import Js Errors Auth Client Notions MoreNotions.
Context `{host : Host}.
#[local] Open Scope list_scope.

Lemma pow2_ge_1 (a : nat) : (1 <= inject_Z (2 ^ Z.of_nat a))%Q.
Proof.
  change 1%Q with (inject_Z 1). rewrite <- Zle_Qle.
  assert (0 < 2 ^ Z.of_nat a)%Z by (apply Z.pow_pos_nonneg; lia). lia.
Qed.

Lemma min_5000 (j : Q) :
  min (ofZ 5000) (Fin j) = if Qle_bool j 5000 then Fin j else Fin 5000.
Proof. reflexivity. Qed.

(** The delay computed without a hint, with [P = 2 ^ attempt]. *)
Lemma retryDelay_plain (attempt : nat) (h : option string) (now : Z) (random : Q) :
  parseRetryAfter h now = None ->
  (0 <= random)%Q -> (random < 1)%Q ->
  exists d : Q,
    retryDelay attempt h now random = Fin d
    /\ (0 < d)%Q
    /\ (d <= 5000)%Q
    /\ (Qmin 5000 (250 * inject_Z (2 ^ Z.of_nat attempt)) <= d)%Q
    /\ (d < 750 * inject_Z (2 ^ Z.of_nat attempt))%Q.
Proof.
  intros Hh H0 H1. unfold retryDelay. rewrite Hh.
  pose proof (pow2_ge_1 attempt) as HP.
  set (P := inject_Z (2 ^ Z.of_nat attempt)) in *.
  rewrite min_5000.
  assert (Hlo : (250 * P <= 500 * P * ((1 # 2) + random))%Q) by nra.
  assert (Hhi : (500 * P * ((1 # 2) + random) < 750 * P)%Q) by nra.
  destruct (Qle_bool (500 * P * ((1 # 2) + random)) 5000) eqn:Hle.
  - apply Qle_bool_iff in Hle. eexists. split; [reflexivity|].
    split; [lra|]. split; [exact Hle|]. split; [|exact Hhi].
    eapply Qle_trans; [apply Q.le_min_r|exact Hlo].
  - assert (Hgt : (5000 < 500 * P * ((1 # 2) + random))%Q).
    { apply Qnot_le_lt. intros Hc. apply Qle_bool_iff in Hc. congruence. }
    exists 5000%Q. split; [reflexivity|].
    split; [lra|]. split; [lra|]. split; [apply Q.le_min_l|lra].
Qed.

(** X1.  Without a usable [retry-after] hint, and with [Math.random()]
    in [[0, 1)], the delay before the retry that follows attempt number
    [attempt] lies between [250 * 2 ^ attempt] and [750 * 2 ^ attempt]
    milliseconds, both capped at 5000; from attempt 5 on it is exactly
    5000 ms. *)
Theorem backoff_delay_bounds (attempt : nat) (h : option string) (now : Z)
    (random : Q) :
  parseRetryAfter h now = None ->
  (0 <= random)%Q -> (random < 1)%Q ->
  exists d : Q,
    retryDelay attempt h now random = Fin d
    /\ (Qmin 5000 (250 * inject_Z (2 ^ Z.of_nat attempt)) <= d)%Q
    /\ (d <= Qmin 5000 (750 * inject_Z (2 ^ Z.of_nat attempt)))%Q
    /\ ((5 <= attempt)%nat -> (d == 5000)%Q).
Proof.
  intros Hh H0 H1.
  destruct (retryDelay_plain attempt h now random Hh H0 H1)
    as (d & Hd & Hpos & Hmax & Hlo & Hhi).
  exists d. split; [exact Hd|]. split; [exact Hlo|].
  split; [apply Q.min_glb; [exact Hmax|apply Qlt_le_weak; exact Hhi]|].
  intros H5. apply Qle_antisym; [exact Hmax|].
  eapply Qle_trans; [|exact Hlo]. apply Q.min_glb; [apply Qle_refl|].
  assert (Hp : (32 <= 2 ^ Z.of_nat attempt)%Z).
  { change 32%Z with (2 ^ 5)%Z. apply Z.pow_le_mono_r; lia. }
  rewrite Zle_Qle in Hp. change (inject_Z 32) with 32%Q in Hp. lra.
Qed.

End Backoff.

Section BackoffWaits.
Import Js Errors Auth Client Notions MoreNotions.
Context `{host : Host} {A : Type} `{auth : !CanvasAuthStrategy A}.
#[local] Open Scope list_scope.

Lemma sleeps_of_app (e1 e2 : list ClientEffect) :
  sleeps_of (e1 ++ e2) = sleeps_of e1 ++ sleeps_of e2.
Proof.
  induction e1 as [|[u k h|ms] e1 IH]; cbn; [reflexivity|exact IH|].
  now rewrite IH.
Qed.

Lemma plain_wait (attempt : nat) (h : option string) (now : Z) (random : Q) :
  parseRetryAfter h now = None ->
  Qle_bool 0 random = true -> Qle_bool 1 random = false ->
  short_wait (retryDelay attempt h now random) = true.
Proof.
  intros Hh H0 H1. apply Qle_bool_iff in H0.
  assert (Hlt : (random < 1)%Q).
  { apply Qnot_le_lt. intros Hc. apply Qle_bool_iff in Hc. congruence. }
  destruct (retryDelay_plain attempt h now random Hh H0 Hlt)
    as (d & -> & Hpos & Hmax & _).
  cbn. apply andb_true_iff. split.
  - apply negb_true_iff. destruct (Qle_bool d 0) eqn:E; [|reflexivity].
    apply Qle_bool_iff in E. lra.
  - now apply Qle_bool_iff.
Qed.

(** X2.  While the answers of the network carry no [retry-after] header
    (and [Math.random()] stays in [[0, 1)]), a logical request waits more
    than 0 and at most 5000 ms before each retry, and it waits at most
    once per retry that is left: at most [maxRetries - attempt] times. *)
Theorem backoff_waits_bounded (self : CanvasClient) (url : URL)
    (net : list FetchEvent) :
  forallb plain net = true ->
  forall (attempt : nat) (auth0 : A) r auth1 net' eff,
    fetchWithRetry self url attempt auth0 net = Some (r, auth1, net', eff) ->
    forallb short_wait (sleeps_of eff) = true
    /\ (length (sleeps_of eff) <= maxRetries self - attempt)%nat.
Proof.
  induction net as [|ev net IH]; intros Hplain attempt auth0 r auth1 net' eff Hrun.
  - cbn [fetchWithRetry] in Hrun.
    destruct (getAuthorizationHeader auth0) as [[[hdr|e] a1]|]; [discriminate| |discriminate].
    injection Hrun as <- <- <- <-. cbn. split; [reflexivity|lia].
  - cbn [forallb] in Hplain. apply andb_true_iff in Hplain as [Hev Hplain].
    specialize (IH Hplain).
    cbn [fetchWithRetry] in Hrun.
    destruct (getAuthorizationHeader auth0) as [[[hdr|e] a1]|]; [| |discriminate].
    2:{ injection Hrun as <- <- <- <-. cbn. split; [reflexivity|lia]. }
    unfold plain in Hev. apply andb_true_iff in Hev as [Hev Hhint].
    apply andb_true_iff in Hev as [H0 H1]. apply negb_true_iff in H1.
    assert (Hagain : forall a2 sleeps,
      forallb short_wait (sleeps_of sleeps) = true ->
      (length (sleeps_of sleeps) <= 1)%nat ->
      (attempt < maxRetries self)%nat ->
      match fetchWithRetry self url (S attempt) a2 net with
      | Some (r0, auth3, net'', eff0) =>
          Some (r0, auth3, net'', Request url attempt hdr :: sleeps ++ eff0)
      | None => None
      end = Some (r, auth1, net', eff) ->
      forallb short_wait (sleeps_of eff) = true
      /\ (length (sleeps_of eff) <= maxRetries self - attempt)%nat).
    { intros a2 sleeps Hshort Hlen Hlt Hrec.
      destruct (fetchWithRetry self url (S attempt) a2 net)
        as [[[[r0 a3] n3] e3]|] eqn:Hcall; [|discriminate].
      injection Hrec as <- <- <- <-.
      destruct (IH _ _ _ _ _ _ Hcall) as [Hs Hl].
      cbn [sleeps_of]. rewrite sleeps_of_app, forallb_app, length_app, Hshort, Hs.
      split; [reflexivity|lia]. }
    assert (Hone : forall (r0 : Result JsError Response) (a2 : A),
      Some (r0, a2, net, [Request url attempt hdr]) = Some (r, auth1, net', eff) ->
      forallb short_wait (sleeps_of eff) = true
      /\ (length (sleeps_of eff) <= maxRetries self - attempt)%nat).
    { intros r0 a2 Heq. injection Heq as <- <- <- <-. cbn. split; [reflexivity|lia]. }
    assert (Hwait : forall h, parseRetryAfter h (ev_now ev) = None ->
      forallb short_wait
        (sleeps_of [Sleep (retryDelay attempt h (ev_now ev) (ev_random ev))]) = true
      /\ (length (sleeps_of
            [Sleep (retryDelay attempt h (ev_now ev) (ev_random ev))]) <= 1)%nat).
    { intros h Hh. cbn. rewrite (plain_wait _ _ _ _ Hh H0 H1). split; [reflexivity|lia]. }
    destruct (ev_outcome ev) as [msg|response] eqn:Hout.
    + destruct (maxRetries self <=? attempt)%nat eqn:Hle.
      * apply (Hone _ _ Hrun).
      * apply Nat.leb_gt in Hle.
        destruct (Hwait None eq_refl) as [Hw1 Hw2].
        eapply Hagain; [exact Hw1|exact Hw2|exact Hle|exact Hrun].
    + destruct (retry_after response) as [hint|] eqn:Hra; [discriminate|].
      destruct (Hwait None eq_refl) as [Hw1 Hw2].
      destruct (resp_status response =? 401) eqn:H401.
      * destruct (handleUnauthorized a1) as [[[refreshed|e] a2]|]; [| |discriminate].
        -- destruct (attempt <? maxRetries self)%nat eqn:Hlt.
           ++ apply Nat.ltb_lt in Hlt.
              destruct refreshed; cbn [andb] in Hrun.
              ** eapply Hagain; [| |exact Hlt|exact Hrun]; cbn; [reflexivity|lia].
              ** destruct (shouldRetry (resp_status response)); cbn [andb] in Hrun.
                 --- eapply Hagain; [exact Hw1|exact Hw2|exact Hlt|exact Hrun].
                 --- apply (Hone _ _ Hrun).
           ++ rewrite andb_false_r in Hrun. rewrite andb_false_r in Hrun.
              apply (Hone _ _ Hrun).
        -- destruct (maxRetries self <=? attempt)%nat eqn:Hle.
           ++ apply (Hone _ _ Hrun).
           ++ apply Nat.leb_gt in Hle.
              eapply Hagain; [exact Hw1|exact Hw2|exact Hle|exact Hrun].
      * destruct (attempt <? maxRetries self)%nat eqn:Hlt.
        -- apply Nat.ltb_lt in Hlt.
           destruct (shouldRetry (resp_status response)); cbn [andb] in Hrun.
           ++ eapply Hagain; [exact Hw1|exact Hw2|exact Hlt|exact Hrun].
           ++ apply (Hone _ _ Hrun).
        -- rewrite andb_false_r in Hrun. apply (Hone _ _ Hrun).
Qed.

End BackoffWaits.

Section BackoffSample.
Import Js Errors Auth Client Notions MoreNotions SampleHost MoreSamples.
#[local] Open Scope list_scope.

Lemma backoff_delay_bounds_witness :
  (parseRetryAfter (host := sample) None 0 = None
   /\ (0 <= 1 # 2)%Q /\ (1 # 2 < 1)%Q)
  /\ exists d : Q,
       retryDelay (host := sample) 2 None 0 (1 # 2) = Fin d
       /\ (Qmin 5000 (250 * inject_Z (2 ^ Z.of_nat 2)) <= d)%Q
       /\ (d <= Qmin 5000 (750 * inject_Z (2 ^ Z.of_nat 2)))%Q
       /\ ((5 <= 2)%nat -> (d == 5000)%Q).
Proof.
  split.
  - split; [reflexivity|]. split; unfold Qle, Qlt; cbn; lia.
  - apply (backoff_delay_bounds (host := sample) 2 None 0 (1 # 2)).
    + reflexivity.
    + unfold Qle; cbn; lia.
    + unfold Qlt; cbn; lia.
Defined.

End BackoffSample.

(* ===================================================================== *)
(** ** Failures of a logical request, with a personal access token        *)
(* ===================================================================== *)

Section PatFailures.
Import Js Errors Auth Client Notions MoreNotions.
Context `{host : Host}.
#[local] Open Scope list_scope.

(** After answers that call for a retry have used up the budget, the next
    answer ends the logical request whatever it is: a response is handed
    back, a transport error is thrown as it is. *)
Lemma fetchWithRetry_last_answer (self : CanvasClient) (url : URL)
    (pat : PersonalAccessTokenAuth) (ev : FetchEvent) (rest : list FetchEvent)
    (fails : list FetchEvent) :
  forall attempt : nat,
    (attempt + length fails = maxRetries self)%nat ->
    forallb retryable fails = true ->
    exists eff,
      fetchWithRetry self url attempt pat (fails ++ ev :: rest)
      = Some (last_outcome ev, pat, rest, eff)
      /\ requests_of eff = numbered url attempt (S (length fails))
      /\ length (sleeps_of eff) = length fails.
Proof.
  induction fails as [|ev' fails IH]; intros attempt Hk Hfails.
  - cbn [length] in Hk. rewrite Nat.add_0_r in Hk.
    assert (Hlt : (attempt <? maxRetries self)%nat = false)
      by (apply Nat.ltb_ge; lia).
    assert (Hle : (maxRetries self <=? attempt)%nat = true)
      by (apply Nat.leb_le; lia).
    cbn [app fetchWithRetry getAuthorizationHeader handleUnauthorized
         PersonalAccessTokenAuth_strategy pat_getAuthorizationHeader
         pat_handleUnauthorized].
    unfold last_outcome.
    destruct (ev_outcome ev) as [msg|r].
    + rewrite Hle. eexists. split; [reflexivity|]. split; reflexivity.
    + rewrite Hlt, !andb_false_r. cbn [andb].
      destruct (resp_status r =? 401);
        (eexists; split; [reflexivity|]; split; reflexivity).
  - cbn [forallb] in Hfails. apply andb_true_iff in Hfails as [Hev Hfails].
    cbn [length] in Hk.
    destruct (IH (S attempt)) as (eff & Hrun & Hreq & Hsl); [lia|assumption|].
    assert (Hlt : (attempt <? maxRetries self)%nat = true)
      by (apply Nat.ltb_lt; lia).
    assert (Hle : (maxRetries self <=? attempt)%nat = false)
      by (apply Nat.leb_gt; lia).
    cbn [app fetchWithRetry getAuthorizationHeader
         PersonalAccessTokenAuth_strategy pat_getAuthorizationHeader].
    unfold retryable in Hev.
    destruct (ev_outcome ev') as [msg|r].
    + rewrite Hle, Hrun. eexists. split; [reflexivity|].
      cbn [requests_of sleeps_of app length]. rewrite Hreq, Hsl.
      split; reflexivity.
    + assert (H401 : (resp_status r =? 401) = false).
      { unfold shouldRetry in Hev. apply Z.eqb_neq. intros E. rewrite E in Hev.
        discriminate. }
      rewrite H401, Hev, Hlt. cbn [andb]. rewrite Hrun.
      eexists. split; [reflexivity|].
      cbn [requests_of sleeps_of app length]. rewrite Hreq, Hsl.
      split; reflexivity.
Qed.

(** A response that calls for no retry ends the logical request at once;
    with a personal access token this includes a 401. *)
Lemma fetchWithRetry_single (self : CanvasClient) (url : URL)
    (pat : PersonalAccessTokenAuth) (response : Response) (now : Z) (random : Q)
    (rest : list FetchEvent) (attempt : nat) :
  shouldRetry (resp_status response) = false ->
  fetchWithRetry self url attempt pat
    (mkFetchEvent (FetchResponds response) now random :: rest)
  = Some (Ok response, pat, rest,
          [Request url attempt ("Bearer " ++ token pat)%string]).
Proof.
  intros Hno.
  cbn [fetchWithRetry getAuthorizationHeader handleUnauthorized
       PersonalAccessTokenAuth_strategy pat_getAuthorizationHeader
       pat_handleUnauthorized ev_outcome].
  rewrite Hno. cbn [andb]. now destruct (resp_status response =? 401).
Qed.

Lemma handleResponse_failure (response : Response) :
  resp_ok response = false ->
  handleResponse response = Throw (EApp (failure_of response)).
Proof.
  intros Hok. unfold handleResponse, parsePayload, failure_of, failure_payload.
  destruct (body response); rewrite Hok; reflexivity.
Qed.

Lemma shouldRetry_not_ok (response : Response) :
  shouldRetry (resp_status response) = true -> resp_ok response = false.
Proof.
  unfold shouldRetry, resp_ok. intros H.
  apply orb_true_iff in H as [H|H].
  - apply Z.eqb_eq in H. rewrite H. reflexivity.
  - apply andb_true_iff in H as [H _]. apply Z.geb_le in H.
    apply andb_false_iff. right. apply Z.leb_gt. lia.
Qed.

(** X3.  With a personal access token, a response whose status is neither
    2xx nor 429 nor 5xx (a 401 included) fails the request at once: one
    physical request, no wait, and the error is the classification of
    that response, of a kind other than RATE_LIMITED and UNKNOWN. *)
Theorem failed_status_not_retried (self : CanvasClient) (path : string)
    (params : option (list (string * ParamValue)))
    (pat : PersonalAccessTokenAuth) (url : URL) (response : Response)
    (now : Z) (random : Q) (rest : list FetchEvent) :
  buildUrl (baseUrl self) path params = Some url ->
  resp_ok response = false ->
  shouldRetry (resp_status response) = false ->
  get self path params pat
    (mkFetchEvent (FetchResponds response) now random :: rest)
  = Some (Throw (EApp (failure_of response)), pat, rest,
          [Request url 0 ("Bearer " ++ token pat)%string])
  /\ code (failure_of response)
     = (if resp_status response =? 400 then BAD_REQUEST
        else if (resp_status response =? 401) || (resp_status response =? 403)
             then AUTHORIZATION_FAILED
        else if resp_status response =? 404 then NOT_FOUND
        else CANVAS_UNAVAILABLE)
  /\ (canvasStatus <$> Errors.data (failure_of response))
     = Some (Some (resp_status response))
  /\ (Errors.requestId <$> Errors.data (failure_of response))
     = Some (x_request_id response).
Proof.
  intros Hurl Hok Hno. split.
  - unfold get. rewrite Hurl, (fetchWithRetry_single _ _ _ _ _ _ _ _ Hno).
    now rewrite handleResponse_failure.
  - split; [|split; reflexivity].
    unfold failure_of. rewrite canvasError_code, STATUS_TO_CODE_lookup.
    unfold shouldRetry in Hno. apply orb_false_iff in Hno as [H429 _].
    rewrite H429.
    destruct (resp_status response =? 400); [reflexivity|].
    destruct (resp_status response =? 401); [reflexivity|].
    destruct (resp_status response =? 403); [reflexivity|].
    destruct (resp_status response =? 404); reflexivity.
Qed.

(** X4.  When [maxRetries] answers that call for a retry are followed by
    a transport failure, [get] has made [maxRetries + 1] physical
    requests and waited [maxRetries] times, and it throws the error of
    the last [fetch] as it is: a plain [Error], not an [AppError]. *)
Theorem transport_failure_exhausts (self : CanvasClient) (path : string)
    (params : option (list (string * ParamValue)))
    (pat : PersonalAccessTokenAuth) (url : URL) (fails : list FetchEvent)
    (msg : string) (now : Z) (random : Q) (rest : list FetchEvent) :
  buildUrl (baseUrl self) path params = Some url ->
  length fails = maxRetries self ->
  forallb retryable fails = true ->
  exists eff,
    get self path params pat
      (fails ++ mkFetchEvent (FetchFails msg) now random :: rest)
    = Some (Throw (EError msg), pat, rest, eff)
    /\ requests_of eff = numbered url 0 (S (maxRetries self))
    /\ length (sleeps_of eff) = maxRetries self.
Proof.
  intros Hurl Hlen Hfails.
  destruct (fetchWithRetry_last_answer self url pat
              (mkFetchEvent (FetchFails msg) now random) rest fails 0%nat)
    as (eff & Hrun & Hreq & Hsl); [lia|assumption|].
  exists eff. unfold get. rewrite Hurl, Hrun. cbn [last_outcome ev_outcome].
  rewrite Hreq, Hsl, Hlen. repeat split.
Qed.

(** X5.  A 429 or a 5xx that persists: after [maxRetries] answers that
    call for a retry, a further 429 or 5xx response is not retried;
    [get] has made [maxRetries + 1] physical requests and throws the
    classification of that last response, RATE_LIMITED (HTTP 429) for a
    429 and CANVAS_UNAVAILABLE (HTTP 503) for a 5xx, with the status and
    the request id of the last response. *)
Theorem persistent_status_surfaces (self : CanvasClient) (path : string)
    (params : option (list (string * ParamValue)))
    (pat : PersonalAccessTokenAuth) (url : URL) (fails : list FetchEvent)
    (response : Response) (now : Z) (random : Q) (rest : list FetchEvent) :
  buildUrl (baseUrl self) path params = Some url ->
  length fails = maxRetries self ->
  forallb retryable fails = true ->
  shouldRetry (resp_status response) = true ->
  (exists eff,
     get self path params pat
       (fails ++ mkFetchEvent (FetchResponds response) now random :: rest)
     = Some (Throw (EApp (failure_of response)), pat, rest, eff)
     /\ requests_of eff = numbered url 0 (S (maxRetries self)))
  /\ code (failure_of response)
     = (if resp_status response =? 429 then RATE_LIMITED else CANVAS_UNAVAILABLE)
  /\ httpStatus (failure_of response)
     = (if resp_status response =? 429 then 429 else 503)
  /\ (canvasStatus <$> Errors.data (failure_of response))
     = Some (Some (resp_status response))
  /\ (Errors.requestId <$> Errors.data (failure_of response))
     = Some (x_request_id response).
Proof.
  intros Hurl Hlen Hfails Hretry. split.
  - destruct (fetchWithRetry_last_answer self url pat
                (mkFetchEvent (FetchResponds response) now random) rest fails 0%nat)
      as (eff & Hrun & Hreq & _); [lia|assumption|].
    exists eff. unfold get. rewrite Hurl, Hrun. cbn [last_outcome ev_outcome].
    rewrite handleResponse_failure by now apply shouldRetry_not_ok.
    rewrite Hreq, Hlen. split; reflexivity.
  - assert (Hcases : resp_status response = 429
                     \/ (500 <= resp_status response < 600)).
    { unfold shouldRetry in Hretry. apply orb_true_iff in Hretry as [H|H].
      - left. now apply Z.eqb_eq.
      - right. apply andb_true_iff in H as [H1 H2].
        apply Z.geb_le in H1. apply Z.ltb_lt in H2. lia. }
    unfold failure_of, canvasError.
    cbn [code httpStatus Errors.data canvasStatus Errors.requestId fmap option_fmap option_map].
    rewrite STATUS_TO_CODE_lookup.
    destruct Hcases as [E|[Hlo Hhi]].
    + rewrite E. repeat split.
    + assert (H400 : (resp_status response =? 400) = false) by (apply Z.eqb_neq; lia).
      assert (H401 : (resp_status response =? 401) = false) by (apply Z.eqb_neq; lia).
      assert (H403 : (resp_status response =? 403) = false) by (apply Z.eqb_neq; lia).
      assert (H404 : (resp_status response =? 404) = false) by (apply Z.eqb_neq; lia).
      assert (H429 : (resp_status response =? 429) = false) by (apply Z.eqb_neq; lia).
      rewrite H400, H401, H403, H404, H429. cbn [default ErrorCode_eqb].
      repeat split.
Qed.

End PatFailures.

Section PatFailureRuns.
Import Js Errors Auth Client Notions MoreNotions SampleHost MoreSamples.
#[local] Open Scope list_scope.

Lemma backoff_waits_bounded_witness :
  let net := [answer busy; answer page_two] in
  let eff :=
    [Request (host := sample) "/api/v1/courses" 0 "Bearer test-pat";
     Sleep (retryDelay (host := sample) 0 None 0 (1 # 2));
     Request (host := sample) "/api/v1/courses" 1 "Bearer test-pat"] in
  (forallb plain net = true
   /\ fetchWithRetry (host := sample) sample_client "/api/v1/courses" 0
        sample_pat net = Some (Ok page_two, sample_pat, [], eff))
  /\ forallb short_wait (sleeps_of eff) = true
  /\ (length (sleeps_of eff) <= maxRetries sample_client - 0)%nat.
Proof.
  split; [split; reflexivity|].
  apply (backoff_waits_bounded (host := sample) (A := PersonalAccessTokenAuth)
           sample_client "/api/v1/courses" [answer busy; answer page_two]
           eq_refl 0%nat sample_pat (Ok page_two) sample_pat []).
  reflexivity.
Defined.

Lemma failed_status_not_retried_witness :
  let url := "https://canvas.example.com/api/v1/courses/9" in
  (buildUrl (host := sample) (baseUrl sample_client) "/api/v1/courses/9" None
   = Some url
   /\ resp_ok not_found = false
   /\ shouldRetry (resp_status not_found) = false)
  /\ get (host := sample) sample_client "/api/v1/courses/9" None sample_pat
       [answer not_found; answer page_two]
     = Some (Throw (EApp (failure_of not_found)), sample_pat, [answer page_two],
             [Request (host := sample) url 0 "Bearer test-pat"])
  /\ code (failure_of not_found) = NOT_FOUND
  /\ message (failure_of not_found) = "no such course".
Proof.
  split; [repeat split; reflexivity|].
  destruct (failed_status_not_retried (host := sample) sample_client
              "/api/v1/courses/9" None sample_pat
              "https://canvas.example.com/api/v1/courses/9" not_found 0 (1 # 2)
              [answer page_two] eq_refl eq_refl eq_refl) as (Hrun & Hcode & _).
  split; [exact Hrun|]. split; [exact Hcode|reflexivity].
Defined.

Lemma transport_failure_exhausts_witness :
  let url := "https://canvas.example.com/api/v1/courses" in
  let fails := [failure "ECONNRESET"; answer busy; failure "ECONNRESET"] in
  (buildUrl (host := sample) (baseUrl sample_client) "/api/v1/courses" None
   = Some url
   /\ length fails = maxRetries sample_client
   /\ forallb retryable fails = true)
  /\ exists eff,
       get (host := sample) sample_client "/api/v1/courses" None sample_pat
         (fails ++ [failure "ETIMEDOUT"; answer page_two])
       = Some (Throw (EError "ETIMEDOUT"), sample_pat, [answer page_two], eff)
       /\ requests_of eff = numbered (host := sample) url 0 4
       /\ length (sleeps_of eff) = 3%nat.
Proof.
  split; [repeat split; reflexivity|].
  apply (transport_failure_exhausts (host := sample) sample_client
           "/api/v1/courses" None sample_pat
           "https://canvas.example.com/api/v1/courses"
           [failure "ECONNRESET"; answer busy; failure "ECONNRESET"]
           "ETIMEDOUT" 0 (1 # 2) [answer page_two]); reflexivity.
Defined.

Lemma persistent_status_surfaces_witness :
  let url := "https://canvas.example.com/api/v1/courses" in
  let fails := repeat (answer busy) 3 in
  (buildUrl (host := sample) (baseUrl sample_client) "/api/v1/courses" None
   = Some url
   /\ length fails = maxRetries sample_client
   /\ forallb retryable fails = true
   /\ shouldRetry (resp_status busy) = true)
  /\ (exists eff,
        get (host := sample) sample_client "/api/v1/courses" None sample_pat
          (fails ++ [answer busy; answer page_two])
        = Some (Throw (EApp (failure_of busy)), sample_pat, [answer page_two], eff)
        /\ requests_of eff = numbered (host := sample) url 0 4)
  /\ code (failure_of busy) = CANVAS_UNAVAILABLE
  /\ httpStatus (failure_of busy) = 503
  /\ (canvasStatus <$> Errors.data (failure_of busy)) = Some (Some 503)
  /\ (Errors.requestId <$> Errors.data (failure_of busy)) = Some (Some "req-busy").
Proof.
  split; [repeat split; reflexivity|].
  apply (persistent_status_surfaces (host := sample) sample_client
           "/api/v1/courses" None sample_pat
           "https://canvas.example.com/api/v1/courses"
           (repeat (answer busy) 3) busy 0 (1 # 2) [answer page_two]);
    reflexivity.
Defined.

End PatFailureRuns.

(* ===================================================================== *)
(** ** The refreshable credential                                         *)
(* ===================================================================== *)

Section OAuthRefresh.
Import Js Errors Auth Notions MoreNotions.
#[local] Open Scope list_scope.

(** The state after a refresh that returns tokens with a lifetime of at
    least 60 seconds. *)
Lemma performRefresh_known_expiry self force ev status payload (e : Q) :
  tok_outcome ev = TokenHttp status (Some payload) ->
  response_ok status = true ->
  expires_in payload = Some (Fin e) ->
  (60 <= e)%Q ->
  tokenExpiresAt (snd (fst (performRefresh self force ev)))
  = Some (Fin (inject_Z (tok_now ev) + (e - inject_Z 60) * 1000)).
Proof.
  intros Hout Hok He H60. unfold performRefresh. rewrite Hout, Hok. cbn [negb].
  rewrite He. cbn [snd fst tokenExpiresAt truthy isFinite andb].
  assert (Hnz : Qeq_bool e 0 = false).
  { destruct (Qeq_bool e 0) eqn:E; [|reflexivity].
    apply Qeq_bool_iff in E. lra. }
  rewrite Hnz. cbn [negb sub ofZ max ge].
  assert (Hge : Qle_bool (inject_Z 0) (e - inject_Z 60) = true).
  { apply Qle_bool_iff. change (inject_Z 0) with 0%Q.
    change (inject_Z 60) with 60%Q. lra. }
  rewrite Hge. reflexivity.
Qed.

(** X6.  After a refresh that reports a lifetime of [e >= 60] seconds at
    the instant [t0], the strategy judges the token due for a refresh
    from [t0 + (e - 120) * 1000] ms on and not before: the margin of 60 s
    is taken off twice, once when the expiry is stored and once when it
    is tested.  So a token with a lifetime of at most 120 s is due again
    at every later call. *)
Theorem refresh_due_120s_early self force ev status payload (e : Q) :
  tok_outcome ev = TokenHttp status (Some payload) ->
  response_ok status = true ->
  expires_in payload = Some (Fin e) ->
  (60 <= e)%Q ->
  0 < tok_now ev ->
  let self' := snd (fst (performRefresh self force ev)) in
  (forall now : Z,
     shouldRefreshSoon self' now = true
     <-> (inject_Z (tok_now ev) + (e - 120) * 1000 <= inject_Z now)%Q)
  /\ ((e <= 120)%Q ->
      forall now : Z, tok_now ev <= now -> shouldRefreshSoon self' now = true).
Proof.
  intros Hout Hok He H60 Hpos self'.
  assert (Ht0 : (0 < inject_Z (tok_now ev))%Q).
  { change 0%Q with (inject_Z 0). rewrite <- Zlt_Qlt. exact Hpos. }
  assert (Hiff : forall now : Z,
    shouldRefreshSoon self' now = true
    <-> (inject_Z (tok_now ev) + (e - 120) * 1000 <= inject_Z now)%Q).
  { intros now. unfold shouldRefreshSoon, self'.
    rewrite (performRefresh_known_expiry self force ev status payload e Hout Hok He H60).
    cbn [truthy].
    assert (Hnz : Qeq_bool (inject_Z (tok_now ev) + (e - inject_Z 60) * 1000) 0 = false).
    { destruct (Qeq_bool _ 0) eqn:E; [|reflexivity].
      apply Qeq_bool_iff in E. change (inject_Z 60) with 60%Q in E. lra. }
    rewrite Hnz. cbn [negb sub ofZ ge]. rewrite Qle_bool_iff.
    change (inject_Z 60) with 60%Q. change (inject_Z 60000) with 60000%Q.
    split; intros H; lra. }
  split; [exact Hiff|].
  intros H120 now Hnow. apply Hiff.
  rewrite Zle_Qle in Hnow. lra.
Qed.

Lemma refresh_due_120s_early_witness :
  let self := MoreSamples.sample_oauth in
  let payload := mkTokenPayload (Some "tok-1") None (Some (Fin 3600)) in
  let ev := mkTokenEvent (TokenHttp 200 (Some payload)) 1000 in
  (tok_outcome ev = TokenHttp 200 (Some payload)
   /\ response_ok 200 = true
   /\ expires_in payload = Some (Fin 3600)
   /\ (60 <= 3600)%Q
   /\ 0 < tok_now ev)
  /\ let self' := snd (fst (performRefresh self false ev)) in
     (forall now : Z,
        shouldRefreshSoon self' now = true
        <-> (inject_Z (tok_now ev) + (3600 - 120) * 1000 <= inject_Z now)%Q)
     /\ ((3600 <= 120)%Q ->
         forall now : Z, tok_now ev <= now -> shouldRefreshSoon self' now = true).
Proof.
  split.
  - split; [reflexivity|]. split; [reflexivity|]. split; [reflexivity|].
    split; [unfold Qle; cbn; lia|reflexivity].
  - apply (refresh_due_120s_early MoreSamples.sample_oauth false
             (mkTokenEvent
                (TokenHttp 200
                   (Some (mkTokenPayload (Some "tok-1") None (Some (Fin 3600)))))
                1000)
             200 (mkTokenPayload (Some "tok-1") None (Some (Fin 3600))) 3600).
    + reflexivity.
    + reflexivity.
    + reflexivity.
    + unfold Qle; cbn; lia.
    + reflexivity.
Defined.

Lemma performRefresh_fails self force ev :
  refresh_fails ev = true ->
  exists msg sleeps,
    performRefresh self force ev
    = (Throw (EError msg), self,
       TokenRequest (refreshToken self) (clientId self)
         (if truthy_str (clientSecret self) then Some (clientSecret self)
          else None) :: sleeps)
    /\ (sleeps = [] \/ (force = false /\ sleeps = [AuthSleep 300])).
Proof.
  unfold refresh_fails, performRefresh. intros Hf.
  destruct (tok_outcome ev) as [msg|status body].
  - eexists. exists []. split; [reflexivity|now left].
  - destruct (response_ok status); cbn [negb orb] in Hf |- *.
    + destruct body; [discriminate|].
      eexists. exists []. split; [reflexivity|now left].
    + eexists. eexists. split; [reflexivity|].
      destruct force; cbn [negb]; [now left|now right].
Qed.

(** X7.  When [getAuthorizationHeader] has to refresh (the stored expiry
    is near, or there is no access token) and the token endpoint does not
    deliver (transport failure, a status outside 2xx, or a body that is
    not JSON), the call throws after one token request; it never answers
    with the stale token, and the strategy is left as it was.  The same
    holds for [handleUnauthorized], which does not wait. *)
Theorem failed_refresh_gives_no_header self now ev endpoint :
  refresh_due self now = true ->
  refresh_fails ev = true ->
  (exists e sleeps,
     oauth_getAuthorizationHeader self now (ev :: endpoint)
     = Some (Throw e, self, endpoint,
             TokenRequest (refreshToken self) (clientId self)
               (if truthy_str (clientSecret self) then Some (clientSecret self)
                else None) :: sleeps)
     /\ (sleeps = [] \/ sleeps = [AuthSleep 300]))
  /\ (exists e,
        oauth_handleUnauthorized self (ev :: endpoint)
        = Some (Throw e, self, endpoint,
                [TokenRequest (refreshToken self) (clientId self)
                   (if truthy_str (clientSecret self) then Some (clientSecret self)
                    else None)])).
Proof.
  intros Hdue Hfails. split.
  - destruct (performRefresh_fails self false ev Hfails) as (msg & sleeps & Hp & Hs).
    exists (EError msg), sleeps. split.
    + unfold oauth_getAuthorizationHeader, refreshTokenPair.
      unfold refresh_due in Hdue.
      destruct (shouldRefreshSoon self now).
      * rewrite Hp. reflexivity.
      * cbn [orb] in Hdue. rewrite Hdue, Hp. reflexivity.
    + destruct Hs as [->|[_ ->]]; [now left|now right].
  - destruct (performRefresh_fails self true ev Hfails) as (msg & sleeps & Hp & Hs).
    exists (EError msg). unfold oauth_handleUnauthorized, refreshTokenPair. rewrite Hp.
    destruct Hs as [->|[Hc _]]; [reflexivity|discriminate].
Qed.

Lemma failed_refresh_gives_no_header_witness :
  let self := mkOAuth (Some "tok-0") "https://canvas.example.com" "client"
                "secret" "r0" (Some (ofZ 61000)) in
  let ev := mkTokenEvent (TokenHttp 500 None) 1000 in
  (refresh_due self 1000 = true /\ refresh_fails ev = true)
  /\ (exists e sleeps,
        oauth_getAuthorizationHeader self 1000 [ev]
        = Some (Throw e, self, [],
                TokenRequest "r0" "client" (Some "secret") :: sleeps)
        /\ (sleeps = [] \/ sleeps = [AuthSleep 300]))
  /\ (exists e,
        oauth_handleUnauthorized self [ev]
        = Some (Throw e, self, [], [TokenRequest "r0" "client" (Some "secret")])).
Proof.
  split; [split; reflexivity|].
  apply (failed_refresh_gives_no_header
           (mkOAuth (Some "tok-0") "https://canvas.example.com" "client"
              "secret" "r0" (Some (ofZ 61000)))
           1000 (mkTokenEvent (TokenHttp 500 None) 1000) []); reflexivity.
Defined.

(** The state after a refresh that returns tokens. *)
Lemma performRefresh_tokens self force ev status payload :
  tok_outcome ev = TokenHttp status (Some payload) ->
  response_ok status = true ->
  exists self',
    performRefresh self force ev
    = (Ok tt, self',
       [TokenRequest (refreshToken self) (clientId self)
          (if truthy_str (clientSecret self) then Some (clientSecret self)
           else None)])
    /\ accessToken self' = access_token payload
    /\ refreshToken self'
       = (if truthy_ostr (refresh_token payload)
          then default "" (refresh_token payload) else refreshToken self)
    /\ clientId self' = clientId self
    /\ clientSecret self' = clientSecret self
    /\ baseUrl self' = baseUrl self.
Proof.
  intros Hout Hok. unfold performRefresh. rewrite Hout, Hok. cbn [negb].
  eexists. split; [reflexivity|].
  destruct (refresh_token payload) as [[|c r]|]; cbn; repeat split.
Qed.

(** [handleUnauthorized] always sends a token request first, with the
    refresh token and the client credentials of the strategy. *)
Lemma handleUnauthorized_request self ev endpoint :
  exists r self' sleeps,
    oauth_handleUnauthorized self (ev :: endpoint)
    = Some (r, self', endpoint,
            TokenRequest (refreshToken self) (clientId self)
              (if truthy_str (clientSecret self) then Some (clientSecret self)
               else None) :: sleeps).
Proof.
  unfold oauth_handleUnauthorized, refreshTokenPair, performRefresh.
  destruct (tok_outcome ev) as [msg|status body].
  - do 3 eexists. reflexivity.
  - destruct (response_ok status); cbn [negb].
    + destruct body as [payload|]; do 3 eexists; reflexivity.
    + do 3 eexists. reflexivity.
Qed.

(** X8.  The refresh token rotates: after a refresh whose response
    carries a non-empty [refresh_token], the next token request sends
    that token; when the response carries none (or an empty one), the
    next request sends the old one again.  The client id and secret never
    change. *)
Theorem refresh_token_rotates self ev1 ev2 endpoint status payload :
  tok_outcome ev1 = TokenHttp status (Some payload) ->
  response_ok status = true ->
  exists self1 r2 self2 sleeps,
    oauth_handleUnauthorized self (ev1 :: ev2 :: endpoint)
    = Some (Ok (truthy_ostr (access_token payload)), self1, ev2 :: endpoint,
            [TokenRequest (refreshToken self) (clientId self)
               (if truthy_str (clientSecret self) then Some (clientSecret self)
                else None)])
    /\ oauth_handleUnauthorized self1 (ev2 :: endpoint)
       = Some (r2, self2, endpoint,
               TokenRequest
                 (if truthy_ostr (refresh_token payload)
                  then default "" (refresh_token payload) else refreshToken self)
                 (clientId self)
                 (if truthy_str (clientSecret self) then Some (clientSecret self)
                  else None) :: sleeps).
Proof.
  intros Hout Hok.
  destruct (performRefresh_tokens self true ev1 status payload Hout Hok)
    as (self1 & Hp & Hacc & Hrt & Hid & Hsec & _).
  destruct (handleUnauthorized_request self1 ev2 endpoint)
    as (r2 & self2 & sleeps & H2).
  exists self1, r2, self2, sleeps. split.
  - unfold oauth_handleUnauthorized, refreshTokenPair. rewrite Hp, Hacc.
    reflexivity.
  - rewrite H2, Hrt, Hid, Hsec. reflexivity.
Qed.

Lemma refresh_token_rotates_witness :
  let self := MoreSamples.sample_oauth in
  let payload := mkTokenPayload (Some "tok-1") (Some "r1") None in
  let ev1 := mkTokenEvent (TokenHttp 200 (Some payload)) 1000 in
  let ev2 := mkTokenEvent (TokenHttp 200 (Some payload)) 2000 in
  (tok_outcome ev1 = TokenHttp 200 (Some payload) /\ response_ok 200 = true)
  /\ exists self1 r2 self2 sleeps,
       oauth_handleUnauthorized self [ev1; ev2]
       = Some (Ok true, self1, [ev2], [TokenRequest "r0" "client" (Some "secret")])
       /\ oauth_handleUnauthorized self1 [ev2]
          = Some (r2, self2, [],
                  TokenRequest "r1" "client" (Some "secret") :: sleeps).
Proof.
  split; [split; reflexivity|].
  apply (refresh_token_rotates MoreSamples.sample_oauth
           (mkTokenEvent
              (TokenHttp 200 (Some (mkTokenPayload (Some "tok-1") (Some "r1") None)))
              1000)
           (mkTokenEvent
              (TokenHttp 200 (Some (mkTokenPayload (Some "tok-1") (Some "r1") None)))
              2000)
           [] 200 (mkTokenPayload (Some "tok-1") (Some "r1") None));
    reflexivity.
Defined.

End OAuthRefresh.

Section Unauthorized.
Import Js Errors Auth Client Notions MoreNotions.
Context `{host : Host}.
#[local] Open Scope list_scope.

(** X9.  With the refreshable credential, a 401 makes the client refresh
    the tokens and ask again at once: when the refresh delivers a token,
    the same address is requested a second time, without a wait, with the
    new token in the [Authorization] header, and the answer to that
    second request is the result. *)
Theorem unauthorized_retries_with_new_token (self : CanvasClient) (url : URL)
    (oauth : OAuthTokenAuth) (t0 t1 : string) (c0 c1 : Z) (clock : list Z)
    (tev : TokenEvent) (endpoint : list TokenEvent) (effs : list AuthEffect)
    (status : Z) (payload : TokenPayload) (r1 r2 : Response)
    (now1 now2 : Z) (random1 random2 : Q) (rest : list FetchEvent) :
  (0 < maxRetries self)%nat ->
  accessToken oauth = Some t0 -> t0 <> "" -> tokenExpiresAt oauth = None ->
  tok_outcome tev = TokenHttp status (Some payload) ->
  response_ok status = true ->
  access_token payload = Some t1 -> t1 <> "" ->
  lifetime_unknown (expires_in payload) = true ->
  resp_status r1 = 401 ->
  resp_status r2 <> 401 -> shouldRetry (resp_status r2) = false ->
  exists s',
    fetchWithRetry self url 0
      (mkSession oauth (c0 :: c1 :: clock) (tev :: endpoint) effs)
      (mkFetchEvent (FetchResponds r1) now1 random1
         :: mkFetchEvent (FetchResponds r2) now2 random2 :: rest)
    = Some (Ok r2, s', rest,
            [Request url 0 ("Bearer " ++ t0)%string;
             Request url 1 ("Bearer " ++ t1)%string])
    /\ accessToken (strategy s') = Some t1
    /\ Auth.clock s' = clock
    /\ Auth.endpoint s' = endpoint
    /\ Auth.effects s'
       = effs ++ [TokenRequest (refreshToken oauth) (clientId oauth)
                    (if truthy_str (clientSecret oauth)
                     then Some (clientSecret oauth) else None)].
Proof.
  intros Hmax Hacc Ht0 Hexp Hout Hok Hnew Ht1 Hlife H401 Hne Hno.
  destruct (performRefresh_tokens oauth true tev status payload Hout Hok)
    as (self1 & Hp & Hacc1 & _).
  pose proof (performRefresh_unknown_expiry oauth true tev status payload
                Hout Hok Hlife) as Hunk.
  rewrite Hp in Hunk. destruct Hunk as (_ & Hexp1 & _).
  rewrite Hnew in Hacc1.
  assert (Hlt : (0 <? maxRetries self)%nat = true) by now apply Nat.ltb_lt.
  assert (Hun : oauth_handleUnauthorized oauth (tev :: endpoint)
                = Some (Ok true, self1, endpoint,
                        [TokenRequest (refreshToken oauth) (clientId oauth)
                           (if truthy_str (clientSecret oauth)
                            then Some (clientSecret oauth) else None)])).
  { unfold oauth_handleUnauthorized, refreshTokenPair. rewrite Hp, Hacc1.
    destruct t1; [congruence|reflexivity]. }
  eexists.
  cbn [fetchWithRetry getAuthorizationHeader handleUnauthorized
       OAuthTokenAuth_strategy Auth.clock Auth.strategy Auth.endpoint
       Auth.effects ev_outcome].
  rewrite (authorize_unknown_expiry oauth t0 c0 (tev :: endpoint) Hexp Hacc Ht0).
  rewrite H401. cbn [Z.eqb Pos.eqb].
  cbn [Auth.clock Auth.strategy Auth.endpoint Auth.effects].
  rewrite Hun, Hlt. cbn [andb].
  cbn [fetchWithRetry getAuthorizationHeader handleUnauthorized
       OAuthTokenAuth_strategy Auth.clock Auth.strategy Auth.endpoint
       Auth.effects ev_outcome].
  rewrite (authorize_unknown_expiry self1 t1 c1 endpoint Hexp1 Hacc1 Ht1).
  apply Z.eqb_neq in Hne. rewrite Hne, Hno. cbn [andb app].
  split; [reflexivity|].
  cbn [Auth.clock Auth.strategy Auth.endpoint Auth.effects].
  rewrite !app_nil_r. repeat split. exact Hacc1.
Qed.

End Unauthorized.

Section UnauthorizedRun.
Import Js Errors Auth Client Notions MoreNotions SampleHost MoreSamples.
#[local] Open Scope list_scope.

Lemma unauthorized_retries_with_new_token_witness :
  let tev := token_answer "tok-1" (Some "r1") None 1000 in
  let payload := mkTokenPayload (Some "tok-1") (Some "r1") None in
  ((0 < maxRetries sample_client)%nat
   /\ accessToken sample_oauth = Some "tok-0" /\ "tok-0" <> ""
   /\ tokenExpiresAt sample_oauth = None
   /\ tok_outcome tev = TokenHttp 200 (Some payload)
   /\ response_ok 200 = true
   /\ access_token payload = Some "tok-1" /\ "tok-1" <> ""
   /\ lifetime_unknown (expires_in payload) = true
   /\ resp_status forbidden = 401
   /\ resp_status page_two <> 401
   /\ shouldRetry (resp_status page_two) = false)
  /\ exists s',
       fetchWithRetry (host := sample) sample_client "/api/v1/courses" 0
         (mkSession sample_oauth [10; 20] [tev] [])
         [answer forbidden; answer page_two]
       = Some (Ok page_two, s', [],
               [Request (host := sample) "/api/v1/courses" 0 "Bearer tok-0";
                Request (host := sample) "/api/v1/courses" 1 "Bearer tok-1"])
       /\ accessToken (strategy s') = Some "tok-1"
       /\ Auth.clock s' = []
       /\ Auth.endpoint s' = []
       /\ Auth.effects s' = [] ++ [TokenRequest "r0" "client" (Some "secret")].
Proof.
  split.
  - split; [cbn; lia|]. repeat split; try reflexivity; discriminate.
  - apply (unauthorized_retries_with_new_token (host := sample) sample_client
             "/api/v1/courses" sample_oauth "tok-0" "tok-1" 10 20 []
             (token_answer "tok-1" (Some "r1") None 1000) [] [] 200
             (mkTokenPayload (Some "tok-1") (Some "r1") None)
             forbidden page_two 0 0 (1 # 2) (1 # 2) []);
      try reflexivity; try discriminate.
    cbn; lia.
Defined.

End UnauthorizedRun.

(* ===================================================================== *)
(** ** Pages that are no lists, and the status a drain reports            *)
(* ===================================================================== *)

Section GetAllFailures.
Import Js Errors Auth Client Notions MoreNotions.
Context `{host : Host}.
#[local] Open Scope list_scope.

Lemma resp_ok_no_retry (r : Response) :
  resp_ok r = true -> shouldRetry (resp_status r) = false.
Proof.
  unfold resp_ok, shouldRetry. intros H.
  apply andb_true_iff in H as [H1 H2].
  apply Z.leb_le in H1. apply Z.leb_le in H2.
  apply orb_false_iff. split; [apply Z.eqb_neq; lia|].
  apply andb_false_iff. left. unfold Z.geb.
  destruct (resp_status r ?= 500) eqn:E; try reflexivity.
  - apply Z.compare_eq in E. lia.
  - apply Z.compare_gt_iff in E. lia.
Qed.

Lemma getAll_loop_non_list (self : CanvasClient) (pat : PersonalAccessTokenAuth)
    (url : URL) (page : Response) (now : Z) (random : Q)
    (rest : list FetchEvent) (fuel : nat) (results : list JSON)
    (ids : list string) (status : Z) (eff : list ClientEffect)
    (seen : list Response) :
  resp_ok page = true ->
  page_accepted page = false ->
  getAll_loop (S fuel) self (Some url) results ids status pat
    (mkFetchEvent (FetchResponds page) now random :: rest) eff seen
  = Some (mkDrained (Throw (EApp (page_error page))) pat rest
            (eff ++ [Request url 0 ("Bearer " ++ token pat)%string])
            (seen ++ [page])).
Proof.
  intros Hok Hacc.
  cbn [getAll_loop].
  rewrite (fetchWithRetry_single self url pat page now random rest 0
             (resp_ok_no_retry page Hok)).
  unfold page_accepted in Hacc. rewrite Hok in Hacc. cbn [andb] in Hacc.
  unfold parsePayload, page_error, failure_payload.
  destruct (body page) as [|j|text]; rewrite ?Hok; cbn [negb].
  - reflexivity.
  - destruct j; try reflexivity. discriminate.
  - reflexivity.
Qed.

(** X10.  A page with a 2xx status whose body is not a JSON array (no
    JSON at all, an empty body, or another JSON value) ends the drain
    with an error of kind UNKNOWN, at whatever page it comes: the records
    gathered from the earlier pages are not returned, the page is not
    asked for again, and the error carries neither the status nor the
    request id of the page.  For the first page this is the outcome of
    [getAll] unless the address cannot be built. *)
Theorem getAll_rejects_non_list (self : CanvasClient)
    (pat : PersonalAccessTokenAuth) (page : Response) (now : Z) (random : Q)
    (rest : list FetchEvent) :
  resp_ok page = true ->
  page_accepted page = false ->
  (forall url fuel results ids status eff seen,
     exists d,
       getAll_loop (S fuel) self (Some url) results ids status pat
         (mkFetchEvent (FetchResponds page) now random :: rest) eff seen
       = Some d
       /\ outcome d = Throw (EApp (page_error page))
       /\ net_after d = rest
       /\ requests_of (effects d) = requests_of eff ++ [(url, 0%nat)])
  /\ (forall path params d,
        getAll self path params pat
          (mkFetchEvent (FetchResponds page) now random :: rest) = Some d ->
        outcome d = Throw (EError "Invalid URL")
        \/ outcome d = Throw (EApp (page_error page)))
  /\ code (page_error page) = UNKNOWN
  /\ httpStatus (page_error page) = 500
  /\ (canvasStatus <$> Errors.data (page_error page)) = Some None
  /\ (Errors.requestId <$> Errors.data (page_error page)) = Some None.
Proof.
  intros Hok Hacc. split; [|split].
  - intros url fuel results ids status eff seen. eexists.
    split; [apply (getAll_loop_non_list _ _ _ _ _ _ _ _ _ _ _ _ _ Hok Hacc)|].
    cbn [outcome net_after effects]. rewrite requests_of_app.
    repeat split.
  - intros path params d. unfold getAll.
    destruct (buildUrl _ _ _) as [url|].
    + rewrite (getAll_loop_non_list _ _ _ _ _ _ _ _ _ _ _ _ _ Hok Hacc).
      intros [= <-]. now right.
    + intros [= <-]. now left.
  - unfold page_error. destruct (body page); repeat split.
Qed.

End GetAllFailures.

Section GetAllStatus.
Import Js Errors Auth Client Notions MoreNotions.
Context `{host : Host} {A : Type} `{auth : !CanvasAuthStrategy A}.
#[local] Open Scope list_scope.

Lemma last_status_ok (pages : list Response) (status : Z) :
  forallb page_accepted pages = true ->
  200 <= status <= 299 ->
  200 <= List.last (map resp_status pages) status <= 299.
Proof.
  revert status. induction pages as [|page pages IH]; intros status Hacc Hs.
  - exact Hs.
  - cbn [forallb] in Hacc. apply andb_true_iff in Hacc as [Hp Hacc].
    cbn [map]. rewrite last_cons_default. apply IH; [exact Hacc|].
    unfold page_accepted in Hp. apply andb_true_iff in Hp as [Hp _].
    unfold resp_ok in Hp. apply andb_true_iff in Hp as [H1 H2].
    apply Z.leb_le in H1. apply Z.leb_le in H2. lia.
Qed.

(** X11.  Whatever the strategy and the network: when [getAll] returns a
    result, the status it reports is a 2xx status (that of the last
    page), and the request id it reports is the last of the request ids
    it lists (none when it lists none). *)
Theorem getAll_reports_success (self : CanvasClient) path params (auth0 : A)
    net d res :
  getAll self path params auth0 net = Some d ->
  outcome d = Ok res ->
  200 <= status res <= 299
  /\ requestId res = at_last (default [] (requestIds res)).
Proof.
  intros Hrun Hres.
  destruct (getAll_spec self path params auth0 net d Hrun)
    as (blocks & new_pages & _ & _ & _ & _ & _ & _ & _ & _ & Hok).
  destruct (Hok res Hres) as (_ & _ & Hacc & _ & Hids & Hid & Hstatus).
  split.
  - rewrite Hstatus. apply last_status_ok; [exact Hacc|lia].
  - rewrite Hid, Hids. reflexivity.
Qed.

End GetAllStatus.

Section GetAllRuns.
Import Js Errors Auth Client Notions MoreNotions SampleHost MoreSamples.
#[local] Open Scope list_scope.

Lemma getAll_rejects_non_list_witness :
  let page := mkResponse 200 (Some "req-9") None None (Some "text/html")
                (BodyText "<html>") in
  (resp_ok page = true /\ page_accepted page = false)
  /\ (exists d,
        getAll_loop (host := sample) 1 sample_client
          (Some "https://canvas.example.com/api/v1/courses?page=2")
          [JNum (ofZ 1)] ["req-1"] 200 sample_pat [answer page] [] [page_one]
        = Some d
        /\ outcome d = Throw (EApp (page_error page)))
  /\ code (page_error page) = UNKNOWN.
Proof.
  split; [split; reflexivity|].
  destruct (getAll_rejects_non_list (host := sample) sample_client sample_pat
              (mkResponse 200 (Some "req-9") None None (Some "text/html")
                 (BodyText "<html>"))
              0 (1 # 2) [] eq_refl eq_refl) as (Hloop & _ & Hcode & _).
  split; [|exact Hcode].
  destruct (Hloop "https://canvas.example.com/api/v1/courses?page=2" 0%nat
              [JNum (ofZ 1)] ["req-1"] 200 [] [page_one])
    as (d & Hd & Hout & _).
  exists d. split; [exact Hd|exact Hout].
Defined.

Lemma getAll_reports_success_witness :
  let net := [answer page_one; answer page_two] in
  let res :=
    mkCanvasResult [JNum (ofZ 1); JNum (ofZ 2); JNum (ofZ 3)] 200
      (Some "req-2") (Some ["req-1"; "req-2"]) in
  let d :=
    mkDrained (host := sample) (Ok res) sample_pat []
      [Request (host := sample)
         "https://canvas.example.com/api/v1/courses&per_page=100" 0
         "Bearer test-pat";
       Request (host := sample)
         "https://canvas.example.com/api/v1/courses?page=2" 0
         "Bearer test-pat"]
      [page_one; page_two] in
  (getAll (host := sample) sample_client "/api/v1/courses" [] sample_pat net
   = Some d
   /\ outcome d = Ok res)
  /\ 200 <= status res <= 299
  /\ requestId res = at_last (default [] (requestIds res)).
Proof.
  split; [split; reflexivity|].
  eapply (getAll_reports_success (host := sample) (A := PersonalAccessTokenAuth)
            sample_client "/api/v1/courses" [] sample_pat
            [answer page_one; answer page_two]); reflexivity.
Defined.

End GetAllRuns.

(* ===================================================================== *)
(** ** The Link header                                                    *)
(* ===================================================================== *)

Section LinkHeader.
Import Js Client MoreNotions.
#[local] Open Scope list_scope.


Lemma split_on_no_sep (sep : ascii) (s : string) :
  has_char sep s = false -> split_on sep s = [s].
Proof.
  induction s as [|c s IH]; [reflexivity|].
  cbn [has_char split_on]. intros H. apply orb_false_iff in H as [Hc Hs].
  rewrite Hc, (IH Hs). reflexivity.
Qed.

Lemma split_on_app (sep : ascii) (a b : string) :
  has_char sep a = false ->
  split_on sep (a ++ String sep b)%string = a :: split_on sep b.
Proof.
  induction a as [|c a IH]; intros H.
  - rewrite append_nil. cbn [split_on]. rewrite Ascii.eqb_refl. reflexivity.
  - rewrite append_cons. cbn [has_char] in H.
    apply orb_false_iff in H as [Hc Ha].
    cbn [split_on]. rewrite Hc, (IH Ha). reflexivity.
Qed.












End LinkHeader.

(* ===================================================================== *)
(** ** The message taken from an error payload                            *)
(* ===================================================================== *)

Section CanvasMessage.
Import Js Client MoreNotions.
#[local] Open Scope list_scope.

(** Induction on a document, with the hypothesis for every element of an
    array and every value of an object. *)
Lemma JSON_nested_ind (P : JSON -> Prop) :
  P JNull -> (forall b, P (JBool b)) -> (forall n, P (JNum n)) ->
  (forall s, P (JStr s)) ->
  (forall items, Forall P items -> P (JArr items)) ->
  (forall props, Forall (fun kv => P (snd kv)) props -> P (JObj props)) ->
  forall j, P j.
Proof.
  intros HNull HBool HNum HStr HArr HObj.
  exact (fix go (j : JSON) : P j :=
           match j with
           | JNull => HNull
           | JBool b => HBool b
           | JNum n => HNum n
           | JStr s => HStr s
           | JArr items =>
               HArr items
                 ((fix all (l : list JSON) : Forall P l :=
                     match l with
                     | [] => @List.Forall_nil _ P
                     | x :: rest => @List.Forall_cons _ P x rest (go x) (all rest)
                     end) items)
           | JObj props =>
               HObj props
                 ((fix all (l : list (string * JSON))
                     : Forall (fun kv => P (snd kv)) l :=
                     match l with
                     | [] => @List.Forall_nil _ _
                     | kv :: rest =>
                         @List.Forall_cons _ (fun kv => P (snd kv)) kv rest
                           (go (snd kv)) (all rest)
                     end) props)
           end).
Qed.

Lemma occurs_arr (s : string) (items : list JSON) :
  occurs s (JArr items) <-> Exists (occurs s) items.
Proof.
  induction items as [|x rest IH].
  - split; [intros []|intros H; inversion H].
  - change (occurs s (JArr (x :: rest)))
      with (occurs s x \/ occurs s (JArr rest)).
    rewrite IH, Exists_cons. reflexivity.
Qed.

Lemma occurs_obj (s : string) (props : list (string * JSON)) :
  occurs s (JObj props) <-> Exists (fun kv => occurs s (snd kv)) props.
Proof.
  induction props as [|[k x] rest IH].
  - split; [intros []|intros H; inversion H].
  - change (occurs s (JObj ((k, x) :: rest)))
      with (occurs s x \/ occurs s (JObj rest)).
    rewrite IH, Exists_cons. reflexivity.
Qed.

Lemma prop_string_occurs (key : string) (props : list (string * JSON)) (m : string) :
  prop_string key props = Some m -> occurs m (JObj props).
Proof.
  intros H. apply occurs_obj.
  induction props as [|[k v] rest IH]; [discriminate|].
  cbn [prop_string] in H. destruct (String.eqb k key).
  - destruct v; try discriminate. injection H as ->. left. reflexivity.
  - right. exact (IH H).
Qed.

(** The message comes from the document, and so does what the function
    returns on the elements or values of the document. *)
Lemma extractCanvasMessage_from_payload (payload : JSON) :
  (forall m, extractCanvasMessage payload = Some m -> occurs m payload)
  /\ match payload with
     | JArr items =>
         Forall (fun x => forall m, extractCanvasMessage x = Some m -> occurs m x)
           items
     | JObj props =>
         Forall (fun kv => forall m, extractCanvasMessage (snd kv) = Some m ->
                                     occurs m (snd kv)) props
     | _ => True
     end.
Proof.
  induction payload as [| | |s|items IH|props IH] using JSON_nested_ind.
  - split; [discriminate|exact I].
  - split; [discriminate|exact I].
  - split; [discriminate|exact I].
  - split; [|exact I]. intros m. cbn [extractCanvasMessage].
    destruct (truthy_str s); [|discriminate]. intros [= <-]. reflexivity.
  - assert (Hitems : Forall (fun x => forall m, extractCanvasMessage x = Some m ->
                                              occurs m x) items).
    { eapply List.Forall_impl; [|exact IH]. intros x [Hx _]. exact Hx. }
    split; [|exact Hitems].
    intros m Hm. apply occurs_arr. destruct items as [|first rest].
    + discriminate.
    + left. apply Forall_inv in Hitems. apply Hitems. exact Hm.
  - assert (Hprops : Forall (fun kv => forall m,
                                extractCanvasMessage (snd kv) = Some m ->
                                occurs m (snd kv)) props).
    { eapply List.Forall_impl; [|exact IH]. intros kv [Hx _]. exact Hx. }
    split; [|exact Hprops].
    intros m. cbn [extractCanvasMessage].
    destruct (prop_string "message" props) as [m0|] eqn:Hmsg.
    + intros [= <-]. apply (prop_string_occurs "message"). exact Hmsg.
    + clear Hmsg Hprops. intros Hm. apply occurs_obj.
      induction props as [|[k errors] rest IHrest]; [discriminate|].
      apply Forall_cons_iff in IH as [[_ Herrors] IH]. cbn [snd] in Herrors.
      destruct (String.eqb k "errors"); [|right; exact (IHrest IH Hm)].
      left. cbn [snd]. clear IHrest IH rest.
      destruct errors as [| | |s|items|values]; try discriminate.
      * destruct (truthy_str s); [|discriminate].
        injection Hm as <-. reflexivity.
      * apply occurs_arr.
        assert (Hfirst :
          forall m0,
            match items with
            | JStr s :: _ => Some s
            | JObj normalized :: _ =>
                match prop_string "message" normalized with
                | Some m1 => Some m1
                | None => prop_string "detail" normalized
                end
            | _ => None
            end = Some m0 -> Exists (occurs m0) items).
        { intros m0 H0. destruct items as [|[| | |s|l|normalized] rest];
            try discriminate.
          - injection H0 as <-. left. reflexivity.
          - left. destruct (prop_string "message" normalized) as [m1|] eqn:E.
            + injection H0 as <-. apply (prop_string_occurs "message"). exact E.
            + apply (prop_string_occurs "detail"). exact H0. }
        destruct (match items with
                  | JStr s :: _ => Some s
                  | JObj normalized :: _ =>
                      match prop_string "message" normalized with
                      | Some m1 => Some m1
                      | None => prop_string "detail" normalized
                      end
                  | _ => None
                  end) as [m0|] eqn:Hdirect.
        -- injection Hm as <-. now apply Hfirst.
        -- clear Hfirst Hdirect.
           induction items as [|value rest IHitems]; [discriminate|].
           apply Forall_cons_iff in Herrors as [Hvalue Hrest].
           destruct (extractCanvasMessage value) as [message|] eqn:Hval.
           ++ destruct (truthy_str message).
              ** injection Hm as <-. left. now apply Hvalue.
              ** right. exact (IHitems Hrest Hm).
           ++ right. exact (IHitems Hrest Hm).
      * apply occurs_obj.
        induction values as [|[k' value] rest IHvalues]; [discriminate|].
        apply Forall_cons_iff in Herrors as [Hvalue Hrest]. cbn [snd] in Hvalue.
        destruct (extractCanvasMessage value) as [message|] eqn:Hval.
        -- destruct (truthy_str message).
           ++ injection Hm as <-. left. now apply Hvalue.
           ++ right. exact (IHvalues Hrest Hm).
        -- right. exact (IHvalues Hrest Hm).
Qed.

(** X13.  The message [extractCanvasMessage] takes from an error payload
    is never made up: it is one of the strings of the payload, at
    whatever depth. *)
Theorem extractCanvasMessage_quotes_payload (payload : JSON) (m : string) :
  extractCanvasMessage payload = Some m -> occurs m payload.
Proof. apply extractCanvasMessage_from_payload. Qed.

Lemma extractCanvasMessage_quotes_payload_witness :
  let payload :=
    JObj [("status", JStr "unauthorized");
          ("errors", JArr [JObj [("message", JStr "Invalid access token.")]])] in
  extractCanvasMessage payload = Some "Invalid access token."
  /\ occurs "Invalid access token." payload.
Proof.
  split; [reflexivity|].
  apply (extractCanvasMessage_quotes_payload
           (JObj [("status", JStr "unauthorized");
                  ("errors",
                   JArr [JObj [("message", JStr "Invalid access token.")]])])
           "Invalid access token." eq_refl).
Defined.

End CanvasMessage.

(* ===================================================================== *)
(** ** The course list                                                    *)
(* ===================================================================== *)

Section CourseYear.
Import Js Mappers Tools Courses MoreNotions.
#[local] Open Scope list_scope.

(** One step of the scan for the year. *)
Lemma match_year_cons (c : ascii) (rest : string) :
  match_year (String c rest)
  = match
      (if Ascii.eqb c "2" then
         match rest with
         | String c0 (String d1 (String d2 _)) =>
             if Ascii.eqb c0 "0" && is_digit d1 && is_digit d2
             then Some (2000 + 10 * digit_value d1 + digit_value d2)
             else None
         | _ => None
         end
       else None)
    with
    | Some y => Some y
    | None => match_year rest
    end.
Proof.
  destruct (Ascii.eqb_spec c "2") as [->|Hc].
  - destruct rest as [|c0 [|d1 [|d2 r]]]; try reflexivity.
    + destruct c0 as [[] [] [] [] [] [] [] []]; reflexivity.
    + destruct c0 as [[] [] [] [] [] [] [] []]; reflexivity.
    + destruct (Ascii.eqb_spec c0 "0") as [->|Hc0].
      * cbn [match_year andb]. destruct (is_digit d1 && is_digit d2); reflexivity.
      * cbn [andb].
        destruct c0 as [[] [] [] [] [] [] [] []]; try reflexivity; congruence.
  - destruct c as [[] [] [] [] [] [] [] []]; try reflexivity; congruence.
Qed.

Lemma digit_value_range (d : ascii) :
  is_digit d = true -> 0 <= digit_value d <= 9.
Proof.
  unfold is_digit, digit_value. intros H.
  apply andb_true_iff in H as [H1 H2].
  apply Nat.leb_le in H1. apply Nat.leb_le in H2. lia.
Qed.

Lemma match_year_range (v : string) (y : Z) :
  match_year v = Some y -> 2000 <= y <= 2099.
Proof.
  induction v as [|c rest IH]; [discriminate|].
  rewrite match_year_cons.
  destruct (Ascii.eqb c "2"); [|exact IH].
  destruct rest as [|c0 [|d1 [|d2 r]]]; try exact IH.
  destruct (Ascii.eqb c0 "0"); cbn [andb]; [|exact IH].
  destruct (is_digit d1) eqn:H1; cbn [andb]; [|exact IH].
  destruct (is_digit d2) eqn:H2; [|exact IH].
  intros [= <-].
  pose proof (digit_value_range d1 H1). pose proof (digit_value_range d2 H2).
  lia.
Qed.

(** X14.  Every year the tools read off a course (from the term label,
    else from the course code) lies between 2000 and 2099, and so does
    every year [extractYear] finds in a string. *)
Theorem course_year_range :
  (forall value y, extractYear value = Some y -> 2000 <= y <= 2099)
  /\ (forall course y, extractCourseYear course = Some y -> 2000 <= y <= 2099).
Proof.
  assert (H : forall value y, extractYear value = Some y -> 2000 <= y <= 2099).
  { intros [v|] y; [|discriminate]. unfold extractYear.
    destruct (truthy_str v); cbn [negb]; [|discriminate].
    apply match_year_range. }
  split; [exact H|].
  intros course y. unfold extractCourseYear.
  destruct (extractYear (Some (term course))) as [t|] eqn:E.
  - intros [= <-]. exact (H _ _ E).
  - apply H.
Qed.

Lemma course_year_range_witness :
  extractCourseYear (mkCourse 7 "Algebra" "Term 12025" "MAT-2019") = Some 2025
  /\ 2000 <= 2025 <= 2099.
Proof.
  split; [reflexivity|].
  apply (proj2 course_year_range (mkCourse 7 "Algebra" "Term 12025" "MAT-2019")
           2025 eq_refl).
Defined.

End CourseYear.

Section SortAny.
Import Js.
Context {T : Type} (compareFn : T -> T -> number).
#[local] Open Scope list_scope.

Lemma insert_perm_any (x : T) (l : list T) :
  Permutation (JsArray.insert compareFn x l) (x :: l).
Proof.
  induction l as [|y l IH]; cbn [JsArray.insert]; [reflexivity|].
  destruct (JsArray.comes_after compareFn x y); [|reflexivity].
  rewrite IH. apply perm_swap.
Qed.

Lemma sort_perm_any (l : list T) : Permutation (JsArray.sort compareFn l) l.
Proof.
  induction l as [|x l IH]; cbn [JsArray.sort]; [reflexivity|].
  rewrite insert_perm_any. now rewrite IH.
Qed.

(** Insertion keeps a list in order for any relation [R] that holds
    between [y] and [x] when [x] comes after [y], between [x] and [y]
    when it does not, and that is transitive. *)
Lemma insert_sorted_any (R : T -> T -> Prop) (x : T) (l : list T) :
  (forall a b, JsArray.comes_after compareFn a b = true -> R b a) ->
  (forall a b, JsArray.comes_after compareFn a b = false -> R a b) ->
  (forall a b c, R a b -> R b c -> R a c) ->
  StronglySorted R l -> StronglySorted R (JsArray.insert compareFn x l).
Proof.
  intros Hafter Hbefore Htrans. induction l as [|y l IH]; intros Hs.
  - cbn. constructor; [constructor|constructor].
  - cbn [JsArray.insert]. apply StronglySorted_inv in Hs as [Hl Hy].
    destruct (JsArray.comes_after compareFn x y) eqn:E.
    + constructor; [exact (IH Hl)|].
      apply (Permutation_Forall (Permutation_sym (insert_perm_any x l))).
      constructor; [exact (Hafter _ _ E)|exact Hy].
    + constructor; [constructor; assumption|].
      constructor; [exact (Hbefore _ _ E)|].
      eapply List.Forall_impl; [|exact Hy].
      intros a Ha. exact (Htrans _ _ _ (Hbefore _ _ E) Ha).
Qed.

Lemma sort_sorted_any (R : T -> T -> Prop) (l : list T) :
  (forall a b, JsArray.comes_after compareFn a b = true -> R b a) ->
  (forall a b, JsArray.comes_after compareFn a b = false -> R a b) ->
  (forall a b c, R a b -> R b c -> R a c) ->
  StronglySorted R (JsArray.sort compareFn l).
Proof.
  intros Hafter Hbefore Htrans. induction l as [|x l IH]; cbn [JsArray.sort].
  - constructor.
  - now apply insert_sorted_any.
Qed.

Lemma sorted_filter (R : T -> T -> Prop) (f : T -> bool) (l : list T) :
  StronglySorted R l -> StronglySorted R (List.filter f l).
Proof.
  induction l as [|x l IH]; intros Hs; [constructor|].
  apply StronglySorted_inv in Hs as [Hl Hx]. cbn [List.filter].
  destruct (f x); [|exact (IH Hl)].
  constructor; [exact (IH Hl)|].
  apply List.Forall_forall. intros y Hy. apply filter_In in Hy as [Hy _].
  rewrite List.Forall_forall in Hx. exact (Hx y Hy).
Qed.

Lemma sorted_app_inv (R : T -> T -> Prop) (l1 l2 : list T) :
  StronglySorted R (l1 ++ l2) ->
  StronglySorted R l1
  /\ forall a b, In a l1 -> In b l2 -> R a b.
Proof.
  induction l1 as [|x l1 IH]; intros Hs.
  - split; [constructor|intros a b []].
  - cbn [app] in Hs. apply StronglySorted_inv in Hs as [Hl Hx].
    destruct (IH Hl) as [Hs1 Hcross]. split.
    + constructor; [exact Hs1|].
      rewrite List.Forall_forall in Hx |- *. intros y Hy. apply Hx.
      apply in_or_app. now left.
    + intros a b [<-|Ha] Hb.
      * rewrite List.Forall_forall in Hx. apply Hx. apply in_or_app. now right.
      * exact (Hcross a b Ha Hb).
Qed.

End SortAny.

Section Recency.
Import Js Errors Client Mappers Tools Courses Notions MoreNotions.
Context (localeCompare : string -> string -> number).
#[local] Open Scope list_scope.

Lemma Qeq_bool_inject (a b : Z) : Qeq_bool (inject_Z a) (inject_Z b) = (a =? b).
Proof. unfold Qeq_bool, inject_Z. cbn [Qnum Qden]. now rewrite !Z.mul_1_r. Qed.

Lemma Qle_bool_inject (a b : Z) : Qle_bool (inject_Z a) (inject_Z b) = (a <=? b).
Proof. unfold Qle_bool, inject_Z. cbn [Qnum Qden]. now rewrite !Z.mul_1_r. Qed.

(** When [a] is put after [b]: by the years, then by the seasons, then
    by the names. *)
Lemma comes_after_recency (a b : Course) :
  JsArray.comes_after (compareRecency localeCompare) a b
  = let by_season :=
      if season_of a =? season_of b
      then gt (localeCompare (name a) (name b)) (ofZ 0)
      else season_of a <? season_of b in
    match extractCourseYear a, extractCourseYear b with
    | Some ya, Some yb => if ya =? yb then by_season else ya <? yb
    | Some _, None => false
    | None, Some _ => true
    | None, None => by_season
    end.
Proof.
  unfold JsArray.comes_after, compareRecency, season_of, courseRecencyInfo.
  cbn [fst snd].
  assert (Hseason : forall sa sb : Z,
    gt (if negb (sa =? sb) then ofZ (sb - sa)
        else localeCompare (name a) (name b)) (ofZ 0)
    = if sa =? sb then gt (localeCompare (name a) (name b)) (ofZ 0)
      else sa <? sb).
  { intros sa sb. destruct (Z.eqb_spec sa sb) as [E|E]; cbn [negb]; [reflexivity|].
    unfold ofZ. cbn [gt]. rewrite Qle_bool_inject.
    destruct (Z.leb_spec (sb - sa) 0), (Z.ltb_spec sa sb); cbn; try reflexivity; lia. }
  destruct (extractCourseYear a) as [ya|], (extractCourseYear b) as [yb|];
    cbn [strict_eq ofZ negb].
  - rewrite Qeq_bool_inject. destruct (Z.eqb_spec ya yb) as [E|E]; cbn [negb].
    + apply Hseason.
    + unfold ofZ. cbn [sub gt]. change (inject_Z 0) with 0%Q.
      rewrite Qle_bool_sub, Qle_bool_inject.
      destruct (Z.leb_spec yb ya), (Z.ltb_spec ya yb); cbn; try reflexivity; lia.
  - reflexivity.
  - reflexivity.
  - apply Hseason.
Qed.

Ltac recency_cases :=
  unfold no_less_recent;
  repeat match goal with
         | |- context [extractCourseYear ?c] => destruct (extractCourseYear c)
         end;
  repeat match goal with
         | |- context [Z.eqb ?x ?y] => destruct (Z.eqb_spec x y)
         | |- context [Z.ltb ?x ?y] => destruct (Z.ltb_spec x y)
         | |- context [Z.leb ?x ?y] => destruct (Z.leb_spec x y)
         end;
  cbn; intros; try reflexivity; try discriminate; try lia.

Lemma after_no_less_recent (a b : Course) :
  JsArray.comes_after (compareRecency localeCompare) a b = true ->
  no_less_recent b a = true.
Proof.
  rewrite comes_after_recency. cbv zeta.
  destruct (gt (localeCompare (name a) (name b)) (ofZ 0)); recency_cases.
Qed.

Lemma before_no_less_recent (a b : Course) :
  JsArray.comes_after (compareRecency localeCompare) a b = false ->
  no_less_recent a b = true.
Proof.
  rewrite comes_after_recency. cbv zeta.
  destruct (gt (localeCompare (name a) (name b)) (ofZ 0)); recency_cases.
Qed.

Lemma no_less_recent_trans (a b c : Course) :
  no_less_recent a b = true -> no_less_recent b c = true ->
  no_less_recent a c = true.
Proof. recency_cases. Qed.

Lemma sortCoursesByRecency_sorted (courses : list Course) :
  StronglySorted (fun a b => no_less_recent a b = true)
    (sortCoursesByRecency localeCompare courses).
Proof.
  apply sort_sorted_any.
  - apply after_no_less_recent.
  - apply before_no_less_recent.
  - apply no_less_recent_trans.
Qed.

Lemma filterRecentCourses_recent (currentYear : Z) (courses : list Course) :
  filterRecentCourses currentYear courses
  = List.filter (recent currentYear) courses.
Proof.
  unfold filterRecentCourses. apply filter_ext. intros c. unfold recent.
  destruct (extractCourseYear c); [|reflexivity]. apply Z.geb_leb.
Qed.

Lemma sorted_take {T : Type} (R : T -> T -> Prop) (n : nat) (l : list T) :
  StronglySorted R l -> StronglySorted R (take n l).
Proof.
  intros Hs. rewrite <- (take_drop n l) in Hs.
  now apply sorted_app_inv in Hs.
Qed.

Lemma slice0_positive {T : Type} (l : list T) (limit : Z) :
  0 < limit -> slice0 l limit = take (Z.to_nat limit) l.
Proof.
  intros H. unfold slice0. destruct (Z.ltb_spec limit 0); [lia|reflexivity].
Qed.

(** What the handler returns, for a limit of at least 1. *)
Lemma list_courses_returns include_past limit currentYear coursesCall courses meta :
  0 < default DEFAULT_COURSE_LIMIT limit ->
  list_courses localeCompare include_past limit currentYear coursesCall
  = Ok (courses, meta) ->
  exists result,
    coursesCall = Ok result
    /\ courses
       = take (Z.to_nat (default DEFAULT_COURSE_LIMIT limit))
           (if default false include_past
            then sortCoursesByRecency localeCompare (map mapCourse (data result))
            else List.filter (recent currentYear)
                   (sortCoursesByRecency localeCompare
                      (map mapCourse (data result)))).
Proof.
  intros Hlimit. unfold list_courses.
  destruct coursesCall as [result|e]; [|discriminate].
  intros [= <- _]. exists result. split; [reflexivity|].
  destruct (Z.eqb_spec (default DEFAULT_COURSE_LIMIT limit) 0) as [E|_]; [lia|].
  cbn [negb]. rewrite slice0_positive by exact Hlimit.
  destruct (default false include_past); cbn [negb]; [reflexivity|].
  now rewrite filterRecentCourses_recent.
Qed.

(** X15.  [list_courses] returns the courses most recent first: a course
    never comes after a less recent one, where a later year is more
    recent, within a year (and among the courses without a year) a later
    season, and a course without a year is less recent than any course
    with one.  Every course returned is the mapping of a course of the
    upstream list; unless past courses are asked for, each has no year or
    a year from last year on; and there are at most [limit] of them (20
    when no limit is given). *)
Theorem list_courses_most_recent_first include_past limit currentYear
    coursesCall courses meta :
  0 < default DEFAULT_COURSE_LIMIT limit ->
  list_courses localeCompare include_past limit currentYear coursesCall
  = Ok (courses, meta) ->
  exists result,
    coursesCall = Ok result
    /\ StronglySorted (fun a b => no_less_recent a b = true) courses
    /\ (forall c, In c courses -> In c (map mapCourse (data result)))
    /\ (default false include_past = false ->
        forallb (recent currentYear) courses = true)
    /\ (Z.of_nat (length courses) <= default DEFAULT_COURSE_LIMIT limit).
Proof.
  intros Hlimit Hrun.
  destruct (list_courses_returns _ _ _ _ _ _ Hlimit Hrun) as (result & Hcall & ->).
  exists result. split; [exact Hcall|].
  set (sorted := sortCoursesByRecency localeCompare (map mapCourse (data result))).
  assert (Hin : forall c, In c sorted -> In c (map mapCourse (data result))).
  { intros c Hc. eapply Permutation_in; [apply sort_perm_any|exact Hc]. }
  split; [|split; [|split]].
  - apply sorted_take. destruct (default false include_past).
    + apply sortCoursesByRecency_sorted.
    + apply sorted_filter, sortCoursesByRecency_sorted.
  - intros c Hc. apply Hin.
    assert (Hc' : In c (if default false include_past then sorted
                        else List.filter (recent currentYear) sorted)).
    { rewrite <- (take_drop (Z.to_nat (default DEFAULT_COURSE_LIMIT limit))).
      apply in_or_app. now left. }
    destruct (default false include_past); [exact Hc'|].
    now apply filter_In in Hc'.
  - intros ->. apply forallb_forall. intros c Hc.
    assert (Hc' : In c (List.filter (recent currentYear) sorted)).
    { rewrite <- (take_drop (Z.to_nat (default DEFAULT_COURSE_LIMIT limit))).
      apply in_or_app. now left. }
    now apply filter_In in Hc'.
  - rewrite length_take. lia.
Qed.

(** X16.  What [list_courses] leaves out.  The courses it does not
    return are, first, those the filter drops when past courses are not
    asked for: exactly the courses with a year before last year (a course
    without a year is never dropped by the filter); and then those the
    limit cuts off, each of them no more recent than every course that is
    returned, and none unless [limit] courses are returned. *)
Theorem list_courses_drops_least_recent include_past limit currentYear
    coursesCall courses meta :
  0 < default DEFAULT_COURSE_LIMIT limit ->
  list_courses localeCompare include_past limit currentYear coursesCall
  = Ok (courses, meta) ->
  exists result cut,
    coursesCall = Ok result
    /\ Permutation (courses ++ cut)
         (if default false include_past then map mapCourse (data result)
          else List.filter (recent currentYear) (map mapCourse (data result)))
    /\ (forall kept dropped, In kept courses -> In dropped cut ->
                             no_less_recent kept dropped = true)
    /\ (cut <> [] ->
        Z.of_nat (length courses) = default DEFAULT_COURSE_LIMIT limit).
Proof.
  intros Hlimit Hrun.
  destruct (list_courses_returns _ _ _ _ _ _ Hlimit Hrun) as (result & Hcall & ->).
  set (n := Z.to_nat (default DEFAULT_COURSE_LIMIT limit)).
  set (sorted := sortCoursesByRecency localeCompare (map mapCourse (data result))).
  set (shown := if default false include_past then sorted
                else List.filter (recent currentYear) sorted).
  exists result, (drop n shown). split; [exact Hcall|].
  assert (Hsorted : StronglySorted (fun a b => no_less_recent a b = true) shown).
  { unfold shown. destruct (default false include_past).
    - apply sortCoursesByRecency_sorted.
    - apply sorted_filter, sortCoursesByRecency_sorted. }
  split; [|split].
  - rewrite take_drop. unfold shown, sorted.
    destruct (default false include_past).
    + apply sort_perm_any.
    + apply filter_perm, sort_perm_any.
  - intros kept dropped Hk Hd. rewrite <- (take_drop n shown) in Hsorted.
    apply sorted_app_inv in Hsorted as [_ Hcross]. exact (Hcross _ _ Hk Hd).
  - intros Hcut. rewrite length_take.
    assert (n < length shown)%nat.
    { destruct (Nat.lt_ge_cases n (length shown)) as [H|H]; [exact H|].
      exfalso. apply Hcut. now apply drop_ge. }
    unfold n in *. lia.
Qed.

End Recency.

Section RecencyRun.
Import Js Errors Client Mappers Tools Courses Notions MoreNotions SampleHost MoreSamples.
#[local] Open Scope list_scope.

Lemma list_courses_most_recent_first_witness :
  let call := answered dated_courses "req-c" in
  let meta := mkCallMeta 200 (Some "req-c") (Some ["req-c"]) in
  (0 < default DEFAULT_COURSE_LIMIT (Some 2)
   /\ list_courses sample_localeCompare None (Some 2) 2025 call
      = Ok ([biology; algebra], meta))
  /\ exists result,
       call = Ok result
       /\ StronglySorted (fun a b => no_less_recent a b = true) [biology; algebra]
       /\ (forall c, In c [biology; algebra] ->
                     In c (map mapCourse (data result)))
       /\ (default false None = false ->
           forallb (recent 2025) [biology; algebra] = true)
       /\ (Z.of_nat (length [biology; algebra])
           <= default DEFAULT_COURSE_LIMIT (Some 2)).
Proof.
  split; [split; reflexivity|].
  apply (list_courses_most_recent_first sample_localeCompare None (Some 2) 2025
           (answered dated_courses "req-c") [biology; algebra]
           (mkCallMeta 200 (Some "req-c") (Some ["req-c"]))); reflexivity.
Defined.

Lemma list_courses_drops_least_recent_witness :
  let call := answered dated_courses "req-c" in
  let meta := mkCallMeta 200 (Some "req-c") (Some ["req-c"]) in
  (0 < default DEFAULT_COURSE_LIMIT (Some 2)
   /\ list_courses sample_localeCompare None (Some 2) 2025 call
      = Ok ([biology; algebra], meta))
  /\ exists result cut,
       call = Ok result
       /\ Permutation ([biology; algebra] ++ cut)
            (if default false None then map mapCourse (data result)
             else List.filter (recent 2025) (map mapCourse (data result)))
       /\ (forall kept dropped, In kept [biology; algebra] -> In dropped cut ->
                                no_less_recent kept dropped = true)
       /\ (cut <> [] ->
           Z.of_nat (length [biology; algebra])
           = default DEFAULT_COURSE_LIMIT (Some 2)).
Proof.
  split; [split; reflexivity|].
  apply (list_courses_drops_least_recent sample_localeCompare None (Some 2) 2025
           (answered dated_courses "req-c") [biology; algebra]
           (mkCallMeta 200 (Some "req-c") (Some ["req-c"]))); reflexivity.
Defined.

End RecencyRun.

(* ===================================================================== *)
(** ** Announcements                                                      *)
(* ===================================================================== *)

Section AnnouncementFacts.
Import Js Errors Client Mappers Tools Announcements Notions MoreNotions.
Context `{host : Host}.
#[local] Open Scope list_scope.

Lemma digit_char_no_underscore (d : Z) :
  0 <= d < 10 -> Ascii.eqb (digit_char d) "_" = false.
Proof.
  intros Hd. unfold digit_char.
  assert (Hn : (Z.to_nat d < 10)%nat) by lia.
  destruct (Z.to_nat d) as [|[|[|[|[|[|[|[|[|[|n]]]]]]]]]]; try reflexivity.
  lia.
Qed.

Lemma digits_of_no_underscore (fuel : nat) :
  forall (n : Z) (acc : string),
    has_char "_" acc = false -> has_char "_" (digits_of fuel n acc) = false.
Proof.
  induction fuel as [|fuel IH]; intros n acc Hacc; [exact Hacc|].
  cbn [digits_of].
  assert (Hstep : has_char "_" (String (digit_char (n mod 10)) acc) = false).
  { cbn [has_char]. rewrite digit_char_no_underscore, Hacc; [reflexivity|].
    apply Z.mod_pos_bound. lia. }
  destruct (n <? 10); [exact Hstep|]. now apply IH.
Qed.

Lemma string_of_Z_no_underscore (n : Z) : has_char "_" (string_of_Z n) = false.
Proof.
  unfold string_of_Z. destruct (n <? 0).
  - cbn [has_char]. change (Ascii.eqb "-" "_") with false. cbn [orb].
    now apply digits_of_no_underscore.
  - now apply digits_of_no_underscore.
Qed.

Lemma split_context_code (prefix : string) (n : Z) :
  has_char "_" prefix = false ->
  split_on "_" (prefix ++ "_" ++ string_of_Z n)%string = [prefix; string_of_Z n].
Proof.
  intros Hp. rewrite append_cons, append_nil.
  rewrite split_on_app by exact Hp.
  now rewrite split_on_no_sep by apply string_of_Z_no_underscore.
Qed.

Lemma ensureCourseId_finite (id : option number) (fallback : option string) :
  isFinite (ensureCourseId id fallback) = true.
Proof.
  assert (Hf : isFinite
    match fallback with
    | None => ofZ 0
    | Some f =>
        if negb (truthy_str f) then ofZ 0
        else match split_on "_" f with
             | _ :: courseId :: _ =>
                 if isFinite (Number_ courseId) then Number_ courseId else ofZ 0
             | _ => ofZ 0
             end
    end = true).
  { destruct fallback as [f|]; [|reflexivity].
    destruct (truthy_str f); cbn [negb]; [|reflexivity].
    destruct (split_on "_" f) as [|p [|courseId rest]]; try reflexivity.
    destruct (isFinite (Number_ courseId)) eqn:E; [exact E|reflexivity]. }
  unfold ensureCourseId. destruct id as [n|]; [|exact Hf].
  destruct (isFinite n) eqn:E; [exact E|exact Hf].
Qed.

Lemma ensureCourseId_code (id : option number) (prefix : string) (n : Z) :
  no_number id = true ->
  has_char "_" prefix = false ->
  Number_ (string_of_Z n) = ofZ n ->
  ensureCourseId id (Some (prefix ++ "_" ++ string_of_Z n)%string) = ofZ n.
Proof.
  intros Hid Hp Hn.
  assert (Hf : (if negb (truthy_str (prefix ++ "_" ++ string_of_Z n)%string)
                then ofZ 0
                else match split_on "_" (prefix ++ "_" ++ string_of_Z n)%string with
                     | _ :: courseId :: _ =>
                         if isFinite (Number_ courseId) then Number_ courseId
                         else ofZ 0
                     | _ => ofZ 0
                     end) = ofZ n).
  { rewrite (split_context_code prefix n Hp), Hn.
    assert (Ht : truthy_str (prefix ++ "_" ++ string_of_Z n)%string = true).
    { destruct prefix; [rewrite append_nil|]; rewrite append_cons; reflexivity. }
    rewrite Ht. reflexivity. }
  unfold ensureCourseId. destruct id as [x|]; [|exact Hf].
  cbn [no_number] in Hid. apply negb_true_iff in Hid. rewrite Hid. exact Hf.
Qed.

(** X17.  [ensureCourseId] always gives a finite number: the id of the
    record when that is a finite number; else the number that follows the
    first underscore of the context code, read by [Number], whatever
    stands before the underscore (the kind of context is not looked at);
    else 0.  So the code [prefix_n] gives [n] for every integer [n] that
    [Number] reads back from its decimal form. *)
Theorem ensureCourseId_reads_context_code :
  (forall id fallback, isFinite (ensureCourseId id fallback) = true)
  /\ (forall q fallback, ensureCourseId (Some (Fin q)) fallback = Fin q)
  /\ (forall id, no_number id = true ->
        ensureCourseId id None = ofZ 0 /\ ensureCourseId id (Some "") = ofZ 0)
  /\ (forall id prefix n,
        no_number id = true ->
        has_char "_" prefix = false ->
        Number_ (string_of_Z n) = ofZ n ->
        ensureCourseId id (Some (prefix ++ "_" ++ string_of_Z n)%string) = ofZ n).
Proof.
  split; [exact ensureCourseId_finite|]. split; [reflexivity|].
  split; [|exact ensureCourseId_code].
  intros [x|] Hid; cbn [no_number] in Hid.
  - apply negb_true_iff in Hid. unfold ensureCourseId. rewrite Hid.
    split; reflexivity.
  - split; reflexivity.
Qed.

Lemma at_last_In {X : Type} (l : list X) (x : X) : at_last l = Some x -> In x l.
Proof.
  unfold at_last. induction l as [|y l IH]; [discriminate|].
  cbn [map]. rewrite last_cons_default. destruct l as [|z l].
  - cbn. intros [= ->]. now left.
  - intros H. right. apply IH. cbn [map]. rewrite last_cons_default.
    cbn [map] in H. rewrite last_cons_default in H. exact H.
Qed.

(** The handler when a course is named. *)
Lemma list_announcements_named c since coursesCall (G : AnnouncementsCall) :
  c <> 0 ->
  list_announcements (Some c) since coursesCall G
  = match G [context_code c] (start_date_of since) with
    | Throw e => Throw e
    | Ok result =>
        let ids :=
          match requestId result with
          | Some id => if truthy_str id then [id] else []
          | None => []
          end ++ default [] (requestIds result) in
        Ok (map mapAnnouncement (data result),
            mkToolMeta (Some (status result)) (at_last ids) ids)
    end.
Proof.
  intros Hc. unfold list_announcements, start_date_of.
  apply Z.eqb_neq in Hc. rewrite Hc. cbn [negb].
  destruct (G _ _) as [result|e]; [|reflexivity].
  destruct (requestId result) as [id|]; [destruct (truthy_str id)|];
    destruct (requestIds result); reflexivity.
Qed.

(** X18.  When a course is named (an id other than 0), the handler of
    [list_announcements] does not look at the list of courses, it asks
    for the announcements of the one context code [course_<id>], and it
    maps the answer record by record, in order.  A record that has no
    numeric course id of its own but carries that context code gets the
    course id that was asked for: the code the handler writes is read
    back by the mapper. *)
Theorem list_announcements_named_course c since (G : AnnouncementsCall) result :
  c <> 0 ->
  Number_ (string_of_Z c) = ofZ c ->
  G [context_code c] (start_date_of since) = Ok result ->
  exists anns meta,
    (forall coursesCall,
       list_announcements (Some c) since coursesCall G = Ok (anns, meta))
    /\ map ann_id anns = map an_id (data result)
    /\ Forall2
         (fun raw ann =>
            no_number (an_course_id raw) = true ->
            an_context_code raw = Some (context_code c) ->
            ann_course_id ann = ofZ c)
         (data result) anns.
Proof.
  intros Hc Hn HG. do 2 eexists. split; [|split].
  - intros coursesCall. rewrite (list_announcements_named c since coursesCall G Hc).
    rewrite HG. reflexivity.
  - rewrite map_map. reflexivity.
  - induction (data result) as [|raw l IH]; cbn [map]; constructor; [|exact IH].
    intros Hid Hcode. cbn [mapAnnouncement ann_course_id]. rewrite Hcode.
    unfold context_code.
    apply (ensureCourseId_code (an_course_id raw) "course" c Hid eq_refl Hn).
Qed.

(** X19.  When no course is named (no id, or the id 0, which the test
    [if (args.course_id)] takes for none) and the list of the active
    courses is empty, the handler of [list_announcements] throws an error
    of kind UNKNOWN, whatever the announcements endpoint would answer:
    it is not asked.  A failure of the call for the courses is thrown as
    it is. *)
Theorem list_announcements_needs_courses course_id since coursesCall
    (G : AnnouncementsCall) :
  course_id = None \/ course_id = Some 0 ->
  (forall coursesResult,
     coursesCall = Ok coursesResult -> data coursesResult = [] ->
     list_announcements course_id since coursesCall G
     = Throw (EApp (unknownError
                      "No accessible Canvas courses found for announcements."
                      None)))
  /\ (forall e, coursesCall = Throw e ->
                list_announcements course_id since coursesCall G = Throw e)
  /\ list_announcements course_id since coursesCall G
     = list_announcements None since coursesCall G.
Proof.
  intros Hid.
  assert (Hnone : list_announcements course_id since coursesCall G
                  = list_announcements None since coursesCall G).
  { destruct Hid as [->| ->]; reflexivity. }
  split; [|split; [|exact Hnone]].
  - intros coursesResult -> Hdata. rewrite Hnone.
    unfold list_announcements. rewrite Hdata. reflexivity.
  - intros e ->. rewrite Hnone. reflexivity.
Qed.

(** X20.  The metadata of [list_announcements] lists the request id of
    the last page of announcements twice: [getAll] reports that id both
    as [requestId] and as the last of [requestIds], and the handler
    pushes the first and then all of the second. *)
Theorem list_announcements_repeats_last_id c since coursesCall
    (G : AnnouncementsCall) result ids x anns meta :
  c <> 0 ->
  G [context_code c] (start_date_of since) = Ok result ->
  requestIds result = Some ids ->
  requestId result = at_last ids ->
  at_last ids = Some x -> x <> "" ->
  list_announcements (Some c) since coursesCall G = Ok (anns, meta) ->
  meta_requestIds meta = x :: ids
  /\ meta_requestId meta = Some x
  /\ (2 <= count_occ string_dec (meta_requestIds meta) x)%nat.
Proof.
  intros Hc HG Hids Hid Hlast Hx Hrun.
  rewrite (list_announcements_named c since coursesCall G Hc), HG in Hrun.
  rewrite Hid, Hlast, Hids in Hrun. cbv zeta in Hrun.
  assert (Ht : truthy_str x = true) by (destruct x; [congruence|reflexivity]).
  rewrite Ht in Hrun. cbn [default app] in Hrun.
  injection Hrun as <- <-. cbn [meta_requestIds meta_requestId].
  split; [reflexivity|]. split.
  - unfold at_last in *. cbn [map]. rewrite last_cons_default.
    destruct ids as [|y ids]; [discriminate|]. cbn [map] in *.
    rewrite last_cons_default in *. 
    rewrite <- Hlast. clear. revert y. induction ids as [|z ids IH]; intros y.
    + reflexivity.
    + cbn [map]. rewrite !last_cons_default. apply IH.
  - cbn [count_occ]. destruct (string_dec x x) as [_|Hne]; [|congruence].
    apply at_last_In in Hlast.
    apply (count_occ_In string_dec) in Hlast. lia.
Qed.

End AnnouncementFacts.

Section AnnouncementRuns.
Import Js Errors Client Mappers Tools Announcements Notions MoreNotions SampleHost MoreSamples.
#[local] Open Scope list_scope.

Lemma ensureCourseId_reads_context_code_witness :
  (no_number None = true
   /\ has_char "_" "course" = false
   /\ Number_ (Host := sample) (string_of_Z 42) = ofZ 42)
  /\ ensureCourseId (host := sample) None (Some ("course" ++ "_" ++ string_of_Z 42)%string)
     = ofZ 42.
Proof.
  split; [repeat split; reflexivity|].
  apply (proj2 (proj2 (proj2 (ensureCourseId_reads_context_code (host := sample))))
           None "course" 42); reflexivity.
Defined.

Lemma list_announcements_named_course_witness :
  let result :=
    mkCanvasResult sample_announcements 200 (Some "req-a2")
      (Some ["req-a1"; "req-a2"]) in
  (42 <> 0
   /\ Number_ (Host := sample) (string_of_Z 42) = ofZ 42
   /\ announcements_call [context_code 42] (start_date_of None) = Ok result)
  /\ exists anns meta,
       (forall coursesCall,
          list_announcements (host := sample) (Some 42) None coursesCall
            announcements_call = Ok (anns, meta))
       /\ map ann_id anns = map an_id (data result)
       /\ Forall2
            (fun raw ann =>
               no_number (an_course_id raw) = true ->
               an_context_code raw = Some (context_code 42) ->
               ann_course_id ann = ofZ 42)
            (data result) anns.
Proof.
  split; [split; [discriminate|split; reflexivity]|].
  apply (list_announcements_named_course (host := sample) 42 None
           announcements_call
           (mkCanvasResult sample_announcements 200 (Some "req-a2")
              (Some ["req-a1"; "req-a2"]))).
  - discriminate.
  - reflexivity.
  - reflexivity.
Defined.

Lemma list_announcements_needs_courses_witness :
  let coursesCall := answered (@nil CanvasCourse) "req-c" in
  (Some 0 = None \/ Some 0 = Some 0)
  /\ list_announcements (host := sample) (Some 0) None coursesCall
       announcements_call
     = Throw (EApp (unknownError
                      "No accessible Canvas courses found for announcements."
                      None)).
Proof.
  split; [now right|].
  apply (proj1 (list_announcements_needs_courses (host := sample) (Some 0) None
                  (answered (@nil CanvasCourse) "req-c") announcements_call
                  (or_intror eq_refl))
           (mkCanvasResult [] 200 (Some "req-c") (Some ["req-c"]))); reflexivity.
Defined.

Lemma list_announcements_repeats_last_id_witness :
  let result :=
    mkCanvasResult sample_announcements 200 (Some "req-a2")
      (Some ["req-a1"; "req-a2"]) in
  let anns := map (mapAnnouncement (host := sample)) sample_announcements in
  let meta := mkToolMeta (Some 200) (Some "req-a2") ["req-a2"; "req-a1"; "req-a2"] in
  (42 <> 0
   /\ announcements_call [context_code 42] (start_date_of None) = Ok result
   /\ requestIds result = Some ["req-a1"; "req-a2"]
   /\ requestId result = at_last ["req-a1"; "req-a2"]
   /\ at_last ["req-a1"; "req-a2"] = Some "req-a2"
   /\ "req-a2" <> ""
   /\ list_announcements (host := sample) (Some 42) None
        (answered sample_courses "req-c") announcements_call = Ok (anns, meta))
  /\ meta_requestIds meta = "req-a2" :: ["req-a1"; "req-a2"]
  /\ meta_requestId meta = Some "req-a2"
  /\ (2 <= count_occ string_dec (meta_requestIds meta) "req-a2")%nat.
Proof.
  split.
  - split; [discriminate|]. repeat split; try reflexivity. discriminate.
  - apply (list_announcements_repeats_last_id (host := sample) 42 None
             (answered sample_courses "req-c") announcements_call
             (mkCanvasResult sample_announcements 200 (Some "req-a2")
                (Some ["req-a1"; "req-a2"]))
             ["req-a1"; "req-a2"] "req-a2"
             (map (mapAnnouncement (host := sample)) sample_announcements)
             (mkToolMeta (Some 200) (Some "req-a2")
                ["req-a2"; "req-a1"; "req-a2"]));
      try reflexivity; discriminate.
Defined.

End AnnouncementRuns.

(* ===================================================================== *)
(** ** The horizon of the upcoming work                                   *)
(* ===================================================================== *)

Section Horizon.
Import Js Errors Client Mappers Tools Notions MoreNotions.
Context `{host : Host}.
#[local] Open Scope list_scope.

Lemma isWithinRange_intro (d : string) (q : Q) (now rangeEnd : Z) :
  truthy_str d = true -> Date_parse d = Fin q ->
  (inject_Z now <= q <= inject_Z rangeEnd)%Q ->
  isWithinRange (Some d) now rangeEnd = true.
Proof.
  intros Ht Hp [H1 H2]. unfold isWithinRange. rewrite Ht, Hp. cbn.
  apply andb_true_iff. split; now apply Qle_bool_iff.
Qed.

Lemma isWithinRange_wider (iso : option string) (now end1 end2 : Z) :
  end1 <= end2 ->
  isWithinRange iso now end1 = true -> isWithinRange iso now end2 = true.
Proof.
  intros Hle H. apply isWithinRange_finite in H as (d & q & -> & Ht & Hp & H1 & H2).
  apply (isWithinRange_intro d q); [exact Ht|exact Hp|].
  split; [exact H1|]. rewrite Zle_Qle in Hle. lra.
Qed.

Lemma todo_entry_within now rangeEnd item e :
  todo_entry now rangeEnd item = Some e ->
  truthy_ostr (due_at e) = true /\ due_within now rangeEnd e.
Proof.
  unfold todo_entry. destruct (todo_assignment item) as [a|]; [|discriminate].
  cbv zeta. destruct (isWithinRange _ _ _) eqn:Hr; [|discriminate].
  intros H. injection H as <-.
  apply isWithinRange_finite in Hr as (d & q & Hd & Ht & Hp & Hrange).
  cbn in Hd. split.
  - cbn. rewrite Hd. exact Ht.
  - exists q. split; [|exact Hrange]. unfold dueTime. cbn. now rewrite Hd, Ht, Hp.
Qed.

Lemma assignment_entry_within now rangeEnd course a e :
  assignment_entry now rangeEnd course a = Some e ->
  truthy_ostr (due_at e) = true -> due_within now rangeEnd e.
Proof.
  unfold assignment_entry.
  destruct (truthy_ostr (a_due_at a)) eqn:Ht; cbn [andb].
  - destruct (isWithinRange _ _ _) eqn:Hr; [|discriminate]. cbn [negb].
    intros H _. injection H as <-.
    apply isWithinRange_finite in Hr as (d & q & Hd & Htd & Hp & Hrange).
    exists q. split; [|exact Hrange]. unfold dueTime. cbn. now rewrite Hd, Htd, Hp.
  - intros H. injection H as <-. cbn. congruence.
Qed.

Lemma assignment_entries_In (G : AssignmentsCall) now rangeEnd courses e :
  forall index,
    In e (assignment_entries G now rangeEnd index courses) ->
    exists course a, assignment_entry now rangeEnd course a = Some e.
Proof.
  induction courses as [|course rest IH]; intros index; cbn; [tauto|].
  rewrite in_app_iff. intros [H|H]; [|eauto].
  destruct (G index course) as [r|err]; [|destruct H].
  apply list_elem_of_In, list_elem_of_omap in H as (a & _ & H). eauto.
Qed.

Lemma list_upcoming_schema days now todoCall coursesCall (G : AssignmentsCall)
    upcoming meta warnings :
  list_upcoming days now todoCall coursesCall G = (Ok (upcoming, meta), warnings) ->
  forallb upcomingItemSchema_ok upcoming = true.
Proof.
  unfold list_upcoming.
  destruct todoCall as [todoResult|e]; [|discriminate].
  destruct coursesCall as [coursesResult|e]; [|discriminate].
  destruct (courses_loop _ _ _ _ _ _ _) as [[st|e] w]; [|discriminate].
  destruct (forallb upcomingItemSchema_ok _) eqn:Hs; [|discriminate].
  intros H. injection H as <- _ _. exact Hs.
Qed.

(** X21.  Every entry [list_upcoming] returns that has a due date is due
    within the horizon, ends included: not before [now] and not after
    [now] plus the days asked for (7 by default).  An entry without a due
    date never comes from the to-do feed: its tag is [assignment].  And
    every entry has a course id, a link and a tag. *)
Theorem list_upcoming_within_horizon days now todoCall coursesCall
    (G : AssignmentsCall) upcoming meta warnings :
  list_upcoming days now todoCall coursesCall G = (Ok (upcoming, meta), warnings) ->
  forall e, In e upcoming ->
    (truthy_ostr (due_at e) = true -> due_within now (range_end days now) e)
    /\ (truthy_ostr (due_at e) = false -> source e = Some assignment)
    /\ upcomingItemSchema_ok e = true.
Proof.
  intros Hrun e He.
  pose proof (list_upcoming_schema _ _ _ _ _ _ _ _ Hrun) as Hschema.
  rewrite forallb_forall in Hschema. specialize (Hschema e He).
  destruct (list_upcoming_returns _ _ _ _ _ _ _ _ Hrun)
    as (todoResult & coursesResult & _ & _ & ->).
  apply (Permutation_in _ (sort_upcoming_perm _)) in He.
  apply merged_values_incl in He as [He|He].
  - unfold todo_entries in He.
    apply list_elem_of_In, list_elem_of_omap in He as (item & _ & He).
    apply todo_entry_within in He as [Ht Hw].
    split; [intros _; exact Hw|]. split; [congruence|exact Hschema].
  - pose proof (assignment_entries_source _ _ _ _ _ _ He) as Hsrc.
    apply assignment_entries_In in He as (course & a & He).
    split; [now apply (assignment_entry_within _ _ _ _ _ He)|].
    split; [intros _; exact Hsrc|exact Hschema].
Qed.

Lemma todo_entry_wider now end1 end2 item e :
  end1 <= end2 ->
  todo_entry now end1 item = Some e -> todo_entry now end2 item = Some e.
Proof.
  intros Hle. unfold todo_entry.
  destruct (todo_assignment item) as [a|]; [|discriminate]. cbv zeta.
  destruct (isWithinRange _ now end1) eqn:Hr; [|discriminate].
  now rewrite (isWithinRange_wider _ _ _ _ Hle Hr).
Qed.

Lemma assignment_entry_wider now end1 end2 course a e :
  end1 <= end2 ->
  assignment_entry now end1 course a = Some e ->
  assignment_entry now end2 course a = Some e.
Proof.
  intros Hle. unfold assignment_entry.
  destruct (truthy_ostr (a_due_at a)); cbn [andb]; [|tauto].
  destruct (isWithinRange _ now end1) eqn:Hr; [|discriminate].
  now rewrite (isWithinRange_wider _ _ _ _ Hle Hr).
Qed.

Lemma todo_entries_wider now end1 end2 items e :
  end1 <= end2 ->
  In e (todo_entries now end1 items) -> In e (todo_entries now end2 items).
Proof.
  intros Hle He. unfold todo_entries in *.
  apply list_elem_of_In, list_elem_of_omap in He as (item & Hitem & He).
  apply list_elem_of_In, list_elem_of_omap. exists item.
  split; [exact Hitem|]. now apply (todo_entry_wider now end1 end2).
Qed.

Lemma assignment_entries_wider (G : AssignmentsCall) now end1 end2 courses e :
  end1 <= end2 ->
  forall index,
    In e (assignment_entries G now end1 index courses) ->
    In e (assignment_entries G now end2 index courses).
Proof.
  intros Hle. induction courses as [|course rest IH]; intros index; cbn; [tauto|].
  rewrite !in_app_iff. intros [H|H]; [left|right; now apply IH].
  destruct (G index course) as [r|err]; [|destruct H].
  apply list_elem_of_In, list_elem_of_omap in H as (a & Ha & H).
  apply list_elem_of_In, list_elem_of_omap. exists a.
  split; [exact Ha|]. now apply (assignment_entry_wider now end1 end2).
Qed.

Lemma put_has (m : JsMap.t Assignment) (e : Assignment) (k : Z) :
  JsMap.has (put m e) k = JsMap.has m k || (item_id e =? k).
Proof.
  unfold put. induction m as [|[k' v] m IH]; cbn [JsMap.set JsMap.has].
  - destruct (item_id e =? k); reflexivity.
  - destruct (Z.eqb_spec k' (item_id e)) as [->|Hne]; cbn [JsMap.has].
    + destruct (Z.eqb_spec (item_id e) k); [reflexivity|].
      now rewrite orb_false_r.
    + destruct (k' =? k); [reflexivity|exact IH].
Qed.

Lemma put_if_absent_has (m : JsMap.t Assignment) (e : Assignment) (k : Z) :
  JsMap.has (put_if_absent m e) k = JsMap.has m k || (item_id e =? k).
Proof.
  unfold put_if_absent. destruct (JsMap.has m (item_id e)) eqn:Hh.
  - destruct (Z.eqb_spec (item_id e) k) as [<-|_].
    + now rewrite Hh.
    + now rewrite orb_false_r.
  - apply put_has.
Qed.

Lemma puts_has (l : list Assignment) (k : Z) :
  forall m,
    JsMap.has (fold_left put l m) k
    = JsMap.has m k || existsb (fun e => item_id e =? k) l.
Proof.
  induction l as [|e l IH]; intros m; cbn [fold_left existsb].
  - now rewrite orb_false_r.
  - rewrite IH, put_has. now rewrite orb_assoc.
Qed.

Lemma puts_if_absent_has (l : list Assignment) (k : Z) :
  forall m,
    JsMap.has (fold_left put_if_absent l m) k
    = JsMap.has m k || existsb (fun e => item_id e =? k) l.
Proof.
  induction l as [|e l IH]; intros m; cbn [fold_left existsb].
  - now rewrite orb_false_r.
  - rewrite IH, put_if_absent_has. now rewrite orb_assoc.
Qed.

(** The ids of the map once both loops are over. *)
Lemma merged_ids (todos assignments : list Assignment) (k : Z) :
  In k (map item_id (JsMap.values (merged todos assignments)))
  <-> In k (map item_id todos) \/ In k (map item_id assignments).
Proof.
  destruct (merged_invariant todos assignments) as [Hkeyed _].
  assert (Hkeys : map item_id (JsMap.values (merged todos assignments))
                  = JsMap.keys (merged todos assignments)).
  { unfold JsMap.values, JsMap.keys, keyed in *. rewrite map_map.
    apply map_ext_in. intros kv Hkv. rewrite List.Forall_forall in Hkeyed.
    symmetry. now apply Hkeyed. }
  rewrite Hkeys, <- has_keys. unfold merged.
  rewrite puts_if_absent_has, puts_has. cbn [JsMap.has JsMap.empty orb].
  rewrite orb_true_iff, !existsb_exists.
  split.
  - intros [(e & He & Hk)|(e & He & Hk)]; apply Z.eqb_eq in Hk;
      [left|right]; apply in_map_iff; eauto.
  - intros [H|H]; apply in_map_iff in H as (e & Hk & He); [left|right];
      exists e; (split; [exact He|now apply Z.eqb_eq]).
Qed.

(** X22.  Widening the horizon never loses an item: on the same feeds and
    at the same instant, every id that [list_upcoming] returns for a
    number of days is also returned for any larger number of days. *)
Theorem wider_horizon_keeps_items days1 days2 now todoCall coursesCall
    (G : AssignmentsCall) upcoming1 meta1 warnings1 upcoming2 meta2 warnings2 :
  default 7 days1 <= default 7 days2 ->
  list_upcoming days1 now todoCall coursesCall G
  = (Ok (upcoming1, meta1), warnings1) ->
  list_upcoming days2 now todoCall coursesCall G
  = (Ok (upcoming2, meta2), warnings2) ->
  forall k, In k (map item_id upcoming1) -> In k (map item_id upcoming2).
Proof.
  intros Hdays Hrun1 Hrun2 k Hk.
  assert (Hle : range_end days1 now <= range_end days2 now)
    by (unfold range_end; lia).
  destruct (list_upcoming_returns _ _ _ _ _ _ _ _ Hrun1)
    as (todoResult & coursesResult & Ht & Hc & ->).
  destruct (list_upcoming_returns _ _ _ _ _ _ _ _ Hrun2)
    as (todoResult' & coursesResult' & Ht' & Hc' & ->).
  rewrite Ht in Ht'. injection Ht' as <-.
  rewrite Hc in Hc'. injection Hc' as <-.
  apply (Permutation_in _ (Permutation_map item_id (sort_upcoming_perm _))) in Hk.
  apply (Permutation_in _ (Permutation_sym
                             (Permutation_map item_id (sort_upcoming_perm _)))).
  apply merged_ids in Hk. apply merged_ids.
  destruct Hk as [Hk|Hk]; apply in_map_iff in Hk as (e & <- & He);
    [left|right]; apply in_map.
  - now apply (todo_entries_wider now _ _ _ _ Hle).
  - now apply (assignment_entries_wider G now _ _ _ _ Hle).
Qed.

End Horizon.

Section HorizonRun.
Import Js Errors Client Mappers Tools Notions MoreNotions SampleHost MoreSamples.
#[local] Open Scope list_scope.

Lemma list_upcoming_within_horizon_witness :
  list_upcoming (host := sample) None 0 (answered sample_todos "req-t")
    (answered sample_courses "req-c") sample_assignments
  = (Ok (sample_upcoming, sample_meta), [mkWarning 2])
  /\ forall e, In e sample_upcoming ->
       (truthy_ostr (due_at e) = true ->
        due_within (host := sample) 0 (range_end None 0) e)
       /\ (truthy_ostr (due_at e) = false -> source e = Some assignment)
       /\ upcomingItemSchema_ok e = true.
Proof.
  split; [reflexivity|].
  apply (list_upcoming_within_horizon (host := sample) None 0
           (answered sample_todos "req-t") (answered sample_courses "req-c")
           sample_assignments sample_upcoming sample_meta [mkWarning 2]).
  reflexivity.
Defined.

Lemma wider_horizon_keeps_items_witness :
  (default 7 None <= default 7 (Some 8)
   /\ list_upcoming (host := sample) None 0 (answered sample_todos "req-t")
        (answered sample_courses "req-c") sample_assignments
      = (Ok (sample_upcoming, sample_meta), [mkWarning 2])
   /\ list_upcoming (host := sample) (Some 8) 0 (answered sample_todos "req-t")
        (answered sample_courses "req-c") sample_assignments
      = (Ok (sample_upcoming_8_days, sample_meta), [mkWarning 2]))
  /\ forall k, In k (map item_id sample_upcoming) ->
               In k (map item_id sample_upcoming_8_days).
Proof.
  split; [split; [cbn; lia|split; reflexivity]|].
  apply (wider_horizon_keeps_items (host := sample) None (Some 8) 0
           (answered sample_todos "req-t") (answered sample_courses "req-c")
           sample_assignments sample_upcoming sample_meta [mkWarning 2]
           sample_upcoming_8_days sample_meta [mkWarning 2]).
  - cbn. lia.
  - reflexivity.
  - reflexivity.
Defined.

End HorizonRun.

(* ===================================================================== *)
(** ** The bearer check of the HTTP server                                *)
(* ===================================================================== *)

Section Bearer.
Import Js Server.
#[local] Open Scope list_scope.




End Bearer.

(* ===================================================================== *)
(** ** From the environment to the client                                 *)
(* ===================================================================== *)

Section Environment.
Import Js Errors Auth Client Env MoreNotions.
#[local] Open Scope list_scope.




End Environment.

(* ===================================================================== *)
(** ** A 401 when the refresh token is dead                               *)
(* ===================================================================== *)

Section DeadRefresh.
Import Js Errors Auth Client Notions MoreNotions.
Context `{host : Host}.
#[local] Open Scope list_scope.

Lemma token_requests_app (e1 e2 : list AuthEffect) :
  token_requests (e1 ++ e2) = (token_requests e1 + token_requests e2)%nat.
Proof.
  induction e1 as [|[r c s|ms] e1 IH]; cbn [app token_requests]; [reflexivity| |exact IH].
  now rewrite IH.
Qed.

Lemma authorizations_of_app (e1 e2 : list ClientEffect) :
  authorizations_of (e1 ++ e2) = authorizations_of e1 ++ authorizations_of e2.
Proof.
  induction e1 as [|[u k h|ms] e1 IH]; cbn; [reflexivity| |exact IH].
  now rewrite IH.
Qed.

Lemma handleUnauthorized_fails (oauth : OAuthTokenAuth) (tev : TokenEvent)
    (endpoint : list TokenEvent) :
  refresh_fails tev = true ->
  exists msg,
    oauth_handleUnauthorized oauth (tev :: endpoint)
    = Some (Throw (EError msg), oauth, endpoint,
            [TokenRequest (refreshToken oauth) (clientId oauth)
               (if truthy_str (clientSecret oauth) then Some (clientSecret oauth)
                else None)]).
Proof.
  intros Hf.
  destruct (performRefresh_fails oauth true tev Hf) as (msg & sleeps & Hp & Hs).
  exists msg. unfold oauth_handleUnauthorized, refreshTokenPair. rewrite Hp.
  destruct Hs as [->|[Hc _]]; [reflexivity|discriminate].
Qed.

(** A run of 401 answers, each followed by a refresh that fails. *)
Lemma fetchWithRetry_dead_refresh (self : CanvasClient) (url : URL)
    (oauth : OAuthTokenAuth) (t0 : string) (clock' : list Z)
    (endpoint' : list TokenEvent) (rest : list FetchEvent) :
  accessToken oauth = Some t0 -> t0 <> "" -> tokenExpiresAt oauth = None ->
  forall (net : list FetchEvent) (cl : list Z) (tevs : list TokenEvent)
         (attempt : nat) (effs : list AuthEffect),
    net <> [] ->
    (attempt + length net = S (maxRetries self))%nat ->
    length cl = length net -> length tevs = length net ->
    forallb unauthorized net = true -> forallb refresh_fails tevs = true ->
    exists e s' eff,
      fetchWithRetry self url attempt
        (mkSession oauth (cl ++ clock') (tevs ++ endpoint') effs) (net ++ rest)
      = Some (Throw e, s', rest, eff)
      /\ plain_error e = true
      /\ requests_of eff = numbered url attempt (length net)
      /\ authorizations_of eff = repeat ("Bearer " ++ t0)%string (length net)
      /\ length (sleeps_of eff) = pred (length net)
      /\ strategy s' = oauth
      /\ Auth.clock s' = clock'
      /\ Auth.endpoint s' = endpoint'
      /\ token_requests (Auth.effects s') = (token_requests effs + length net)%nat.
Proof.
  intros Hacc Ht0 Hexp.
  induction net as [|ev net IH]; intros cl tevs attempt effs Hne Hk Hcl Htev H401 Hfail;
    [congruence|].
  destruct cl as [|c cl]; [discriminate|].
  destruct tevs as [|tev tevs]; [discriminate|].
  cbn [length] in Hk, Hcl, Htev. injection Hcl as Hcl. injection Htev as Htev.
  cbn [forallb] in H401, Hfail.
  apply andb_true_iff in H401 as [Hev H401].
  apply andb_true_iff in Hfail as [Htf Hfail].
  unfold unauthorized in Hev.
  destruct (ev_outcome ev) as [msg0|response] eqn:Hout; [discriminate|].
  destruct (handleUnauthorized_fails oauth tev (tevs ++ endpoint') Htf)
    as (msg & Hun).
  cbn [app fetchWithRetry getAuthorizationHeader handleUnauthorized
       OAuthTokenAuth_strategy Auth.clock Auth.strategy Auth.endpoint
       Auth.effects].
  rewrite (authorize_unknown_expiry oauth t0 c _ Hexp Hacc Ht0).
  rewrite Hout, Hev.
  cbn [Auth.clock Auth.strategy Auth.endpoint Auth.effects].
  rewrite Hun.
  destruct net as [|ev2 net].
  - cbn [length] in Hk.
    assert (Hle : (maxRetries self <=? attempt)%nat = true)
      by (apply Nat.leb_le; lia).
    rewrite Hle.
    destruct cl; [|discriminate]. destruct tevs; [|discriminate].
    do 3 eexists. split; [reflexivity|].
    cbn [plain_error requests_of authorizations_of sleeps_of length repeat pred
         Auth.clock Auth.strategy Auth.endpoint Auth.effects app].
    rewrite !token_requests_app. cbn [token_requests].
    repeat split. lia.
  - assert (Hle : (maxRetries self <=? attempt)%nat = false)
      by (apply Nat.leb_gt; cbn [length] in Hk; lia).
    rewrite Hle.
    destruct (IH cl tevs (S attempt)
                ((effs ++ []) ++
                 [TokenRequest (refreshToken oauth) (clientId oauth)
                    (if truthy_str (clientSecret oauth)
                     then Some (clientSecret oauth) else None)]))
      as (e & s' & eff & Hrun & Hplain & Hreq & Hauth & Hsl & Hs & Hc & He & Htok);
      [discriminate|cbn [length] in Hk |- *; lia|exact Hcl|exact Htev
      |exact H401|exact Hfail|].
    rewrite Hrun. do 3 eexists. split; [reflexivity|].
    split; [exact Hplain|].
    cbn [length pred] in Hreq, Hauth, Hsl, Htok.
    cbn [requests_of authorizations_of sleeps_of app length pred].
    rewrite Hreq, Hauth, Hsl.
    rewrite !token_requests_app in Htok. cbn [token_requests] in Htok.
    split; [reflexivity|]. split; [reflexivity|].
    split; [reflexivity|]. split; [exact Hs|]. split; [exact Hc|].
    split; [exact He|]. lia.
Qed.

(** X25.  With the refreshable credential and a refresh token that no
    longer works, a 401 is not final at once: the failure of the forced
    refresh lands in the [catch] of [fetchWithRetry], so the request is
    repeated after a backoff wait, with the same stale token, until the
    retries are used up.  After [maxRetries + 1] requests, as many token
    requests and [maxRetries] waits, the error of the last refresh is
    thrown, a plain [Error] rather than a classified AUTHORIZATION_FAILED;
    the strategy is as it was. *)
Theorem unauthorized_with_dead_refresh (self : CanvasClient) (url : URL)
    (oauth : OAuthTokenAuth) (t0 : string) (net : list FetchEvent)
    (cl : list Z) (tevs : list TokenEvent) (clock' : list Z)
    (endpoint' : list TokenEvent) (effs : list AuthEffect)
    (rest : list FetchEvent) :
  accessToken oauth = Some t0 -> t0 <> "" -> tokenExpiresAt oauth = None ->
  length net = S (maxRetries self) ->
  length cl = length net -> length tevs = length net ->
  forallb unauthorized net = true -> forallb refresh_fails tevs = true ->
  exists e s' eff,
    fetchWithRetry self url 0
      (mkSession oauth (cl ++ clock') (tevs ++ endpoint') effs) (net ++ rest)
    = Some (Throw e, s', rest, eff)
    /\ plain_error e = true
    /\ requests_of eff = numbered url 0 (S (maxRetries self))
    /\ authorizations_of eff
       = repeat ("Bearer " ++ t0)%string (S (maxRetries self))
    /\ length (sleeps_of eff) = maxRetries self
    /\ strategy s' = oauth
    /\ token_requests (Auth.effects s')
       = (token_requests effs + S (maxRetries self))%nat.
Proof.
  intros Hacc Ht0 Hexp Hlen Hcl Htev H401 Hfail.
  destruct (fetchWithRetry_dead_refresh self url oauth t0 clock' endpoint' rest
              Hacc Ht0 Hexp net cl tevs 0%nat effs)
    as (e & s' & eff & Hrun & Hplain & Hreq & Hauth & Hsl & Hs & _ & _ & Htok);
    try assumption.
  - intros ->. discriminate.
  - exists e, s', eff. rewrite Hlen in *. cbn [pred] in Hsl.
    repeat split; assumption.
Qed.

End DeadRefresh.

Section DeadRefreshRun.
Import Js Errors Auth Client Notions MoreNotions SampleHost MoreSamples.
#[local] Open Scope list_scope.

Lemma unauthorized_with_dead_refresh_witness :
  let net := repeat (answer forbidden) 4 in
  let tevs := repeat (mkTokenEvent (TokenHttp 400 None) 0) 4 in
  (accessToken sample_oauth = Some "tok-0" /\ "tok-0" <> ""
   /\ tokenExpiresAt sample_oauth = None
   /\ length net = S (maxRetries sample_client)
   /\ length [1; 2; 3; 4] = length net /\ length tevs = length net
   /\ forallb unauthorized net = true /\ forallb refresh_fails tevs = true)
  /\ exists e s' eff,
       fetchWithRetry (host := sample) sample_client "/api/v1/courses" 0
         (mkSession sample_oauth ([1; 2; 3; 4] ++ []) (tevs ++ []) [])
         (net ++ [answer page_two])
       = Some (Throw e, s', [answer page_two], eff)
       /\ plain_error e = true
       /\ requests_of eff = numbered (host := sample) "/api/v1/courses" 0 4
       /\ authorizations_of eff = repeat "Bearer tok-0" 4
       /\ length (sleeps_of eff) = 3%nat
       /\ strategy s' = sample_oauth
       /\ token_requests (Auth.effects s') = 4%nat.
Proof.
  split.
  - repeat split; try reflexivity. discriminate.
  - apply (unauthorized_with_dead_refresh (host := sample) sample_client
             "/api/v1/courses" sample_oauth "tok-0" (repeat (answer forbidden) 4)
             [1; 2; 3; 4] (repeat (mkTokenEvent (TokenHttp 400 None) 0) 4)
             [] [] [] [answer page_two]); try reflexivity. discriminate.
Defined.

End DeadRefreshRun.

(* ===================================================================== *)
(** ** The metadata and the warnings of the upcoming work                 *)
(* ===================================================================== *)

Section UpcomingMeta.
Import Js Errors Client Mappers Tools Notions MoreNotions.
Context `{host : Host}.
#[local] Open Scope list_scope.

Lemma push_meta_ids {T : Type} (r : CanvasResult T) (st : Upcoming) :
  metaRequestIds (push_meta r st) = metaRequestIds st ++ result_ids r.
Proof.
  unfold push_meta, result_ids. cbn [metaRequestIds].
  destruct (requestIds r); [reflexivity|].
  destruct (requestId r) as [id|]; [|now rewrite app_nil_r].
  destruct (truthy_str id); [reflexivity|now rewrite app_nil_r].
Qed.

Lemma courses_loop_meta (G : AssignmentsCall) now rangeEnd courses :
  forall index st warnings st' warnings',
    courses_loop G now rangeEnd index courses st warnings = (Ok st', warnings') ->
    metaRequestIds st' = metaRequestIds st ++ answered_ids G index courses
    /\ warnings' = warnings ++ skipped G index courses.
Proof.
  induction courses as [|course rest IH]; intros index st warnings st' warnings' Hrun.
  - cbn in Hrun. injection Hrun as <- <-. cbn. now rewrite !app_nil_r.
  - cbn [courses_loop] in Hrun. cbn [answered_ids skipped].
    destruct (G index course) as [r|err].
    + apply IH in Hrun as [Hids Hw]. cbn [metaRequestIds] in Hids.
      rewrite Hids, Hw, push_meta_ids, app_assoc. split; reflexivity.
    + destruct err as [e|msg]; [|discriminate].
      destruct (ErrorCode_eqb (code e) AUTHORIZATION_FAILED); [|discriminate].
      apply IH in Hrun as [Hids Hw]. rewrite Hids, Hw, <- app_assoc.
      split; reflexivity.
Qed.

(** X26.  The metadata of [list_upcoming] lists the request ids of the
    call for the to-do feed, then of the call for the courses, then of
    the calls for the assignments of the courses that could be read, in
    the order of the courses; a course that is skipped adds no request
    id.  The [requestId] is the last of them.  And there is exactly one
    warning for each course that is skipped, in the order of the
    courses, and no other warning. *)
Theorem list_upcoming_metadata days now todoCall coursesCall
    (G : AssignmentsCall) upcoming meta warnings :
  list_upcoming days now todoCall coursesCall G = (Ok (upcoming, meta), warnings) ->
  exists todoResult coursesResult,
    todoCall = Ok todoResult
    /\ coursesCall = Ok coursesResult
    /\ meta_requestIds meta
       = result_ids todoResult ++ result_ids coursesResult
         ++ answered_ids G 0 (data coursesResult)
    /\ meta_requestId meta = at_last (meta_requestIds meta)
    /\ warnings = skipped G 0 (data coursesResult).
Proof.
  unfold list_upcoming.
  destruct todoCall as [todoResult|e]; [|discriminate].
  destruct coursesCall as [coursesResult|e]; [|discriminate].
  destruct (courses_loop _ _ _ _ _ _ _) as [[st|e] w] eqn:Hloop; [|discriminate].
  destruct (forallb upcomingItemSchema_ok _); [|discriminate].
  intros H. injection H as _ <- <-.
  exists todoResult, coursesResult. split; [reflexivity|]. split; [reflexivity|].
  apply courses_loop_meta in Hloop as [Hids Hw].
  cbn [meta_requestIds meta_requestId].
  rewrite push_meta_ids in Hids. cbn [metaRequestIds] in Hids.
  rewrite push_meta_ids in Hids. cbn [metaRequestIds app] in Hids.
  split; [rewrite Hids; now rewrite <- app_assoc|].
  split; [reflexivity|exact Hw].
Qed.

End UpcomingMeta.

Section UpcomingMetaRun.
Import Js Errors Client Mappers Tools Notions MoreNotions SampleHost MoreSamples.
#[local] Open Scope list_scope.

Lemma list_upcoming_metadata_witness :
  list_upcoming (host := sample) None 0 (answered sample_todos "req-t")
    (answered sample_courses "req-c") sample_assignments
  = (Ok (sample_upcoming, sample_meta), [mkWarning 2])
  /\ exists todoResult coursesResult,
       answered sample_todos "req-t" = Ok todoResult
       /\ answered sample_courses "req-c" = Ok coursesResult
       /\ meta_requestIds sample_meta
          = result_ids todoResult ++ result_ids coursesResult
            ++ answered_ids sample_assignments 0 (data coursesResult)
       /\ meta_requestId sample_meta = at_last (meta_requestIds sample_meta)
       /\ [mkWarning 2] = skipped sample_assignments 0 (data coursesResult).
Proof.
  split; [reflexivity|].
  apply (list_upcoming_metadata (host := sample) None 0
           (answered sample_todos "req-t") (answered sample_courses "req-c")
           sample_assignments sample_upcoming sample_meta [mkWarning 2]).
  reflexivity.
Defined.

End UpcomingMetaRun.

(* ===================================================================== *)
(** ** The base address                                                   *)
(* ===================================================================== *)

Section BaseUrl.
Import Js Env.
#[local] Open Scope list_scope.










End BaseUrl.

(* ===================================================================== *)
(** ** The rendering of a time zone offset                                *)
(* ===================================================================== *)

Section Offset.
Import Js Timezone.
#[local] Open Scope list_scope.

Lemma string_of_Z_one_digit (n : Z) :
  0 <= n < 10 -> string_of_Z n = String (digit_char n) "".
Proof.
  intros Hn. unfold string_of_Z.
  destruct (Z.ltb_spec n 0); [lia|]. cbn [digits_of].
  destruct (Z.ltb_spec n 10); [|lia].
  now rewrite Z.mod_small by lia.
Qed.

Lemma string_of_Z_two_digits (n : Z) :
  10 <= n < 100 ->
  string_of_Z n = String (digit_char (n / 10)) (String (digit_char (n mod 10)) "").
Proof.
  intros Hn. unfold string_of_Z.
  destruct (Z.ltb_spec n 0); [lia|].
  destruct (Z.to_nat n) as [|k] eqn:Hk; [lia|].
  cbn [digits_of]. destruct (Z.ltb_spec n 10); [lia|].
  assert (Hq : 1 <= n / 10 < 10).
  { split; [apply Z.div_le_lower_bound; lia|apply Z.div_lt_upper_bound; lia]. }
  destruct k as [|k]; [lia|]. cbn [digits_of].
  destruct (Z.ltb_spec (n / 10) 10); [|lia].
  now rewrite (Z.mod_small (n / 10)) by lia.
Qed.

Lemma pad_two_digits (n : Z) :
  0 <= n < 100 ->
  pad n = String (digit_char (n / 10)) (String (digit_char (n mod 10)) "").
Proof.
  intros Hn. unfold pad. destruct (Z.ltb_spec n 10) as [Hlt|Hge].
  - rewrite string_of_Z_one_digit by lia.
    rewrite Z.div_small, Z.mod_small by lia. reflexivity.
  - now rewrite string_of_Z_two_digits by lia.
Qed.

Lemma digit_char_inj (a b : Z) :
  0 <= a < 10 -> 0 <= b < 10 -> digit_char a = digit_char b -> a = b.
Proof.
  intros Ha Hb H. unfold digit_char in H.
  apply (f_equal nat_of_ascii) in H.
  rewrite !nat_ascii_embedding in H by lia. lia.
Qed.

Lemma formatOffset_digits (offset : Z) :
  -6000 < offset < 6000 ->
  formatOffset offset
  = String (if offset >=? 0 then "+" else "-")%char
      (String (digit_char (Z.abs offset / 60 / 10))
         (String (digit_char ((Z.abs offset / 60) mod 10))
            (String ":"
               (String (digit_char ((Z.abs offset mod 60) / 10))
                  (String (digit_char ((Z.abs offset mod 60) mod 10)) ""))))).
Proof.
  intros Ho. unfold formatOffset.
  assert (Hh : 0 <= Z.abs offset / 60 < 100).
  { split; [apply Z.div_pos; lia|apply Z.div_lt_upper_bound; lia]. }
  assert (Hm : 0 <= Z.abs offset mod 60 < 60) by (apply Z.mod_pos_bound; lia).
  rewrite (pad_two_digits _ Hh), (pad_two_digits (Z.abs offset mod 60)) by lia.
  destruct (offset >=? 0); reflexivity.
Qed.

(** X28.  For an offset of less than 100 hours either way, in minutes,
    [formatOffset] writes a sign, two digits of hours, a colon and two
    digits of minutes below 60; and the rendering determines the offset:
    two different offsets are never written the same way. *)
Theorem formatOffset_round_trip (a b : Z) :
  -6000 < a < 6000 -> -6000 < b < 6000 ->
  String.length (formatOffset a) = 6%nat
  /\ (formatOffset a = formatOffset b -> a = b).
Proof.
  intros Ha Hb. rewrite (formatOffset_digits a Ha). split; [reflexivity|].
  rewrite (formatOffset_digits b Hb).
  assert (Hha : 0 <= Z.abs a / 60 < 100).
  { split; [apply Z.div_pos; lia|apply Z.div_lt_upper_bound; lia]. }
  assert (Hhb : 0 <= Z.abs b / 60 < 100).
  { split; [apply Z.div_pos; lia|apply Z.div_lt_upper_bound; lia]. }
  assert (Hma : 0 <= Z.abs a mod 60 < 60) by (apply Z.mod_pos_bound; lia).
  assert (Hmb : 0 <= Z.abs b mod 60 < 60) by (apply Z.mod_pos_bound; lia).
  intros H. injection H as Hsign H1 H2 H3 H4.
  apply digit_char_inj in H1;
    [|split; [apply Z.div_pos; lia|apply Z.div_lt_upper_bound; lia]
     |split; [apply Z.div_pos; lia|apply Z.div_lt_upper_bound; lia]].
  apply digit_char_inj in H2; [|apply Z.mod_pos_bound; lia|apply Z.mod_pos_bound; lia].
  apply digit_char_inj in H3;
    [|split; [apply Z.div_pos; lia|apply Z.div_lt_upper_bound; lia]
     |split; [apply Z.div_pos; lia|apply Z.div_lt_upper_bound; lia]].
  apply digit_char_inj in H4; [|apply Z.mod_pos_bound; lia|apply Z.mod_pos_bound; lia].
  assert (Hh : Z.abs a / 60 = Z.abs b / 60).
  { rewrite (Z.div_mod (Z.abs a / 60) 10), (Z.div_mod (Z.abs b / 60) 10) by lia.
    now rewrite H1, H2. }
  assert (Hm : Z.abs a mod 60 = Z.abs b mod 60).
  { rewrite (Z.div_mod (Z.abs a mod 60) 10), (Z.div_mod (Z.abs b mod 60) 10) by lia.
    now rewrite H3, H4. }
  assert (Habs : Z.abs a = Z.abs b).
  { rewrite (Z.div_mod (Z.abs a) 60), (Z.div_mod (Z.abs b) 60) by lia.
    now rewrite Hh, Hm. }
  destruct (Z.geb_spec a 0), (Z.geb_spec b 0); try discriminate; lia.
Qed.

Lemma formatOffset_round_trip_witness :
  (-6000 < -240 < 6000 /\ -6000 < 330 < 6000)
  /\ formatOffset (-240) = "-04:00"
  /\ formatOffset 330 = "+05:30"
  /\ String.length (formatOffset (-240)) = 6%nat
  /\ (formatOffset (-240) = formatOffset 330 -> -240 = 330).
Proof.
  split; [lia|]. split; [reflexivity|]. split; [reflexivity|].
  apply (formatOffset_round_trip (-240) 330); lia.
Defined.

End Offset.

(* ===================================================================== *)
(** ** Failures that resolve within the ceiling                           *)
(* ===================================================================== *)

Section Transient.
Import Js Errors Auth Client Notions MoreNotions.
Context `{host : Host}.
#[local] Open Scope list_scope.

(** X29.  Transient failures are invisible in the result of [get]: when
    at most [maxRetries] answers that call for a retry (transport
    failures, 429, 5xx) come before a response that calls for none, the
    outcome of [get] is the one it has on that response alone, a result
    or a classified error, and what is left of the network is the same;
    only the effects differ: one physical request per answer, numbered
    from 0, and one wait per failure. *)
Theorem transient_failures_invisible (self : CanvasClient) (path : string)
    (params : option (list (string * ParamValue)))
    (pat : PersonalAccessTokenAuth) (url : URL) (fails : list FetchEvent)
    (response : Response) (now : Z) (random : Q) (rest : list FetchEvent) :
  buildUrl (baseUrl self) path params = Some url ->
  (length fails <= maxRetries self)%nat ->
  forallb retryable fails = true ->
  shouldRetry (resp_status response) = false ->
  exists eff,
    get self path params pat
      (fails ++ mkFetchEvent (FetchResponds response) now random :: rest)
    = Some (handleResponse response, pat, rest, eff)
    /\ get self path params pat
         (mkFetchEvent (FetchResponds response) now random :: rest)
       = Some (handleResponse response, pat, rest,
               [Request url 0 ("Bearer " ++ token pat)%string])
    /\ requests_of eff = numbered url 0 (S (length fails))
    /\ length (sleeps_of eff) = length fails.
Proof.
  intros Hurl Hlen Hfails Hno.
  assert (Hgen : forall attempt,
    (attempt + length fails <= maxRetries self)%nat ->
    exists eff,
      fetchWithRetry self url attempt pat
        (fails ++ mkFetchEvent (FetchResponds response) now random :: rest)
      = Some (Ok response, pat, rest, eff)
      /\ requests_of eff = numbered url attempt (S (length fails))
      /\ length (sleeps_of eff) = length fails).
  { clear Hlen. induction fails as [|ev fails IH]; intros attempt Hk.
    - cbn [app]. rewrite (fetchWithRetry_single _ _ _ _ _ _ _ _ Hno).
      eexists. repeat split.
    - cbn [forallb] in Hfails. apply andb_true_iff in Hfails as [Hev Hfails].
      cbn [length] in Hk.
      destruct (IH Hfails (S attempt)) as (eff & Hrun & Hreq & Hsl); [lia|].
      assert (Hlt : (attempt <? maxRetries self)%nat = true)
        by (apply Nat.ltb_lt; lia).
      assert (Hle : (maxRetries self <=? attempt)%nat = false)
        by (apply Nat.leb_gt; lia).
      cbn [app fetchWithRetry getAuthorizationHeader
           PersonalAccessTokenAuth_strategy pat_getAuthorizationHeader].
      unfold retryable in Hev.
      destruct (ev_outcome ev) as [msg|r].
      + rewrite Hle, Hrun. eexists. split; [reflexivity|].
        cbn [requests_of sleeps_of app length]. rewrite Hreq, Hsl.
        split; reflexivity.
      + assert (H401 : (resp_status r =? 401) = false).
        { unfold shouldRetry in Hev. apply Z.eqb_neq. intros E.
          rewrite E in Hev. discriminate. }
        rewrite H401, Hev, Hlt. cbn [andb]. rewrite Hrun.
        eexists. split; [reflexivity|].
        cbn [requests_of sleeps_of app length]. rewrite Hreq, Hsl.
        split; reflexivity. }
  destruct (Hgen 0%nat) as (eff & Hrun & Hreq & Hsl); [lia|].
  exists eff. unfold get. rewrite Hurl, Hrun.
  rewrite (fetchWithRetry_single _ _ _ _ _ _ _ _ Hno).
  repeat split; assumption.
Qed.

End Transient.

Section TransientRun.
Import Js Errors Auth Client Notions MoreNotions SampleHost MoreSamples.
#[local] Open Scope list_scope.

Lemma transient_failures_invisible_witness :
  let url := "https://canvas.example.com/api/v1/courses/9" in
  let fails := [failure "ECONNRESET"; answer busy; answer busy] in
  let single :=
    mkResponse 200 (Some "req-7") None None (Some "application/json")
      (BodyJson (JObj [("id", JNum (ofZ 9))])) in
  (buildUrl (host := sample) (baseUrl sample_client) "/api/v1/courses/9" None
   = Some url
   /\ (length fails <= maxRetries sample_client)%nat
   /\ forallb retryable fails = true
   /\ shouldRetry (resp_status single) = false)
  /\ exists eff,
       get (host := sample) sample_client "/api/v1/courses/9" None sample_pat
         (fails ++ [answer single])
       = Some (Ok (mkCanvasResult (JObj [("id", JNum (ofZ 9))]) 200
                     (Some "req-7") None),
               sample_pat, [], eff)
       /\ requests_of eff = numbered (host := sample) url 0 4
       /\ length (sleeps_of eff) = 3%nat.
Proof.
  split; [split; [reflexivity|split; [cbn; lia|split; reflexivity]]|].
  destruct (transient_failures_invisible (host := sample) sample_client
              "/api/v1/courses/9" None sample_pat
              "https://canvas.example.com/api/v1/courses/9"
              [failure "ECONNRESET"; answer busy; answer busy]
              (mkResponse 200 (Some "req-7") None None (Some "application/json")
                 (BodyJson (JObj [("id", JNum (ofZ 9))])))
              0 (1 # 2) [] eq_refl)
    as (eff & Hrun & _ & Hreq & Hsl); [cbn; lia|reflexivity|reflexivity|].
  exists eff. split; [exact Hrun|]. split; [exact Hreq|exact Hsl].
Defined.

End TransientRun.

(* ===================================================================== *)
(** ** A refresh that is due and succeeds                                 *)
(* ===================================================================== *)

Section DueRefresh.
Import Js Errors Auth Notions MoreNotions.
#[local] Open Scope list_scope.

(** X30.  When [getAuthorizationHeader] of the OAuth strategy has to
    refresh (the stored expiry is near, or there is no access token) and
    the token endpoint delivers a non-empty access token, the header
    handed out carries the new token, never the old one, after exactly
    one token request; the new token is stored, and the next answer of
    the token endpoint is not consumed. *)
Theorem due_refresh_uses_new_token self now ev endpoint status payload t1 :
  refresh_due self now = true ->
  tok_outcome ev = TokenHttp status (Some payload) ->
  response_ok status = true ->
  access_token payload = Some t1 -> t1 <> "" ->
  exists self',
    oauth_getAuthorizationHeader self now (ev :: endpoint)
    = Some (Ok ("Bearer " ++ t1)%string, self', endpoint,
            [TokenRequest (refreshToken self) (clientId self)
               (if truthy_str (clientSecret self) then Some (clientSecret self)
                else None)])
    /\ accessToken self' = Some t1.
Proof.
  intros Hdue Hout Hok Hacc Ht1.
  destruct (performRefresh_tokens self false ev status payload Hout Hok)
    as (self' & Hp & Hacc' & _).
  rewrite Hacc in Hacc'. exists self'. split; [|exact Hacc'].
  assert (Ht : truthy_str t1 = true) by (destruct t1; [congruence|reflexivity]).
  unfold oauth_getAuthorizationHeader, refreshTokenPair.
  unfold refresh_due in Hdue.
  destruct (shouldRefreshSoon self now).
  - rewrite Hp. cbn [truthy_ostr]. rewrite Hacc'. cbn [truthy_ostr].
    rewrite Ht. reflexivity.
  - cbn [orb] in Hdue. rewrite Hdue, Hp, Hacc', Ht. reflexivity.
Qed.

Lemma due_refresh_uses_new_token_witness :
  let self := mkOAuth (Some "tok-0") "https://canvas.example.com" "client"
                "secret" "r0" (Some (ofZ 61000)) in
  let payload := mkTokenPayload (Some "tok-1") None (Some (ofZ 3600)) in
  let ev := mkTokenEvent (TokenHttp 200 (Some payload)) 1000 in
  (refresh_due self 1000 = true
   /\ tok_outcome ev = TokenHttp 200 (Some payload)
   /\ response_ok 200 = true
   /\ access_token payload = Some "tok-1" /\ "tok-1" <> "")
  /\ exists self',
       oauth_getAuthorizationHeader self 1000 [ev]
       = Some (Ok "Bearer tok-1", self', [],
               [TokenRequest "r0" "client" (Some "secret")])
       /\ accessToken self' = Some "tok-1".
Proof.
  split.
  - repeat split; try reflexivity. discriminate.
  - apply (due_refresh_uses_new_token
             (mkOAuth (Some "tok-0") "https://canvas.example.com" "client"
                "secret" "r0" (Some (ofZ 61000)))
             1000
             (mkTokenEvent
                (TokenHttp 200
                   (Some (mkTokenPayload (Some "tok-1") None (Some (ofZ 3600)))))
                1000)
             [] 200 (mkTokenPayload (Some "tok-1") None (Some (ofZ 3600)))
             "tok-1"); try reflexivity. discriminate.
Defined.

End DueRefresh.
